(** * A shallow embedding of the dependency-removal miner

    The Python sources embedded here are
      - [app/scripts/github_api.py]   (request layer, accessors, search,
                                       batched manifest query),
      - [app/scripts/find_dependency_replacements.py]
                                      (patch parser, blob analyzer, orchestrator),
      - [app/scripts/compute_js_metrics.py] (keyword heuristic, file listing),
      - [app/scripts/metrics.py]      (vulnerability cache, repository audit).

    Conventions.
      - Python [str] values are Rocq [string]s; a character is one code
        point below 256 (Latin-1), which is what an HTTP header or an ASCII
        patch contains.
      - Python [int] is [Z]; a [float] that is only ever produced by exact
        rational arithmetic (sleep lengths, averages) is a [Q].
      - A call that may raise returns an [outcome]; [try]/[except] is
        [try_except].
      - The remote platform is a snapshot: every endpoint is a function of
        its arguments, except the transport under [request_with_backoff],
        which answers per attempt. *)

From Stdlib Require Import ZArith QArith String Ascii List Bool Lia Lqa.
From Stdlib Require Import DecimalString DecimalNat.
From stdpp Require Import gmap strings list sorting.


Local Open Scope Z_scope.

(* ===================================================================== *)
(** ** Python builtins used by the sources                                *)
(* ===================================================================== *)

Module Py.

(** The exception classes that occur.  [HTTPError], [ConnectionError] and
    [Timeout] derive from [requests.RequestException]; everything here
    derives from [Exception].  [StatusException status body url] is the
    plain [Exception(f"{status} Client Error: {body} for url: {url}")]
    that [request_with_backoff] builds. *)
Inductive exn : Type :=
  | HTTPError (status : Z) (text : string)
  | ConnectionError (msg : string)
  | Timeout (msg : string)
  | StatusException (status : Z) (body url : string)
  | OtherException (msg : string)
  | RuntimeError (msg : string)
  | ValueError (msg : string)
  | TypeError (msg : string)
  | AttributeError (msg : string).

(** [isinstance(e, requests.RequestException)] *)
Definition is_RequestException (e : exn) : bool :=
  match e with
  | HTTPError _ _ | ConnectionError _ | Timeout _ => true
  | _ => false
  end.

Inductive outcome (A : Type) : Type :=
  | Returned (a : A)
  | Raised (e : exn).
Arguments Returned {A} a.
Arguments Raised {A} e.

Definition bind {A B} (m : outcome A) (k : A -> outcome B) : outcome B :=
  match m with
  | Returned a => k a
  | Raised e => Raised e
  end.

(** [try: body  except Exception: handler] -- every [exn] is an [Exception]. *)
Definition try_except {A} (body : outcome A) (handler : exn -> outcome A) : outcome A :=
  match body with
  | Returned a => Returned a
  | Raised e => handler e
  end.

Declare Scope py_scope.
Delimit Scope py_scope with py.
Notation "'let*' x ':=' m 'in' k" := (bind m (fun x => k))
  (at level 10, x name, m at level 100, k at level 200) : py_scope.

(** *** Characters *)

Definition code (c : ascii) : N := N_of_ascii c.

Definition in_range (lo hi : N) (c : ascii) : bool :=
  ((lo <=? code c) && (code c <=? hi))%N.

(** [str.isspace] on one code point below 256 (also the class [\s] of
    [re] and what [int] and [str.strip] strip). *)
Definition isspace (c : ascii) : bool :=
  in_range 9 13 c || in_range 28 32 c || (code c =? 133)%N || (code c =? 160)%N.

(** [str.lower] on one code point below 256. *)
Definition lower_char (c : ascii) : ascii :=
  if in_range 65 90 c || in_range 192 214 c || in_range 216 222 c
  then ascii_of_N (code c + 32) else c.

Definition isdigit (c : ascii) : bool := in_range 48 57 c.

(** The class [\w] of [re] (str patterns) below 256: [str.isalnum] or [_]. *)
Definition isword (c : ascii) : bool :=
  in_range 48 57 c || in_range 65 90 c || in_range 97 122 c || (code c =? 95)%N
  || (code c =? 170)%N || (code c =? 178)%N || (code c =? 179)%N
  || (code c =? 181)%N || (code c =? 185)%N || (code c =? 186)%N
  || in_range 188 190 c || in_range 192 214 c || in_range 216 246 c
  || in_range 248 255 c.

Definition ascii_eqb (a b : ascii) : bool := Ascii.eqb a b.

(** *** Strings as character lists *)

Definition chars (s : string) : list ascii := list_ascii_of_string s.
Definition str (l : list ascii) : string := string_of_list_ascii l.

Definition lower (s : string) : string := str (map lower_char (chars s)).

Fixpoint starts_with (p l : list ascii) : bool :=
  match p, l with
  | [], _ => true
  | a :: p', b :: l' => ascii_eqb a b && starts_with p' l'
  | _ :: _, [] => false
  end.

(** [s.endswith(suffix)] *)
Definition endswith (s suffix : string) : bool :=
  starts_with (rev (chars suffix)) (rev (chars s)).

(** [needle in haystack] *)
Fixpoint contains_chars (needle hay : list ascii) : bool :=
  starts_with needle hay ||
  match hay with
  | [] => false
  | _ :: hay' => contains_chars needle hay'
  end.

Definition contains (needle hay : string) : bool :=
  contains_chars (chars needle) (chars hay).

Fixpoint lstrip_by (space : ascii -> bool) (l : list ascii) : list ascii :=
  match l with
  | c :: l' => if space c then lstrip_by space l' else l
  | [] => []
  end.

Definition strip_by (space : ascii -> bool) (l : list ascii) : list ascii :=
  rev (lstrip_by space (rev (lstrip_by space l))).

(** [s.lstrip()] and [s.strip()] *)
Definition lstrip (l : list ascii) : list ascii := lstrip_by isspace l.
Definition strip (l : list ascii) : list ascii := strip_by isspace l.

(** Line boundaries of [str.splitlines] below 256. *)
Definition is_linebreak (c : ascii) : bool :=
  in_range 10 13 c || in_range 28 30 c || (code c =? 133)%N.

(** [s.splitlines()]: [cur] is the line being read (reversed), [after_cr]
    says the previous character was a carriage return, so that a line
    feed right after it belongs to the same boundary. *)
Fixpoint splitlines_from (cur : list ascii) (after_cr : bool) (l : list ascii)
  : list (list ascii) :=
  match l with
  | [] => match cur with [] => [] | _ => [rev cur] end
  | c :: l' =>
      if after_cr && (code c =? 10)%N then splitlines_from [] false l'
      else if is_linebreak c then rev cur :: splitlines_from [] (code c =? 13)%N l'
      else splitlines_from (c :: cur) false l'
  end.

Definition splitlines (s : string) : list (list ascii) :=
  splitlines_from [] false (chars s).

(** *** [int(s)] on a string, base ten

    Surrounding white space is stripped, one sign is allowed, and digits
    may be grouped by single underscores.  The white space of [int] is
    that of C below 128 and that of Unicode above: the separators 28 to 31
    are not stripped.  The interpreter guards against long numerals: a
    text of more digits than [sys.get_int_max_str_digits()], 4300 unless
    it was set otherwise, raises [ValueError] like a text that is no
    numeral. *)

Definition int_max_str_digits : Z := 4300.

Definition int_space (c : ascii) : bool :=
  in_range 9 13 c || (code c =? 32)%N || (code c =? 133)%N || (code c =? 160)%N.

Definition digit_value (c : ascii) : Z := Z.of_N (code c) - 48.

(** [prev_digit] says the previous character was a digit (an underscore
    must stand between two digits). *)
Fixpoint parse_digits (acc : Z) (prev_digit : bool) (l : list ascii) : option Z :=
  match l with
  | [] => if prev_digit then Some acc else None
  | c :: l' =>
      if isdigit c then parse_digits (10 * acc + digit_value c) true l'
      else if (code c =? 95)%N && prev_digit then
        match l' with
        | d :: _ => if isdigit d then parse_digits acc false l' else None
        | [] => None
        end
      else None
  end.

Definition count_digits (l : list ascii) : Z :=
  Z.of_nat (length (List.filter isdigit l)).

Definition int_of_chars (l : list ascii) : option Z :=
  if int_max_str_digits <? count_digits l then None
  else
    match strip_by int_space l with
    | c :: l' =>
        if (code c =? 45)%N then Z.opp <$> parse_digits 0 false l'
        else if (code c =? 43)%N then parse_digits 0 false l'
        else parse_digits 0 false (c :: l')
    | [] => None
    end.

(** [int(s)]: [None] stands for the [ValueError]. *)
Definition int (s : string) : option Z := int_of_chars (chars s).

(** Truth value of an [int] and of a [str]. *)
Definition truthy_int (z : Z) : bool := negb (z =? 0).
Definition truthy_str (s : string) : bool :=
  match s with EmptyString => false | _ => true end.

(** [l[:n]] for an [int] [n] (a negative bound counts from the end). *)
Definition slice_to {A} (l : list A) (n : Z) : list A :=
  if 0 <=? n then take (Z.to_nat n) l
  else take (Z.to_nat (Z.of_nat (length l) + n)) l.

(** *** A [dict] with [str] keys, in insertion order

    Assigning to a key that is present keeps its position. *)
Fixpoint dict_set {V} (k : string) (v : V) (d : list (string * V)) : list (string * V) :=
  match d with
  | [] => [(k, v)]
  | (k', v') :: d' =>
      if String.eqb k k' then (k, v) :: d' else (k', v') :: dict_set k v d'
  end.

Fixpoint dict_get {V} (k : string) (d : list (string * V)) : option V :=
  match d with
  | [] => None
  | (k', v') :: d' => if String.eqb k k' then Some v' else dict_get k d'
  end.

Definition dict_keys {V} (d : list (string * V)) : list string := map fst d.

(** *** [re]: scanning for the non-overlapping matches of a pattern

    [m prev s] tries the pattern at the position whose remaining text is
    [s] and whose preceding character is [prev]; it answers the value of
    the match and the number of characters it spans.  [skip] counts the
    characters of the last match still to be passed. *)
Fixpoint scan {A} (m : option ascii -> list ascii -> option (A * nat))
    (prev : option ascii) (skip : nat) (s : list ascii) : list A :=
  match s with
  | [] => []
  | c :: s' =>
      match skip with
      | S k => scan m (Some c) k s'
      | O =>
          match m prev s with
          | Some (a, n) => a :: scan m (Some c) (pred n) s'
          | None => scan m (Some c) 0%nat s'
          end
      end
  end.

Definition finditer {A} (m : option ascii -> list ascii -> option (A * nat))
    (s : string) : list A :=
  scan m None 0%nat (chars s).

(** The integer nearest to n / d, ties to the even one. *)
Definition round_half_even (n : Z) (d : positive) : Z :=
  let q := n / Z.pos d in
  let r := n mod Z.pos d in
  if 2 * r <? Z.pos d then q
  else if Z.pos d <? 2 * r then q + 1
  else if Z.even q then q else q + 1.

(** The fraction (n / d) / 2 ^ e. *)
Definition scaled (n : Z) (d : positive) (e : Z) : Z * positive :=
  if 0 <=? e then (n, (d * Z.to_pos (2 ^ e))%positive) else (n * 2 ^ (- e), d).

(** The binary order of magnitude of n / d for a positive n: the k with
    2 ^ k <= n / d < 2 ^ (k + 1). *)
Definition binade (n : Z) (d : positive) : Z :=
  let k := Z.log2 n - Z.log2 (Z.pos d) in
  let '(a, b) := scaled n d k in
  if Z.pos b <=? a then k else k - 1.

(** The [float] nearest to a rational, ties to the even significand: what
    the true division of two [int] and [float(Fraction)] compute.  A float
    is m * 2 ^ e with a significand m of at most 53 bits and e >= -1074;
    a rational beyond the largest float (the division then raises) is
    outside the averages formed here. *)
Definition to_float (x : Q) : Q :=
  let n := Z.abs (Qnum x) in
  if n =? 0 then 0%Q
  else
    let e := Z.max (binade n (Qden x) - 52) (-1074) in
    let '(a, b) := scaled n (Qden x) e in
    let m := Z.sgn (Qnum x) * round_half_even a b in
    if 0 <=? e then inject_Z (m * 2 ^ e) else (m # Z.to_pos (2 ^ (- e)))%Q.

(** [round(float(x), 4)] for the exact value x of a quotient or a mean:
    the float nearest to x is rounded, by its own exact value, to the
    nearest multiple of 1/10000, ties to even.  The answer stands for the
    float nearest to it, which is what the interpreter returns and what
    prints as this decimal. *)
Definition round4 (x : Q) : Q :=
  let y := to_float x in
  Qred (round_half_even (Qnum y * 10000) (Qden y) # 10000).

(** [statistics.mean] of a non-empty list of floats, as the exact
    rational it forms before it goes back to a float ([round4] takes the
    float). *)
Definition mean (l : list Q) : Q :=
  (fold_left Qplus l 0%Q / inject_Z (Z.of_nat (length l)))%Q.

(** The sum of a list of integers. *)
Definition Zsum (l : list Z) : Z := fold_right Z.add 0 l.

End Py.

Import Py.

(* ===================================================================== *)
(** ** app/scripts/github_api.py                                          *)
(* ===================================================================== *)

Module GithubApi.

(** A [requests.Response] whose decoded body has type [B]; [json] is the
    result of calling [r.json()]. *)
Record response (B : Type) : Type := mkResponse {
  status_code : Z;
  headers : list (string * string);
  text : string;
  json : outcome B;
}.
Arguments mkResponse {B} _ _ _ _.
Arguments status_code {B} _.
Arguments headers {B} _.
Arguments text {B} _.
Arguments json {B} _.

(** [resp.headers.get(name)]: header names compare without case. *)
Fixpoint headers_get (name : string) (h : list (string * string)) : option string :=
  match h with
  | [] => None
  | (k, v) :: h' =>
      if String.eqb (lower k) (lower name) then Some v else headers_get name h'
  end.

(** [time.sleep(d)] for a whole number d of seconds goes through when d
    is not negative and is at most [longest], the longest sleep the
    platform accepts at that moment.  A negative length raises
    [ValueError]; a length that does not fit the clock of the interpreter
    raises [OverflowError] and one that the system refuses [OSError], from
    some nine thousand million seconds on, the exact bound depending on
    the platform and on how long it has been running. *)
Definition sleep_accepts (longest d : Z) : bool :=
  (0 <=? d) && (d <=? longest).

(** The three ways [_sleep_backoff] picks a sleep length.  A branch
    answers [None] when its [try] block raised or its guard failed, and
    the next branch is tried: the handler of each of the first two [try]
    blocks catches a failed [int(...)] and a refused [time.sleep] alike. *)
Definition sleep_retry_after {B} (resp : response B) (longest : Z) : option Q :=
  match headers_get "Retry-After" (headers resp) with
  | Some ra =>
      if truthy_str ra then
        match int ra with
        | Some sec =>
            if sleep_accepts longest (sec + 1) then Some (inject_Z (sec + 1)) else None
        | None => None
        end
      else None
  | None => None
  end.

Definition sleep_rate_limit_reset {B} (resp : response B) (now longest : Z)
  : option Q :=
  match headers_get "X-RateLimit-Remaining" (headers resp),
        headers_get "X-RateLimit-Reset" (headers resp) with
  | Some remaining, Some reset =>
      if String.eqb remaining "0" && truthy_str reset then
        match int reset with
        | Some reset_ts =>
            let sleep_for := Z.max 0 (reset_ts - now + 2) in
            if sleep_accepts longest sleep_for then Some (inject_Z sleep_for) else None
        | None => None
        end
      else None
  | _, _ => None
  end.

(** The third branch asks for 62 seconds at most, which every platform
    accepts. *)
Definition sleep_exponential (attempt : nat) (jitter : Q) : Q :=
  (inject_Z (Z.min 60 (2 ^ Z.of_nat attempt)) + jitter)%Q.

(** [_sleep_backoff(attempt, resp)]: the length of the one [time.sleep]
    that goes through.  [now] is [int(time.time())], [jitter] the draw of
    [random.uniform(0.5, 2.0)] and [longest] the longest sleep the
    platform accepts. *)
Definition _sleep_backoff {B} (attempt : nat) (resp : option (response B))
    (now : Z) (jitter : Q) (longest : Z) : Q :=
  match resp with
  | Some r =>
      match sleep_retry_after r longest with
      | Some d => d
      | None =>
          match sleep_rate_limit_reset r now longest with
          | Some d => d
          | None => sleep_exponential attempt jitter
          end
      end
  | None => sleep_exponential attempt jitter
  end.

(** What the process does that an observer can count. *)
Inductive event : Type :=
  | Request (attempt : nat)
  | Sleep (seconds : Q).

Definition is_request (e : event) : bool :=
  match e with Request _ => true | Sleep _ => false end.

(** The world under one call of [request_with_backoff]: what
    [s.request(...)] does at each attempt (numbered from 1), and the
    clock, the random draw and the longest sleep the platform accepts, as
    the backoff after that attempt finds them. *)
Record transport (B : Type) : Type := mkTransport {
  send : nat -> outcome (response B);
  clock : nat -> Z;
  jitter : nat -> Q;
  longest : nat -> Z;
}.
Arguments mkTransport {B} _ _ _ _.
Arguments send {B} _ _.
Arguments clock {B} _ _.
Arguments jitter {B} _ _.
Arguments longest {B} _ _.

Definition retry_statuses : list Z := [429; 403; 502; 503; 504].

Definition is_retry_status (s : Z) : bool :=
  existsb (Z.eqb s) retry_statuses.

(** [resp.raise_for_status()] *)
Definition raise_for_status {B} (resp : response B) : outcome unit :=
  if (400 <=? status_code resp) && (status_code resp <? 600)
  then Raised (HTTPError (status_code resp) (text resp))
  else Returned tt.

(** How the body of the [try] block leaves one iteration of the loop. *)
Inductive step (B : Type) : Type :=
  | StepReturn (resp : response B)
  | StepContinue (last_exc : option exn).
Arguments StepReturn {B} resp.
Arguments StepContinue {B} last_exc.

(** The [try] block of one iteration (attempt already incremented). *)
Definition try_block {B} (t : transport B) (url : string) (attempt : nat)
    (last_exc : option exn) : outcome (step B) * list event :=
  match send t attempt with
  | Raised e => (Raised e, [Request attempt])
  | Returned resp =>
      if status_code resp <? 400 then
        (Returned (StepReturn resp), [Request attempt])
      else if is_retry_status (status_code resp) then
        (Returned (StepContinue
                     (Some (StatusException (status_code resp) (text resp) url))),
         [Request attempt;
          Sleep (_sleep_backoff attempt (Some resp) (clock t attempt) (jitter t attempt)
                   (longest t attempt))])
      else
        match raise_for_status resp with
        | Raised e => (Raised e, [Request attempt])
        | Returned _ => (Returned (StepContinue last_exc), [Request attempt])
        end
  end.

(** The [while attempt < max_retries] loop; [remaining] is
    [max_retries - attempt]. *)
Fixpoint attempts_loop {B} (t : transport B) (url : string) (remaining attempt : nat)
    (last_exc : option exn) : outcome (response B) * list event :=
  match remaining with
  | O =>
      (match last_exc with
       | Some e => Raised e
       | None => Raised (RuntimeError "request_with_backoff: exhausted retries.")
       end, [])
  | S remaining' =>
      let attempt := S attempt in
      match try_block t url attempt last_exc with
      | (Returned (StepReturn resp), evs) => (Returned resp, evs)
      | (Returned (StepContinue last_exc'), evs) =>
          let '(r, evs') := attempts_loop t url remaining' attempt last_exc' in
          (r, evs ++ evs')
      | (Raised e, evs) =>
          (* except requests.RequestException as e *)
          if is_RequestException e then
            let nap :=
              Sleep (_sleep_backoff (B:=B) attempt None (clock t attempt) (jitter t attempt)
                       (longest t attempt)) in
            let '(r, evs') := attempts_loop t url remaining' attempt (Some e) in
            (r, evs ++ nap :: evs')
          else (Raised e, evs)
      end
  end.

Definition default_max_retries : nat := 6.

(** [request_with_backoff(method, url, ..., max_retries)]; a budget below
    1 leaves the loop at once, like the budget 0. *)
Definition request_with_backoff {B} (t : transport B) (url : string)
    (max_retries : nat) : outcome (response B) * list event :=
  attempts_loop t url max_retries 0 None.

(** The body of a blob answer, as far as [get_blob_content] reads it. *)
Record blob_json : Type := mkBlobJson {
  content : option string;
  encoding : option string;
}.

(** [get_blob_content(repo_full_name, blob_sha)].  [b64decode content] is
    [base64.b64decode(content)] followed by the decoding to text with
    [errors="replace"], which cannot fail. *)
Definition get_blob_content (b64decode : string -> outcome string)
    (t : transport blob_json) (url : string) : outcome (option string) :=
  try_except
    (let* r := fst (request_with_backoff t url default_max_retries) in
     if negb (status_code r =? 200) then Returned None
     else
       let* data := json r in
       match content data, encoding data with
       | Some c, Some e =>
           if truthy_str c && String.eqb e "base64" then
             try_except (let* raw := b64decode c in Returned (Some raw))
                        (fun _ => Returned None)
           else Returned None
       | _, _ => Returned None
       end)%py
    (fun _ => Returned None).

End GithubApi.

Import GithubApi.

(* ===================================================================== *)
(** ** app/scripts/metrics.py                                             *)
(* ===================================================================== *)

Module Metrics.

(** One cache entry: [(count, [ids])]; an id may be missing ([v.get("id")]). *)
Definition cve_entry : Type := (Z * list (option string))%type.

(** The answer of the vulnerability service as [get_cve_for_package] reads
    it: [osv_ids] is the evaluation of [r.json().get("vulns", [])] and of
    the comprehension over it, which raises on a malformed body. *)
Record osv_response : Type := mkOsv {
  osv_status : Z;
  osv_ids : outcome (list (option string));
}.

(** The cache file [OSV_CACHE]: [None] when it is missing or unreadable. *)
Definition cache_file : Type := option (gmap string cve_entry).

(** [load_osv_cache()] *)
Definition load_osv_cache (f : cache_file) : gmap string cve_entry :=
  match f with
  | Some m => m
  | None => ∅
  end.

(** [save_osv_cache(cache)]: [written] says whether the directory and the
    file could be written; on failure the exception is swallowed and the
    file is whatever the failed write left, [left]. *)
Definition save_osv_cache (written : bool) (left : cache_file)
    (cache : gmap string cve_entry) : cache_file :=
  if written then Some cache else left.

(** The [try] block of [get_cve_for_package]: [Returned (Some result)] when
    the answer has status 200 and a well-formed body, [Returned None] when
    the status differs. *)
Definition osv_try (post : string -> outcome osv_response) (package_name : string)
  : outcome (option cve_entry) :=
  (let* r := post package_name in
   if osv_status r =? 200 then
     let* vulns := osv_ids r in
     Returned (Some (Z.of_nat (length vulns), vulns))
   else Returned None)%py.

(** [get_cve_for_package(package_name, session, cache)]: the result, the
    cache afterwards and the names posted to the service.  Calling it with
    [cache=None] is calling it with the empty cache and dropping the cache
    it answers. *)
Definition get_cve_for_package (post : string -> outcome osv_response)
    (package_name : string) (cache : gmap string cve_entry)
  : cve_entry * gmap string cve_entry * list string :=
  match cache !! package_name with
  | Some hit => (hit, cache, [])
  | None =>
      match osv_try post package_name with
      | Returned (Some result) =>
          (result, <[package_name := result]> cache, [package_name])
      | Returned None | Raised _ =>
          ((0, []), <[package_name := (0, [])]> cache, [package_name])
      end
  end.

End Metrics.

(* ===================================================================== *)
(** ** app/scripts/compute_js_metrics.py                                  *)
(* ===================================================================== *)

Module ComputeJsMetrics.

(** One alternative of the two patterns: a keyword between word
    boundaries, or a literal token. *)
Inductive alt : Type :=
  | Word (w : string)
  | Lit (l : string).

(** Comparison under [re.IGNORECASE]; the pattern is in lower case. *)
Fixpoint starts_with_nocase (p l : list ascii) : bool :=
  match p, l with
  | [], _ => true
  | a :: p', b :: l' => ascii_eqb a (lower_char b) && starts_with_nocase p' l'
  | _ :: _, [] => false
  end.

Definition word_before (prev : option ascii) : bool :=
  match prev with
  | Some c => isword c
  | None => false
  end.

Definition word_at (l : list ascii) : bool :=
  match l with
  | c :: _ => isword c
  | [] => false
  end.

Definition match_alt (prev : option ascii) (s : list ascii) (a : alt) : option nat :=
  match a with
  | Word w =>
      if negb (word_before prev) && starts_with_nocase (chars w) s
         && negb (word_at (drop (length (chars w)) s))
      then Some (length (chars w)) else None
  | Lit l =>
      if starts_with_nocase (chars l) s then Some (length (chars l)) else None
  end.

(** An alternation tries its alternatives from left to right. *)
Fixpoint match_alts (alts : list alt) (prev : option ascii) (s : list ascii)
  : option (unit * nat) :=
  match alts with
  | [] => None
  | a :: alts' =>
      match match_alt prev s a with
      | Some n => Some (tt, n)
      | None => match_alts alts' prev s
      end
  end.

Definition KEYWORDS_RE : list alt :=
  [Word "if"; Word "for"; Word "while"; Word "case"; Word "catch"; Lit "&&"; Lit "||"].

Definition FUNCTION_RE : list alt := [Word "function"; Lit "=>"].

(** [len(RE.findall(src))] *)
Definition count_matches (re : list alt) (src : string) : Z :=
  Z.of_nat (length (finditer (match_alts re) src)).

Record source_file : Type := mkSourceFile {
  file_path : string;
  source : string;
}.

Record heuristic_metrics : Type := mkHeuristic {
  h_lines_of_code : Z;
  h_avg_complexity : Q;
}.

(** The accumulators of the loop of [analyze_contents]. *)
Record totals : Type := mkTotals {
  total_loc : Z;
  total_functions : Z;
  total_complexity_contrib : Z;
}.

Definition add_file (acc : totals) (file : source_file) : totals :=
  let src := source file in
  if negb (truthy_str src) then acc
  else
    let loc := Z.of_nat (length (splitlines src)) in
    let functions_count := count_matches FUNCTION_RE src in
    let keywords_count := count_matches KEYWORDS_RE src in
    let complexity_contrib := functions_count + keywords_count in
    if (functions_count =? 0) && (0 <? keywords_count) then
      mkTotals (total_loc acc + loc) (total_functions acc + 1)
               (total_complexity_contrib acc + complexity_contrib)
    else
      mkTotals (total_loc acc + loc) (total_functions acc + functions_count)
               (total_complexity_contrib acc + complexity_contrib).

(** [analyze_contents(contents)] *)
Definition analyze_contents (contents : list source_file) : heuristic_metrics :=
  let acc := fold_left add_file contents (mkTotals 0 0 0) in
  let avg_complexity :=
    if 0 <? total_functions acc
    then (inject_Z (total_complexity_contrib acc) / inject_Z (total_functions acc))%Q
    else 0%Q in
  mkHeuristic (total_loc acc) (round4 avg_complexity).

End ComputeJsMetrics.

(* ===================================================================== *)
(** ** app/scripts/find_dependency_replacements.py                        *)
(* ===================================================================== *)

Module FindDependencyReplacements.

Import Metrics.

Definition SRC_EXTS : list string := [".js"; ".jsx"; ".ts"; ".tsx"; ".mjs"; ".cjs"].
Definition SKIP_PATH_PARTS : list string :=
  ["node_modules/"; "bower_components/"; "dist/"; "build/"; "vendor/"; ".git/"].
Definition MAX_BLOB_BYTES : Z := 1024 * 1024.
Definition GITHUB_API : string := "https://api.github.com".

(** *** The manifest-line pattern [_pkg_line_re]

    Under [re.MULTILINE]: at a line start, one of [-] and [+], white
    space, a quoted non-empty name, a colon, white space, a quoted
    non-empty version; neither name nor version holds a double quote. *)

Record pkg_match : Type := mkPkgMatch {
  op : ascii;
  name : string;
  ver : string;
}.

Definition is_quote (c : ascii) : bool := (code c =? 34)%N.
Definition minus_sign : N := 45.
Definition plus_sign : N := 43.

(** The longest run of characters other than the double quote, and what
    follows it: a greedy run of non-quotes that must be followed by a
    quote leaves no choice. *)
Fixpoint span_unquoted (l : list ascii) : list ascii * list ascii :=
  match l with
  | c :: l' =>
      if is_quote c then ([], l)
      else let '(run, rest) := span_unquoted l' in (c :: run, rest)
  | [] => ([], [])
  end.

(** A quoted non-empty text: its inside and what follows the closing
    quote. *)
Definition quoted (l : list ascii) : option (list ascii * list ascii) :=
  match l with
  | q :: l1 =>
      if is_quote q then
        match span_unquoted l1 with
        | ((_ :: _) as inside, _ :: rest) => Some (inside, rest)
        | _ => None
        end
      else None
  | [] => None
  end.

(** The pattern after its anchor, tried at the text [s]. *)
Definition match_pkg_line (s : list ascii) : option (pkg_match * nat) :=
  match s with
  | c :: s1 =>
      if (code c =? minus_sign)%N || (code c =? plus_sign)%N then
        match quoted (lstrip s1) with
        | Some (nm, colon :: s2) =>
            if (code colon =? 58)%N then
              match quoted (lstrip s2) with
              | Some (vr, rest) =>
                  Some (mkPkgMatch c (str nm) (str vr),
                        (length s - length rest)%nat)
              | None => None
              end
            else None
        | _ => None
        end
      else None
  | [] => None
  end.

(** [^] under [re.MULTILINE]: the start of the text or just after a line feed. *)
Definition at_line_start (prev : option ascii) : bool :=
  match prev with
  | None => true
  | Some c => (code c =? 10)%N
  end.

Definition _pkg_line_re (prev : option ascii) (s : list ascii)
  : option (pkg_match * nat) :=
  if at_line_start prev then match_pkg_line s else None.

Definition versions : Type := list (string * string).

(** The body of the loop over the matches. *)
Definition record_match (maps : versions * versions) (m : pkg_match)
  : versions * versions :=
  let '(removed, added) := maps in
  if (code (op m) =? minus_sign)%N then (dict_set (name m) (ver m) removed, added)
  else if (code (op m) =? plus_sign)%N then (removed, dict_set (name m) (ver m) added)
  else (removed, added).

(** [parse_removed_added_from_patch(patch_text)] *)
Definition parse_removed_added_from_patch (patch_text : string)
  : versions * versions :=
  if negb (truthy_str patch_text) then ([], [])
  else fold_left record_match (finditer _pkg_line_re patch_text) ([], []).

(** *** Complexity of one source text *)

(** The optional [lizard] module: [None] when the import failed, else the
    per-function complexities it reports for (file name, source), each as
    the [float] the loop appends, or the exception it raises. *)
Definition analyzer : Type := option (string -> string -> outcome (list Q)).

Definition nonblank (ln : list ascii) : bool :=
  match strip ln with [] => false | _ => true end.

(** [analyze_source_complexity(source_code, filename_for_reporting)] *)
Definition analyze_source_complexity (lizard : analyzer) (source_code : string)
    (filename_for_reporting : string) : Z * list Q :=
  let loc := Z.of_nat (length (filter (fun ln => Is_true (nonblank ln))
                                      (splitlines source_code))) in
  match lizard with
  | None => (loc, [])
  | Some analyze =>
      match analyze filename_for_reporting source_code with
      | Returned complexities => (loc, complexities)
      | Raised _ => (loc, [])
      end
  end.

(** *** The blob-based analyzer *)

Record tree_item : Type := mkTreeItem {
  item_type : string;
  path : string;
  sha : string;
  size : option Z;
}.

Record metrics : Type := mkMetrics {
  lines_of_code : Z;
  avg_complexity : Q;
  files_processed : Z;
}.

Definition zero_metrics : metrics := mkMetrics 0 0 0.

(** A commit of the listing, a changed file and a commit detail, as far
    as [analyze_repo] reads them. *)
Record commit : Type := mkCommit {
  c_sha : string;
  c_parents : list string;
  c_date : option string;
}.

Record file_change : Type := mkFileChange {
  filename : string;
  patch : option string;
}.

Record commit_detail : Type := mkDetail {
  files : list file_change;
  message : string;
  date : string;
}.

(** The remote platform and the environment of one run.
    [get_tree_for_ref] may raise: it resolves the tree identifier outside
    its own [try] block.  [date_in_window days date] is the [try] block of
    the recency filter (parse the date, compare it with the cutoff).
    [fetch_package_json_at_ref] answers the manifest, serialized. *)
Record remote : Type := mkRemote {
  get_tree_for_ref : string -> string -> outcome (list tree_item);
  blob_transport : string -> transport blob_json;
  b64decode : string -> outcome string;
  lizard : analyzer;
  list_commits_touching_path : string -> list commit;
  get_commit_detail : string -> string -> option commit_detail;
  date_in_window : Z -> string -> outcome bool;
  fetch_package_json_at_ref : string -> string -> string -> option string;
  osv_post : string -> outcome osv_response;
  osv_file : cache_file;
  osv_written : bool;
  osv_left : cache_file;
}.

(** The test of the filtering loop: the item is kept. *)
Definition is_candidate (item : tree_item) : bool :=
  String.eqb (item_type item) "blob"
  && existsb (endswith (lower (path item))) SRC_EXTS
  && negb (existsb (fun p => contains p (path item)) SKIP_PATH_PARTS)
  && (let size := default 0 (size item) in
      negb (truthy_int size && (MAX_BLOB_BYTES <? size))).

Definition blob_url (repo_full_name blob_sha : string) : string :=
  GITHUB_API +:+ "/repos/" +:+ repo_full_name +:+ "/git/blobs/" +:+ blob_sha.

(** The state of the loop over the retained blobs; [fetched] lists the
    blobs [get_blob_content] was called for, in order. *)
Record pass : Type := mkPass {
  total_loc : Z;
  complexity_vals : list Q;
  processed_files : Z;
  fetched : list string;
}.

Definition visit_blob (w : remote) (repo_full_name : string) (st : pass)
    (item : tree_item) : outcome pass :=
  (let* content := get_blob_content (b64decode w)
                (blob_transport w (blob_url repo_full_name (sha item)))
                (blob_url repo_full_name (sha item)) in
   match content with
   | None =>
       Returned (mkPass (total_loc st) (complexity_vals st) (processed_files st)
                        (fetched st ++ [sha item]))
   | Some text =>
       let '(loc, comps) := analyze_source_complexity (lizard w) text (path item) in
       Returned (mkPass (total_loc st + loc) (complexity_vals st ++ comps)
                        (processed_files st + 1) (fetched st ++ [sha item]))
   end)%py.

Fixpoint visit_blobs (w : remote) (repo_full_name : string) (st : pass)
    (items : list tree_item) : outcome pass :=
  match items with
  | [] => Returned st
  | item :: items' =>
      (let* st' := visit_blob w repo_full_name st item in
       visit_blobs w repo_full_name st' items')%py
  end.

(** The filtering loop: the candidate blobs, in tree order. *)
Definition candidate_blobs (tree_items : list tree_item) : list tree_item :=
  filter (fun item => Is_true (is_candidate item)) tree_items.

(** The limit: [file_limit] is an [int]; [None] behaves like 0, both being
    false. *)
Definition limit_blobs (candidates : list tree_item) (file_limit : Z) : list tree_item :=
  let total_candidates := Z.of_nat (length candidates) in
  if truthy_int file_limit && (file_limit <? total_candidates)
  then slice_to candidates file_limit
  else candidates.

Definition summarize (st : pass) : metrics :=
  let avg_complexity :=
    match complexity_vals st with
    | [] => 0%Q
    | _ => mean (complexity_vals st)
    end in
  mkMetrics (total_loc st) (round4 avg_complexity) (processed_files st).

(** [compute_metrics_from_commit(repo_full_name, commit_sha, session,
    file_limit)]: the snapshot and the blobs fetched for it. *)
Definition compute_metrics_from_commit (w : remote) (repo_full_name commit_sha : string)
    (file_limit : Z) : outcome (metrics * list string) :=
  (let* tree_items := get_tree_for_ref w repo_full_name commit_sha in
   match tree_items with
   | [] => Returned (zero_metrics, [])
   | _ =>
       let candidates := candidate_blobs tree_items in
       match candidates with
       | [] => Returned (zero_metrics, [])
       | _ =>
           let* st := visit_blobs w repo_full_name (mkPass 0 [] 0 [])
                   (limit_blobs candidates file_limit) in
           Returned (summarize st, fetched st)
       end
   end)%py.

(** *** The orchestrator *)

(** One element of [removed_list]. *)
Record removed_entry : Type := mkRemoved {
  r_name : string;
  r_versions_before : list string;
  r_versions_after : list string;
  r_file : string;
}.

Record metrics_entry : Type := mkEntry {
  e_lines_of_code : Z;
  e_avg_complexity : Q;
}.

Definition zero_entry : metrics_entry := mkEntry 0 0.

Record candidate : Type := mkCandidate {
  cand_repo : string;
  cand_commit : string;
  cand_parent : string;
  cand_commit_message : string;
  cand_commit_date : string;
  cand_removed_dep : string;
  cand_versions_before : list string;
  cand_versions_after : list string;
  cand_file : string;
  cand_cve_count : Z;
  cand_cve_ids : list (option string);
  cand_metrics_before : metrics_entry;
  cand_metrics_after : metrics_entry;
  cand_pkg_snapshots : option (string * string);
}.

Definition is_manifest (fname : string) : bool :=
  endswith (lower fname) "package.json".

(** The entry built for one pair of [removed_map.items()]. *)
Definition removed_entry_of (fname : string) (added_map : versions)
    (item : string * string) : removed_entry :=
  let '(dep_name, ver_before) := item in
  mkRemoved dep_name
    (if truthy_str ver_before then [ver_before] else [])
    (match dict_get dep_name added_map with
     | Some v => [v]
     | None => []
     end)
    fname.

(** The body of the loop over the files of a commit. *)
Definition removed_of_file (f : file_change) : list removed_entry :=
  if negb (is_manifest (filename f)) then []
  else
    let patch := default EmptyString (patch f) in
    let '(removed_map, added_map) := parse_removed_added_from_patch patch in
    map (removed_entry_of (filename f) added_map) removed_map.

Definition removed_list_of (detail : commit_detail) : list removed_entry :=
  flat_map removed_of_file (files detail).

(** A metrics computation under its [try]/[except]: the entry read from
    the snapshot, or the zeroed default the variable was set to. *)
Definition entry_or_zero (o : outcome (metrics * list string)) : metrics_entry :=
  match o with
  | Returned (m, _) => mkEntry (lines_of_code m) (avg_complexity m)
  | Raised _ => zero_entry
  end.

(** The arguments of [analyze_repo] that the loops read. *)
Record options : Type := mkOptions {
  limit_commits : Z;
  include_pkg_snapshots : bool;
  max_candidates_per_repo : Z;
  days_back : Z;
  file_limit : Z;
}.

Definition cap_reached (o : options) (results : list candidate) : bool :=
  truthy_int (max_candidates_per_repo o)
  && (max_candidates_per_repo o <=? Z.of_nat (length results)).

Definition snapshots (w : remote) (o : options) (full_name sha parent_sha : string)
    (r : removed_entry) : option (string * string) :=
  if include_pkg_snapshots o then
    Some (default "{}"%string (fetch_package_json_at_ref w full_name parent_sha (r_file r)),
          default "{}"%string (fetch_package_json_at_ref w full_name sha (r_file r)))
  else None.

(** The loop over [removed_list] of one commit. *)
Fixpoint emit (w : remote) (o : options) (full_name sha parent_sha : string)
    (detail : commit_detail) (before_entry after_entry : metrics_entry)
    (rs : list removed_entry) (results : list candidate)
    (cache : gmap string cve_entry) : list candidate * gmap string cve_entry :=
  match rs with
  | [] => (results, cache)
  | r :: rs' =>
      let '(cve, cache', _) := get_cve_for_package (osv_post w) (r_name r) cache in
      let candidate :=
        mkCandidate full_name sha parent_sha (message detail) (date detail)
          (r_name r) (r_versions_before r) (r_versions_after r) (r_file r)
          (fst cve) (snd cve) before_entry after_entry
          (snapshots w o full_name sha parent_sha r) in
      let results' := results ++ [candidate] in
      if cap_reached o results' then (results', cache')
      else emit w o full_name sha parent_sha detail before_entry after_entry
             rs' results' cache'
  end.

(** The body of the loop over the commits, after the test of the cap. *)
Definition visit_commit (w : remote) (o : options) (full_name : string) (c : commit)
    (results : list candidate) (cache : gmap string cve_entry)
  : list candidate * gmap string cve_entry :=
  match c_parents c with
  | [] => (results, cache)
  | parent_sha :: _ =>
      match get_commit_detail w full_name (c_sha c) with
      | None => (results, cache)
      | Some detail =>
          match removed_list_of detail with
          | [] => (results, cache)
          | removed_list =>
              let before_entry :=
                entry_or_zero
                  (compute_metrics_from_commit w full_name parent_sha (file_limit o)) in
              let after_entry :=
                entry_or_zero
                  (compute_metrics_from_commit w full_name (c_sha c) (file_limit o)) in
              emit w o full_name (c_sha c) parent_sha detail before_entry after_entry
                removed_list results cache
          end
      end
  end.

Fixpoint visit_commits (w : remote) (o : options) (full_name : string)
    (commits : list commit) (results : list candidate)
    (cache : gmap string cve_entry) : list candidate * gmap string cve_entry :=
  match commits with
  | [] => (results, cache)
  | c :: commits' =>
      if cap_reached o results then (results, cache)
      else
        let '(results', cache') := visit_commit w o full_name c results cache in
        visit_commits w o full_name commits' results' cache'
  end.

(** The recency filter keeps a commit without a date, and one whose date
    could not be parsed or compared. *)
Definition keep_by_date (w : remote) (o : options) (c : commit) : bool :=
  match c_date c with
  | None => true
  | Some date_s =>
      if truthy_str date_s then
        match date_in_window w (days_back o) date_s with
        | Returned b => b
        | Raised _ => true
        end
      else true
  end.

Definition considered (w : remote) (o : options) (commits : list commit) : list commit :=
  let commits :=
    if truthy_int (days_back o)
    then filter (fun c => Is_true (keep_by_date w o c)) commits
    else commits in
  if truthy_int (limit_commits o) then slice_to commits (limit_commits o) else commits.

(** [analyze_repo(full_name, ...)]: the candidates and the cache file
    afterwards. *)
Definition analyze_repo (w : remote) (o : options) (full_name : string)
  : list candidate * cache_file :=
  match list_commits_touching_path w full_name with
  | [] => ([], osv_file w)
  | commits =>
      let '(results, cache) :=
        visit_commits w o full_name (considered w o commits) []
          (load_osv_cache (osv_file w)) in
      (results, save_osv_cache (osv_written w) (osv_left w) cache)
  end.

End FindDependencyReplacements.

(* ===================================================================== *)
(** ** Parsed JSON, as the sources read it                               *)
(* ===================================================================== *)

Module Json.

(** What [r.json()] and [json.loads] answer.  [JNull] is [None]; a number
    is an [int] or a [float] (the literals for infinities and
    not-a-number, which standard JSON does not have, are left out). *)
#[local] Unset Elimination Schemes.
Inductive value : Type :=
  | JNull
  | JBool (b : bool)
  | JInt (z : Z)
  | JFloat (q : Q)
  | JStr (s : string)
  | JList (items : list value)
  | JDict (fields : list (string * value)).
#[local] Set Elimination Schemes.

(** [bool(v)] *)
Definition truthy (v : value) : bool :=
  match v with
  | JNull => false
  | JBool b => b
  | JInt z => truthy_int z
  | JFloat q => negb (Qeq_bool q 0)
  | JStr s => truthy_str s
  | JList items => match items with [] => false | _ => true end
  | JDict fields => match fields with [] => false | _ => true end
  end.

(** [v or default] *)
Definition or_else (v default : value) : value :=
  if truthy v then v else default.

(** [v.get(key, default)]: only a [dict] has the method. *)
Definition get (v : value) (key : string) (default : value) : outcome value :=
  match v with
  | JDict fields => Returned (from_option id default (dict_get key fields))
  | _ => Raised (AttributeError "object has no attribute 'get'")
  end.

(** [v == text] for a [str] literal. *)
Definition is_str (v : value) (text : string) : bool :=
  match v with
  | JStr s => String.eqb s text
  | _ => false
  end.

(** [isinstance(v, list)] *)
Definition is_list (v : value) : bool :=
  match v with
  | JList _ => true
  | _ => false
  end.

(** [for item in v]: a [dict] gives its keys, a [str] its characters. *)
Definition iter (v : value) : outcome (list value) :=
  match v with
  | JList items => Returned items
  | JDict fields => Returned (map (fun kv => JStr kv.1) fields)
  | JStr s => Returned (map (fun c => JStr (String c EmptyString)) (chars s))
  | _ => Raised (TypeError "object is not iterable")
  end.

End Json.

(* ===================================================================== *)
(** ** app/scripts/github_api.py: the accessors                          *)
(* ===================================================================== *)

Module Accessors.

Import Json.

Definition GITHUB_API : string := FindDependencyReplacements.GITHUB_API.

(** The session under the accessors that make more than one request: the
    transport behind each URL.  [format_other] is the text an f-string
    puts for a value that is no [str]. *)
Record platform : Type := mkPlatform {
  session : string -> transport value;
  format_other : value -> string;
}.

(** [f"{v}"] *)
Definition fstring (p : platform) (v : value) : string :=
  match v with
  | JStr s => s
  | _ => format_other p v
  end.

Definition get_with_backoff (p : platform) (url : string) : outcome (response value) :=
  fst (request_with_backoff (session p url) url default_max_retries).

(** [list_commits_touching_path(repo_full_name, path, ...)], for the
    transport and the URL of its request. *)
Definition list_commits_touching_path (t : transport value) (url : string) : value :=
  match fst (request_with_backoff t url default_max_retries) with
  | Raised _ => JList []
  | Returned r =>
      if status_code r =? 404 then JList []
      else
        match json r with
        | Returned items => items
        | Raised _ => JList []
        end
  end.

(** [get_commit_detail(repo_full_name, sha)] *)
Definition get_commit_detail (t : transport value) (url : string) : value :=
  match fst (request_with_backoff t url default_max_retries) with
  | Raised _ => JNull
  | Returned r =>
      if negb (status_code r =? 200) then JNull
      else
        match json r with
        | Returned detail => detail
        | Raised _ => JNull
        end
  end.

(** [fetch_package_json_at_ref(repo_full_name, ref, path)].  [loads_b64 c]
    is [json.loads(base64.b64decode(c).decode("utf-8"))]. *)
Definition fetch_package_json_at_ref (loads_b64 : value -> outcome value)
    (t : transport value) (url : string) : outcome value :=
  match fst (request_with_backoff t url default_max_retries) with
  | Raised _ => Returned JNull
  | Returned r =>
      if status_code r =? 404 then Returned JNull
      else
        (let* data := json r in
         if is_list data then Returned JNull
         else
           let* encoding := get data "encoding" JNull in
           if is_str encoding "base64" then
             try_except
               (let* content := get data "content" (JStr EmptyString) in
                loads_b64 content)
               (fun _ => Returned JNull)
           else Returned JNull)%py
  end.

(** [get_file_at_commit_raw(repo_full_name, filepath, commit_sha)] *)
Definition get_file_at_commit_raw := fetch_package_json_at_ref.

Definition commit_url (repo_full_name ref : string) : string :=
  GITHUB_API +:+ "/repos/" +:+ repo_full_name +:+ "/commits/" +:+ ref.

Definition tree_url (repo_full_name tree_sha : string) : string :=
  GITHUB_API +:+ "/repos/" +:+ repo_full_name +:+ "/git/trees/" +:+ tree_sha.

Definition contents_url (repo_full_name : string) : string :=
  GITHUB_API +:+ "/repos/" +:+ repo_full_name +:+ "/contents".

(** The body of [if r.status_code == 200:] in [_get_tree_sha_for_ref]:
    [Returned None] when it falls through to [return ref]. *)
Definition read_tree_sha (r : response value) : outcome (option value) :=
  (let* data := json r in
   let* commit := get data "commit" (JDict []) in
   let* tree := get commit "tree" (JDict []) in
   let* sha := get (or_else tree (JDict [])) "sha" JNull in
   if truthy sha then Returned (Some sha) else Returned None)%py.

(** [_get_tree_sha_for_ref(repo_full_name, ref)] *)
Definition _get_tree_sha_for_ref (p : platform) (repo_full_name ref : string)
  : outcome value :=
  match get_with_backoff p (commit_url repo_full_name ref) with
  | Raised _ => Returned (JStr ref)
  | Returned r =>
      if status_code r =? 200 then
        (let* sha := read_tree_sha r in
         Returned (default (JStr ref) sha))%py
      else Returned (JStr ref)
  end.

(** [get_tree_for_ref(repo_full_name, ref)] *)
Definition get_tree_for_ref (p : platform) (repo_full_name ref : string)
  : outcome value :=
  (let* tree_sha := _get_tree_sha_for_ref p repo_full_name ref in
   let url := tree_url repo_full_name (fstring p tree_sha) in
   try_except
     (let* r := get_with_backoff p url in
      if status_code r =? 200 then
        let* data := json r in
        let* tree := get data "tree" (JList []) in
        Returned (or_else tree (JList []))
      else Returned (JList []))
     (fun _ => Returned (JList [])))%py.

(** [[item.get("path") for item in items if item.get("type") == kind]] *)
Fixpoint paths_of_kind (kind : string) (items : list value) : outcome (list value) :=
  match items with
  | [] => Returned []
  | item :: items' =>
      (let* type := get item "type" JNull in
       if is_str type kind then
         let* path := get item "path" JNull in
         let* paths := paths_of_kind kind items' in
         Returned (path :: paths)
       else paths_of_kind kind items')%py
  end.

(** [list_files_at_ref(repo_full_name, ref)] *)
Definition list_files_at_ref (p : platform) (repo_full_name ref : string)
  : outcome (list value) :=
  (let* tree_sha := _get_tree_sha_for_ref p repo_full_name ref in
   let url := tree_url repo_full_name (fstring p tree_sha) in
   try_except
     (let* r := get_with_backoff p url in
      if status_code r =? 200 then
        let* data := json r in
        let* tree := get data "tree" (JList []) in
        let* items := iter (or_else tree (JList [])) in
        paths_of_kind "blob" items
      else
        let* r2 := get_with_backoff p (contents_url repo_full_name) in
        if status_code r2 =? 200 then
          let* data := json r2 in
          match data with
          | JList items => paths_of_kind "file" items
          | _ => Returned []
          end
        else Returned [])
     (fun _ => Returned []))%py.

(** [[p for p in paths if p.lower().endswith("package.json")]]: only a
    [str] has the method [lower]. *)
Fixpoint manifest_paths (paths : list value) : outcome (list string) :=
  match paths with
  | [] => Returned []
  | JStr p :: paths' =>
      if endswith (lower p) "package.json" then
        (let* pkg_paths := manifest_paths paths' in
         Returned (p :: pkg_paths))%py
      else manifest_paths paths'
  | _ :: _ => Raised (AttributeError "object has no attribute 'lower'")
  end.

(** The sort key [(0 if p == "package.json" else 1, p)] and the order of
    two keys: tuples compare by their first components, then by their
    second; two [str] compare by code points. *)
Definition sort_key (p : string) : Z * string :=
  (if String.eqb p "package.json" then 0 else 1, p).

Definition key_le (a b : Z * string) : bool :=
  (a.1 <? b.1) || ((a.1 =? b.1) && String.leb a.2 b.2).

Definition path_le (p q : string) : Prop :=
  key_le (sort_key p) (sort_key q) = true.

Global Instance path_le_dec (p q : string) : Decision (path_le p q).
Proof. unfold path_le. apply _. Defined.

(** [find_package_json_paths(repo_full_name, ref)].  The keys of two paths
    are equal only when the paths are, so the sorted list is the same
    whatever the sorting algorithm. *)
Definition find_package_json_paths (p : platform) (repo_full_name ref : string)
  : outcome (list string) :=
  (let* paths := list_files_at_ref p repo_full_name ref in
   let* pkg_paths := manifest_paths paths in
   Returned (merge_sort path_le pkg_paths))%py.

End Accessors.

(* ===================================================================== *)
(** ** app/scripts/github_api.py: the search                             *)
(* ===================================================================== *)

Module Search.

Import Json.

(** [v[key]] for a [str] key: a [dict] without the key raises a
    [KeyError], which is carried here as an [OtherException]. *)
Definition subscript (v : value) (key : string) : outcome value :=
  match v with
  | JDict fields =>
      match dict_get key fields with
      | Some x => Returned x
      | None => Raised (OtherException "KeyError")
      end
  | _ => Raised (TypeError "object is not subscriptable by a str")
  end.

(** [len(v)] *)
Definition len (v : value) : outcome Z :=
  match v with
  | JList items => Returned (Z.of_nat (length items))
  | JDict fields => Returned (Z.of_nat (length fields))
  | JStr s => Returned (Z.of_nat (length (chars s)))
  | _ => Raised (TypeError "object has no len()")
  end.

(** [resp.ok], which is what the truth value of a response is. *)
Definition ok {B} (resp : response B) : bool :=
  match raise_for_status resp with
  | Returned _ => true
  | Raised _ => false
  end.

(** One element of the result of [get_top_js_repos]. *)
Record repo_entry : Type := mkRepoEntry {
  repo : value;
  name : value;
  url : value;
  stars : value;
  forks : value;
  size_kb : value;
  updated_at : value;
}.

Definition repo_entry_of (item : value) : outcome repo_entry :=
  (let* repo := subscript item "full_name" in
   let* name := subscript item "full_name" in
   let* url := subscript item "html_url" in
   let* stars := subscript item "stargazers_count" in
   let* forks := subscript item "forks_count" in
   let* size_kb := subscript item "size" in
   let* updated_at := subscript item "updated_at" in
   Returned (mkRepoEntry repo name url stars forks size_kb updated_at))%py.

(** The loop [for repo in data: results.append({...})] *)
Fixpoint append_entries (items : list value) (results : list repo_entry)
  : outcome (list repo_entry) :=
  match items with
  | [] => Returned results
  | item :: items' =>
      (let* entry := repo_entry_of item in
       append_entries items' (results ++ [entry]))%py
  end.

Definition per_page : Z := 100.

Definition search_url : string :=
  FindDependencyReplacements.GITHUB_API +:+ "/search/repositories".

(** The request of one page and the reading of its items. *)
Definition page_items (t : transport value) : outcome value :=
  (let* resp := fst (request_with_backoff t search_url default_max_retries) in
   if ok resp && (status_code resp =? 200) then
     let* body := json resp in
     get body "items" (JList [])
   else Returned (JList []))%py.

(** How the body of the [while] loop leaves one iteration. *)
Inductive turn : Type :=
  | Break (results : list repo_entry)
  | Again (results : list repo_entry) (remaining page : Z).

(** The body of the loop.  [search take page] is the transport behind the
    request with the parameters [per_page=take] and [page=page]. *)
Definition page_turn (search : Z -> Z -> transport value)
    (results : list repo_entry) (remaining page : Z) : outcome turn :=
  (let take := Z.min per_page remaining in
   let* data := page_items (search take page) in
   if negb (truthy data) then Returned (Break results)
   else
     let* items := iter data in
     let* results := append_entries items results in
     let* n := len data in
     let remaining := remaining - n in
     let page := page + 1 in
     if n <? take then Returned (Break results)
     else Returned (Again results remaining page))%py.

(** The [while remaining > 0] loop, with the pairs (per_page, page) it
    asked for.  [None] stands for a loop that is still running when
    [fuel] iterations are over. *)
Fixpoint pages (fuel : nat) (search : Z -> Z -> transport value)
    (results : list repo_entry) (remaining page : Z) (asked : list (Z * Z))
  : option (outcome (list repo_entry) * list (Z * Z)) :=
  if remaining <=? 0 then Some (Returned results, asked)
  else
    match fuel with
    | O => None
    | S fuel' =>
        let asked' := asked ++ [(Z.min per_page remaining, page)] in
        match page_turn search results remaining page with
        | Raised e => Some (Raised e, asked')
        | Returned (Break results') => Some (Returned results', asked')
        | Returned (Again results' remaining' page') =>
            pages fuel' search results' remaining' page' asked'
        end
    end.

(** [get_top_js_repos(limit)]: every iteration that goes on takes at least
    one from [remaining], so [limit] iterations are enough. *)
Definition get_top_js_repos (search : Z -> Z -> transport value) (limit : Z)
  : option (outcome (list repo_entry) * list (Z * Z)) :=
  pages (Z.to_nat limit) search [] limit 1 [].

End Search.

(* ===================================================================== *)
(** ** app/scripts/github_api.py: the batched manifest query             *)
(* ===================================================================== *)

Module Graphql.

Import Json.

Definition GITHUB_GRAPHQL : string := "https://api.github.com/graphql".

(** [range(start, stop, step)] *)
Definition range (start stop step : Z) : outcome (list Z) :=
  if step =? 0 then Raised (ValueError "range() arg 3 must not be zero")
  else
    let count :=
      if 0 <? step then (stop - start + step - 1) / step
      else (start - stop - step - 1) / (- step) in
    Returned (map (fun i => start + Z.of_nat i * step) (seq 0 (Z.to_nat count))).

(** [l[i:j]] for bounds that are not negative. *)
Definition slice {A} (l : list A) (i j : Z) : list A :=
  take (Z.to_nat (j - i)) (drop (Z.to_nat i) l).

(** [owner, name = full.split("/", 1)]: without a slash there is one part
    only, and the unpacking raises. *)
Fixpoint split_slash_chars (l : list ascii) : option (list ascii * list ascii) :=
  match l with
  | [] => None
  | c :: l' =>
      if (code c =? 47)%N then Some ([], l')
      else
        match split_slash_chars l' with
        | Some (owner, name) => Some (c :: owner, name)
        | None => None
        end
  end.

Definition split_slash (full : string) : outcome (string * string) :=
  match split_slash_chars (chars full) with
  | Some (owner, name) => Returned (str owner, str name)
  | None => Raised (ValueError "not enough values to unpack (expected 2, got 1)")
  end.

Definition dq : string := String (ascii_of_N 34) EmptyString.

(** [f"r{idx}"] *)
Definition alias_of (idx : nat) : string :=
  "r" +:+ NilEmpty.string_of_uint (Nat.to_uint idx).

Definition qpart_of (alias owner name : string) : string :=
  alias +:+ ": repository(owner: " +:+ dq +:+ owner +:+ dq +:+ ", name: "
        +:+ dq +:+ name +:+ dq +:+ ") { object(expression: " +:+ dq
        +:+ "HEAD:package.json" +:+ dq +:+ ") { ... on Blob { text } } }".

(** The map [out]: repository name to parsed manifest, [JNull] for [None]. *)
Definition manifests : Type := list (string * value).

(** The loop over [enumerate(block)]. *)
Fixpoint number_block (idx : nat) (block : list string) (parts : list string)
    (alias_map : list (string * string)) (out : manifests)
  : list string * list (string * string) * manifests :=
  match block with
  | [] => (parts, alias_map, out)
  | full :: block' =>
      match split_slash full with
      | Raised _ =>
          number_block (S idx) block' parts alias_map (dict_set full JNull out)
      | Returned (owner, name) =>
          let alias := alias_of idx in
          number_block (S idx) block' (parts ++ [qpart_of alias owner name])
            (dict_set alias full alias_map) out
      end
  end.

(** [json.loads(v)], with [parse] for the parser of a text. *)
Definition loads (parse : string -> outcome value) (v : value) : outcome value :=
  match v with
  | JStr s => parse s
  | _ => Raised (TypeError "the JSON object must be str, bytes or bytearray")
  end.

Definition is_none (v : value) : bool :=
  match v with
  | JNull => true
  | _ => false
  end.

(** The loop over [alias_map.items()]: the map as the loop left it, and
    the exception that ended it, if any. *)
Fixpoint read_answers (parse : string -> outcome value) (data : value)
    (items : list (string * string)) (out : manifests) : manifests * outcome unit :=
  match items with
  | [] => (out, Returned tt)
  | (alias, full) :: items' =>
      match (if truthy data then get data alias JNull else Returned JNull) with
      | Raised e => (out, Raised e)
      | Returned repo_obj =>
          if negb (truthy repo_obj) then
            read_answers parse data items' (dict_set full JNull out)
          else
            match get repo_obj "object" JNull with
            | Raised e => (out, Raised e)
            | Returned obj =>
                match (if truthy obj
                       then (let* text := get obj "text" JNull in
                             Returned (negb (is_none text)))%py
                       else Returned false) with
                | Raised e => (out, Raised e)
                | Returned true =>
                    let parsed :=
                      try_except
                        (let* text := get obj "text" JNull in loads parse text)%py
                        (fun _ => Returned JNull) in
                    match parsed with
                    | Returned v => read_answers parse data items' (dict_set full v out)
                    | Raised e => (out, Raised e)
                    end
                | Returned false =>
                    read_answers parse data items' (dict_set full JNull out)
                end
            end
      end
  end.

(** [for full in block: out[full] = None] *)
Definition blank_block (block : list string) (out : manifests) : manifests :=
  fold_left (fun out full => dict_set full JNull out) block out.

Definition query_of (parts : list string) : string :=
  "query { " +:+ String.concat " " parts +:+ " }".

(** The request of one block and the reading of its [data].
    [graphql query] is the transport behind the request that posts
    [query]. *)
Definition block_data (graphql : string -> transport value) (query : string)
  : outcome value :=
  (let* resp := fst (request_with_backoff (graphql query) GITHUB_GRAPHQL
                       default_max_retries) in
   if Search.ok resp && (status_code resp =? 200) then
     let* body := json resp in
     get body "data" JNull
   else Returned (JDict []))%py.

(** The body of the loop over the blocks: the map afterwards and the query
    posted. *)
Definition fetch_block (graphql : string -> transport value)
    (parse : string -> outcome value) (block : list string) (out : manifests)
  : manifests * string :=
  let '(parts, alias_map, out) := number_block 0 block [] [] out in
  let query := query_of parts in
  match block_data graphql query with
  | Raised _ => (blank_block block out, query)
  | Returned data =>
      match read_answers parse data alias_map out with
      | (out, Returned _) => (out, query)
      | (out, Raised _) => (blank_block block out, query)
      end
  end.

(** [graphql_fetch_package_json_batch(repo_full_names, batch_size)]: the
    map and the queries posted, in order. *)
Definition graphql_fetch_package_json_batch (graphql : string -> transport value)
    (parse : string -> outcome value) (repo_full_names : list string)
    (batch_size : Z) : outcome (manifests * list string) :=
  (let* starts := range 0 (Z.of_nat (length repo_full_names)) batch_size in
   Returned
     (fold_left
        (fun '(out, queries) i =>
           let '(out, query) :=
             fetch_block graphql parse (slice repo_full_names i (i + batch_size)) out in
           (out, queries ++ [query]))
        starts ([], [])))%py.

End Graphql.

(* ===================================================================== *)
(** ** app/scripts/metrics.py: the audit of a repository                 *)
(* ===================================================================== *)

Module RepoMetrics.

Import Json Metrics.

(** The result of [compute_metrics_for_repo]. *)
Record repo_metrics : Type := mkRepoMetrics {
  repo : string;
  dependencies : Z;
  dev_dependencies : Z;
  vulnerable_deps : Z;
  cves : list (option string);
  path_used : string;
}.

(** [v.items()]: only a [dict] has the method. *)
Definition items (v : value) : outcome (list (string * value)) :=
  match v with
  | JDict fields => Returned fields
  | _ => Raised (AttributeError "object has no attribute 'items'")
  end.

(** [if k not in agg: agg[k] = v] *)
Definition add_missing (agg : list (string * value)) (kv : string * value)
  : list (string * value) :=
  match dict_get kv.1 agg with
  | Some _ => agg
  | None => dict_set kv.1 kv.2 agg
  end.

(** The loop over the manifests. *)
Fixpoint aggregate (pkg_jsons : list (string * value))
    (deps_agg dev_deps_agg : list (string * value))
  : outcome (list (string * value) * list (string * value)) :=
  match pkg_jsons with
  | [] => Returned (deps_agg, dev_deps_agg)
  | (_, pkg) :: pkg_jsons' =>
      (let* deps := get pkg "dependencies" (JDict []) in
       let deps := or_else deps (JDict []) in
       let* dev := get pkg "devDependencies" (JDict []) in
       let dev := or_else dev (JDict []) in
       let* deps_items := items deps in
       let deps_agg := fold_left add_missing deps_items deps_agg in
       let* dev_items := items dev in
       let dev_deps_agg := fold_left add_missing dev_items dev_deps_agg in
       aggregate pkg_jsons' deps_agg dev_deps_agg)%py
  end.

(** The state of the loop over [deps_agg.keys()]. *)
Record audit_state : Type := mkAudit {
  cache : gmap string cve_entry;
  total_vulns : Z;
  cve_list : list (option string);
  posted : list string;
}.

Definition audit_step (post : string -> outcome osv_response) (st : audit_state)
    (dep : string) : audit_state :=
  let '(count, ids, cache, names) := get_cve_for_package post dep (cache st) in
  mkAudit cache (total_vulns st + count)
    (match ids with [] => cve_list st | _ => cve_list st ++ ids end)
    (posted st ++ names).

Definition str_le (a b : string) : Prop := String.leb a b = true.

Global Instance str_le_dec (a b : string) : Decision (str_le a b).
Proof. unfold str_le. apply _. Defined.

(** [sorted(list(set(cve_list)))]: a [str] and [None] cannot be compared;
    a set of one element is sorted without a comparison. *)
Definition sorted_ids (cve_list : list (option string)) : outcome (list (option string)) :=
  let distinct := remove_dups cve_list in
  let texts := omap id distinct in
  if (length texts =? length distinct)%nat then
    Returned (map Some (merge_sort str_le texts))
  else
    match texts with
    | [] => Returned [None]
    | _ => Raised (TypeError "'<' not supported between instances of 'NoneType' and 'str'")
    end.

(** [compute_metrics_for_repo(pkg_jsons, repo_name, session, osv_cache)]:
    what it returns or raises, the cache it worked on as it is afterwards
    (the one passed as [osv_cache], or the one loaded from the file), and
    the names posted to the vulnerability service. *)
Definition compute_metrics_for_repo (post : string -> outcome osv_response)
    (file : cache_file) (pkg_jsons : list (string * value)) (repo_name : string)
    (osv_cache : option (gmap string cve_entry))
  : outcome repo_metrics * option (gmap string cve_entry) * list string :=
  match pkg_jsons with
  | [] => (Returned (mkRepoMetrics repo_name 0 0 0 [] EmptyString), osv_cache, [])
  | _ =>
      match aggregate pkg_jsons [] [] with
      | Raised e => (Raised e, osv_cache, [])
      | Returned (deps_agg, dev_deps_agg) =>
          let paths := map fst pkg_jsons in
          let cache :=
            match osv_cache with
            | Some cache => cache
            | None => load_osv_cache file
            end in
          let st := fold_left (audit_step post) (dict_keys deps_agg)
                      (mkAudit cache 0 [] []) in
          ((let* cves := sorted_ids (cve_list st) in
            Returned (mkRepoMetrics repo_name
                        (Z.of_nat (length deps_agg)) (Z.of_nat (length dev_deps_agg))
                        (total_vulns st) cves (String.concat "," paths)))%py,
           Some (RepoMetrics.cache st), posted st)
      end
  end.

End RepoMetrics.

(* ===================================================================== *)
(** ** app/scripts/compute_js_metrics.py: the file listing               *)
(* ===================================================================== *)

Module CheckoutListing.

(** The suffixes [list_js_files_at_commit] keeps. *)
Definition JS_EXTS : list string := [".js"; ".jsx"; ".ts"; ".tsx"].

(** The test of the comprehension, on a line of the listing. *)
Definition is_js_line (l : list ascii) : bool :=
  truthy_str (str (strip l)) && existsb (endswith (lower (str (strip l)))) JS_EXTS.

(** [list_js_files_at_commit(repo_dir, commit)], for the output [out] of
    the listing command ([run] answers the empty text when the command
    fails). *)
Definition list_js_files_at_commit (out : string) : list string :=
  if negb (truthy_str out) then []
  else map (fun l => str (strip l))
           (filter (fun l => Is_true (is_js_line l)) (splitlines out)).

End CheckoutListing.

(* ===================================================================== *)
(** ** Sample inputs                                                      *)
(* ===================================================================== *)

Module Samples.

Import Metrics ComputeJsMetrics FindDependencyReplacements.

(** A platform that sleeps for up to nine thousand million seconds. *)
Definition usual_longest : Z := 9000000000.

(** A transport that answers every attempt alike, at time 0, with the
    jitter drawn as 1. *)
Definition always {B} (o : outcome (response B)) : transport B :=
  mkTransport (fun _ => o) (fun _ => 0) (fun _ => 1%Q) (fun _ => usual_longest).

Definition answer (status : Z) (hs : list (string * string)) (body : string)
  : response unit :=
  mkResponse status hs body (Returned tt).

Definition not_found : response unit := answer 404 [] "Not Found".

(** A throttled answer that names a delay of five seconds and also carries
    the rate-limit pair. *)
Definition throttled : response unit :=
  answer 429
    [("X-RateLimit-Remaining", "0"); ("X-RateLimit-Reset", "1000");
     ("Retry-After", "5")]%string
    "slow down".

(** The same with a negative delay. *)
Definition throttled_negative : response unit :=
  answer 429 [("Retry-After", "-5")]%string "slow down".

(** The same with a delay of some 292 years, more than the platform
    sleeps. *)
Definition throttled_for_ages : response unit :=
  answer 429 [("Retry-After", "9223372036")]%string "slow down".

(** A transport that fails on the network at odd attempts and is
    throttled at even ones. *)
Definition flaky : transport unit :=
  mkTransport
    (fun n => if Nat.even n then Returned throttled
              else Raised (ConnectionError "reset by peer"))
    (fun _ => 0) (fun _ => 1%Q) (fun _ => usual_longest).

(** A vulnerability service that cannot be reached, and one that answers
    with a server error. *)
Definition service_down (_ : string) : outcome Metrics.osv_response :=
  Raised (ConnectionError "unreachable").

Definition service_error (_ : string) : outcome Metrics.osv_response :=
  Returned (Metrics.mkOsv 500 (Returned [])).

Definition quote_char : string := String (ascii_of_N 34) EmptyString.
Definition line_feed : string := String (ascii_of_N 10) EmptyString.

(** A line of a manifest as a diff shows it. *)
Definition manifest_line (sign dep version : string) : string :=
  sign +:+ "  " +:+ quote_char +:+ dep +:+ quote_char +:+ ": "
       +:+ quote_char +:+ version +:+ quote_char +:+ "," +:+ line_feed.

(** The scenario of the specification: lodash removed, no line adds it
    back; an unrelated dependency is added. *)
Definition lodash_patch : string :=
  "@@ -10,3 +10,3 @@" +:+ line_feed
  +:+ manifest_line "-" "lodash" "4.17.10"
  +:+ manifest_line "+" "left-pad" "1.3.0".

Definition lodash_change : FindDependencyReplacements.file_change :=
  FindDependencyReplacements.mkFileChange "package.json" (Some lodash_patch).

(** A tree with three qualifying blobs among seven entries, a platform
    on which the blob of [src/b.ts] cannot be fetched, no structural
    analyzer, and a history of two commits: the first one, and one that
    removes lodash.  The tree of the first commit cannot be resolved. *)
Definition blob (p id : string) (bytes : Z) : FindDependencyReplacements.tree_item :=
  FindDependencyReplacements.mkTreeItem "blob" p id (Some bytes).

Definition sample_tree : list FindDependencyReplacements.tree_item :=
  [ blob "src/a.js" "sha-a" 120;
    FindDependencyReplacements.mkTreeItem "tree" "src" "sha-src" None;
    blob "src/b.ts" "sha-b" 300;
    blob "node_modules/x/index.js" "sha-x" 50;
    blob "README.md" "sha-r" 10;
    blob "src/big.js" "sha-big" 2097152;
    blob "lib/C.JSX" "sha-c" 15 ].

Definition blob_answer : response blob_json :=
  mkResponse 200 [] EmptyString (Returned (mkBlobJson (Some "aWYgKHgpIHsgeSgpOyB9"%string)
                                            (Some "base64"%string))).

Definition remote_with (changed : list FindDependencyReplacements.file_change)
  : FindDependencyReplacements.remote :=
  FindDependencyReplacements.mkRemote
    (fun _ ref => if String.eqb ref "c1" then Raised (ValueError "Expecting value")
                  else Returned sample_tree)
    (fun url => if endswith url "sha-b"
                then always (Raised (ConnectionError "reset by peer"))
                else always (Returned blob_answer))
    (fun c => if String.eqb c "aWYgKHgpIHsgeSgpOyB9"
              then Returned "if (x) { y(); }"%string
              else Raised (ValueError "Incorrect padding"))
    None
    (fun _ => [FindDependencyReplacements.mkCommit "c2" ["c1"%string] None;
               FindDependencyReplacements.mkCommit "c1" [] None])
    (fun _ id => if String.eqb id "c2"
                 then Some (FindDependencyReplacements.mkDetail changed
                              "drop lodash" "2024-01-01T00:00:00Z")
                 else None)
    (fun _ _ => Raised (TypeError "offset-naive and offset-aware"))
    (fun _ _ _ => None)
    service_down
    None true None.

Definition sample_remote : FindDependencyReplacements.remote :=
  remote_with [lodash_change].

(** The same history, but the commit adds a dependency to the root
    manifest and removes lodash from a manifest spelled in capitals. *)
Definition addition_patch : string :=
  "@@ -10,2 +10,3 @@" +:+ line_feed +:+ manifest_line "+" "left-pad" "1.3.0".

Definition capitals_remote : FindDependencyReplacements.remote :=
  remote_with
    [FindDependencyReplacements.mkFileChange "package.json" (Some addition_patch);
     FindDependencyReplacements.mkFileChange "tools/PACKAGE.JSON" (Some lodash_patch)].

(** The record mined from [sample_remote]. *)
Definition lodash_candidate : FindDependencyReplacements.candidate :=
  FindDependencyReplacements.mkCandidate "o/r" "c2" "c1" "drop lodash"
    "2024-01-01T00:00:00Z" "lodash" ["4.17.10"%string] [] "package.json" 0 []
    (FindDependencyReplacements.mkEntry 0 0) (FindDependencyReplacements.mkEntry 2 0)
    None.

(** A source of n arrow functions and one [if]. *)
Fixpoint arrows (n : nat) : string :=
  match n with
  | O => "if (x) { y(); }"
  | S n' => "a => a; " +:+ arrows n'
  end.

(** A tree of six qualifying blobs of which one can be fetched.  The blob
    of [src/empty.js] is answered with the status 204 and no body, that
    of [src/plain.js] with an encoding other than base64, that of
    [src/bare.js] without any encoding, that of [src/odd.js] with content
    that is no base64 text; the blob of [src/cut.js] cannot be reached. *)
Definition patchy_tree : list FindDependencyReplacements.tree_item :=
  [ blob "src/ok.js" "sha-ok" 15;
    blob "src/empty.js" "sha-empty" 40;
    blob "src/plain.js" "sha-plain" 40;
    blob "src/cut.js" "sha-cut" 40;
    blob "src/odd.js" "sha-odd" 40;
    blob "src/bare.js" "sha-bare" 40 ].

Definition blob_body (c : string) (enc : option string) : response blob_json :=
  mkResponse 200 [] EmptyString (Returned (mkBlobJson (Some c) enc)).

Definition patchy_blobs (url : string) : transport blob_json :=
  if endswith url "sha-ok" then always (Returned blob_answer)
  else if endswith url "sha-empty"
  then always (Returned (mkResponse 204 [] EmptyString
                           (Raised (ValueError "Expecting value"))))
  else if endswith url "sha-plain"
  then always (Returned (blob_body "if (x) { y(); }" (Some "utf-8"%string)))
  else if endswith url "sha-odd"
  then always (Returned (blob_body "a" (Some "base64"%string)))
  else if endswith url "sha-bare"
  then always (Returned (blob_body "aWYgKHgpIHsgeSgpOyB9" None))
  else always (Raised (ConnectionError "reset by peer")).

Definition patchy_remote : FindDependencyReplacements.remote :=
  FindDependencyReplacements.mkRemote
    (fun _ _ => Returned patchy_tree)
    patchy_blobs
    (FindDependencyReplacements.b64decode sample_remote)
    None
    (fun _ => [])
    (fun _ _ => None)
    (fun _ _ => Raised (TypeError "offset-naive and offset-aware"))
    (fun _ _ _ => None)
    service_down
    None true None.

Definition sample_options (limit : Z) : FindDependencyReplacements.options :=
  FindDependencyReplacements.mkOptions 50 false 1 365 limit.

End Samples.

(* ===================================================================== *)
(** ** The properties, stated                                             *)
(* ===================================================================== *)

Module Statements.

Import Metrics ComputeJsMetrics FindDependencyReplacements.

(** The lookups of a run, one after the other: the cache they leave. *)
Definition lookups (post : string -> outcome osv_response) (names : list string)
    (cache : gmap string cve_entry) : gmap string cve_entry :=
  fold_left (fun c n => (get_cve_for_package post n c).1.2) names cache.

(** A lookup that fails: the post raises, or the status is not 200, or the
    body of a 200 answer cannot be read. *)
Definition lookup_fails (o : outcome osv_response) : Prop :=
  match o with
  | Raised _ => True
  | Returned r => osv_status r <> 200 \/ exists e, osv_ids r = Raised e
  end.

(** What one file adds to each accumulator of [analyze_contents]: its
    lines, the functions it is counted for (a file with key words but no
    function counts as one), and its key words plus functions. *)
Definition file_loc (file : source_file) : Z :=
  if truthy_str (source file) then Z.of_nat (length (splitlines (source file))) else 0.

Definition file_functions (file : source_file) : Z :=
  if truthy_str (source file) then
    let functions_count := count_matches FUNCTION_RE (source file) in
    let keywords_count := count_matches KEYWORDS_RE (source file) in
    if (functions_count =? 0) && (0 <? keywords_count) then 1 else functions_count
  else 0.

Definition file_contribution (file : source_file) : Z :=
  if truthy_str (source file) then
    count_matches FUNCTION_RE (source file) + count_matches KEYWORDS_RE (source file)
  else 0.

(** The version of the last match of the given sign and name, if any:
    what last-match-wins means on the list of matches. *)
Fixpoint last_version (sign : N) (n : string) (ms : list pkg_match) : option string :=
  match ms with
  | [] => None
  | m :: ms' =>
      match last_version sign n ms' with
      | Some v => Some v
      | None =>
          if (code (op m) =? sign)%N && String.eqb n (name m) then Some (ver m)
          else None
      end
  end.

(** A line of the patch of a manifest in the recognized shape: its first
    character (the sign of the diff, or a blank for context), blanks, the
    quoted name, a colon, blanks, the quoted version and the rest of the
    line. *)
Record row : Type := mkRow {
  row_sign : ascii;
  row_indent : list ascii;
  row_name : list ascii;
  row_gap : list ascii;
  row_ver : list ascii;
  row_tail : list ascii;
}.

Definition line_feed_char : ascii := ascii_of_N 10.
Definition quote_mark : ascii := ascii_of_N 34.
Definition colon_char : ascii := ascii_of_N 58.

Definition inline (c : ascii) : bool := negb (code c =? 10)%N.
Definition blank (c : ascii) : bool := isspace c && inline c.
Definition plain (c : ascii) : bool := negb (is_quote c) && inline c.

Definition nonempty {A} (l : list A) : bool :=
  match l with [] => false | _ => true end.

Definition row_ok (r : row) : bool :=
  inline (row_sign r)
  && forallb blank (row_indent r)
  && nonempty (row_name r) && forallb plain (row_name r)
  && forallb blank (row_gap r)
  && nonempty (row_ver r) && forallb plain (row_ver r)
  && forallb inline (row_tail r).

Definition signed (r : row) : bool :=
  (code (row_sign r) =? minus_sign)%N || (code (row_sign r) =? plus_sign)%N.

(** The characters of a row, line feed included, put before [rest]. *)
Definition render_onto (r : row) (rest : list ascii) : list ascii :=
  row_sign r :: row_indent r
    ++ quote_mark :: row_name r
    ++ quote_mark :: colon_char :: row_gap r
    ++ quote_mark :: row_ver r
    ++ quote_mark :: row_tail r
    ++ line_feed_char :: rest.

Definition text_of (rows : list row) : string :=
  str (fold_right render_onto [] rows).

(** What a match on a signed row spans: everything up to the quote that
    closes the version. *)
Definition matched_body (r : row) : list ascii :=
  row_indent r
    ++ quote_mark :: row_name r
    ++ quote_mark :: colon_char :: row_gap r
    ++ quote_mark :: row_ver r.

Definition matched_part (r : row) : list ascii :=
  row_sign r :: matched_body r ++ [quote_mark].

Definition match_of (r : row) : pkg_match :=
  mkPkgMatch (row_sign r) (str (row_name r)) (str (row_ver r)).

(** The content [get_blob_content] answers for a tree item, [None] when
    the fetch failed. *)
Definition fetch (w : remote) (repo_full_name : string) (item : tree_item)
  : option string :=
  match get_blob_content (b64decode w)
          (blob_transport w (blob_url repo_full_name (sha item)))
          (blob_url repo_full_name (sha item)) with
  | Returned content => content
  | Raised _ => None
  end.

(** The items whose fetch succeeded, each with its content. *)
Definition fetched_texts (w : remote) (repo_full_name : string)
    (items : list tree_item) : list (tree_item * string) :=
  omap (fun item => pair item <$> fetch w repo_full_name item) items.

(** What the request layer answers for the blob of a tree item. *)
Definition blob_request (w : remote) (repo_full_name : string) (item : tree_item)
  : outcome (response blob_json) :=
  (request_with_backoff (blob_transport w (blob_url repo_full_name (sha item)))
     (blob_url repo_full_name (sha item)) default_max_retries).1.

(** A failed fetch in the words of the specification: the request layer
    raises (a transport error, or a status it gives up on), or the answer
    has a status other than 200, or its body cannot be read, or the body
    has no content, or an encoding that is missing or not base64, or
    content that does not decode. *)
Inductive fetch_fails (w : remote) (repo_full_name : string) (item : tree_item)
  : Prop :=
  | request_raised (e : exn) :
      blob_request w repo_full_name item = Raised e ->
      fetch_fails w repo_full_name item
  | status_not_200 (r : response blob_json) :
      blob_request w repo_full_name item = Returned r ->
      status_code r <> 200 ->
      fetch_fails w repo_full_name item
  | body_unreadable (r : response blob_json) (e : exn) :
      blob_request w repo_full_name item = Returned r ->
      json r = Raised e ->
      fetch_fails w repo_full_name item
  | content_missing (r : response blob_json) (data : blob_json) :
      blob_request w repo_full_name item = Returned r ->
      json r = Returned data ->
      content data = None \/ content data = Some EmptyString ->
      fetch_fails w repo_full_name item
  | encoding_not_base64 (r : response blob_json) (data : blob_json) :
      blob_request w repo_full_name item = Returned r ->
      json r = Returned data ->
      encoding data <> Some "base64"%string ->
      fetch_fails w repo_full_name item
  | content_undecodable (r : response blob_json) (data : blob_json)
      (c : string) (e : exn) :
      blob_request w repo_full_name item = Returned r ->
      json r = Returned data ->
      content data = Some c ->
      b64decode w c = Raised e ->
      fetch_fails w repo_full_name item.

(** A successful fetch in the same words: an answer of status 200 whose
    body carries non-empty base64 content, which decodes to the text. *)
Definition fetch_gives (w : remote) (repo_full_name : string) (item : tree_item)
    (source : string) : Prop :=
  exists (r : response blob_json) (data : blob_json) (c : string),
    blob_request w repo_full_name item = Returned r
    /\ status_code r = 200
    /\ json r = Returned data
    /\ content data = Some c
    /\ c <> EmptyString
    /\ encoding data = Some "base64"%string
    /\ b64decode w c = Returned source.

(** The texts of a pass over the retained blobs: the blobs are taken in
    order, one whose fetch fails leaves nothing, one whose fetch succeeds
    leaves its text. *)
Inductive read_texts (w : remote) (repo_full_name : string)
  : list tree_item -> list (tree_item * string) -> Prop :=
  | read_nothing : read_texts w repo_full_name [] []
  | read_skips (item : tree_item) (items : list tree_item)
      (texts : list (tree_item * string)) :
      fetch_fails w repo_full_name item ->
      read_texts w repo_full_name items texts ->
      read_texts w repo_full_name (item :: items) texts
  | read_keeps (item : tree_item) (source : string) (items : list tree_item)
      (texts : list (tree_item * string)) :
      fetch_gives w repo_full_name item source ->
      read_texts w repo_full_name items texts ->
      read_texts w repo_full_name (item :: items) ((item, source) :: texts).

Definition loc_of (w : remote) (it : tree_item * string) : Z :=
  (analyze_source_complexity (lizard w) it.2 (path it.1)).1.

Definition complexities_of (w : remote) (it : tree_item * string) : list Q :=
  (analyze_source_complexity (lizard w) it.2 (path it.1)).2.

(** Where a candidate comes from: a listed commit with a parent, whose
    detail names a manifest file (the test lowers the name first) with the
    candidate's dependency in the removed-map of its patch. *)
Definition origin (w : remote) (full_name : string) (c : commit)
    (cand : candidate) : Prop :=
  cand_repo cand = full_name
  /\ cand_commit cand = c_sha c
  /\ (exists rest, c_parents c = cand_parent cand :: rest)
  /\ exists detail f,
       get_commit_detail w full_name (c_sha c) = Some detail
       /\ f ∈ files detail
       /\ is_manifest (filename f) = true
       /\ cand_file cand = filename f
       /\ (parse_removed_added_from_patch (default EmptyString (patch f))).1 <> []
       /\ is_Some (dict_get (cand_removed_dep cand)
                     (parse_removed_added_from_patch
                        (default EmptyString (patch f))).1).

(** The same with the name compared as it is spelled. *)
Definition origin_as_spelled (w : remote) (full_name : string) (c : commit)
    (cand : candidate) : Prop :=
  cand_commit cand = c_sha c
  /\ c_parents c <> []
  /\ exists detail f,
       get_commit_detail w full_name (c_sha c) = Some detail
       /\ f ∈ files detail
       /\ endswith (filename f) "package.json" = true
       /\ (parse_removed_added_from_patch (default EmptyString (patch f))).1 <> [].

(** What a failing attempt leaves in [last_exc]. *)
Definition last_error {B} (url : string) (o : outcome (response B)) : exn :=
  match o with
  | Raised e => e
  | Returned r => StatusException (status_code r) (text r) url
  end.

(** An attempt that the loop answers by backing off: a network-level
    failure, or an answer whose status is in the retry set. *)
Definition retryable_failure {B} (o : outcome (response B)) : Prop :=
  match o with
  | Raised e => is_RequestException e = true
  | Returned r => is_retry_status (status_code r) = true
  end.

Definition requests_of (evs : list event) : list event :=
  filter (fun e => Is_true (is_request e)) evs.

(** The backoff in the words of the specification: an integer delay of r
    seconds always gives a sleep of r + 1 seconds. *)
Definition retry_after_always_obeyed : Prop :=
  forall (attempt : nat) (resp : response unit) (now : Z) (jitter : Q) (longest : Z)
         (ra : string) (r : Z),
    headers_get "Retry-After" (headers resp) = Some ra ->
    int ra = Some r ->
    _sleep_backoff attempt (Some resp) now jitter longest = inject_Z (r + 1).

(** The cap in the words of the specification, for every limit: the
    fetches never exceed the smaller of the limit and the number of
    qualifying blobs. *)
Definition fetches_never_exceed_limit : Prop :=
  forall (w : remote) (repo commit_sha : string) (file_limit : Z) m log,
    compute_metrics_from_commit w repo commit_sha file_limit = Returned (m, log) ->
    forall tree_items,
      get_tree_for_ref w repo commit_sha = Returned tree_items ->
      Z.of_nat (length log)
      <= Z.min file_limit (Z.of_nat (length (candidate_blobs tree_items))).

(** The texts the analyzer fetched, as input of the keyword heuristic. *)
Definition as_contents (texts : list (tree_item * string)) : list source_file :=
  map (fun it => mkSourceFile (path it.1) it.2) texts.

(** The fallback in the words of the specification: without a structural
    analyzer the snapshot carries the keyword average of the fetched
    files. *)
Definition fallback_uses_keywords : Prop :=
  forall (w : remote) (repo commit_sha : string) (file_limit : Z) m log tree_items,
    lizard w = None ->
    get_tree_for_ref w repo commit_sha = Returned tree_items ->
    compute_metrics_from_commit w repo commit_sha file_limit = Returned (m, log) ->
    avg_complexity m
    = h_avg_complexity
        (analyze_contents
           (as_contents
              (fetched_texts w repo
                 (limit_blobs (candidate_blobs tree_items) file_limit)))).

(** What the inner loop writes into every record it adds. *)
Definition emitted_from (full_name sha parent_sha : string)
    (before_entry after_entry : metrics_entry) (rs : list removed_entry)
    (cand : candidate) : Prop :=
  cand_repo cand = full_name
  /\ cand_commit cand = sha
  /\ cand_parent cand = parent_sha
  /\ cand_metrics_before cand = before_entry
  /\ cand_metrics_after cand = after_entry
  /\ exists r, r ∈ rs
       /\ cand_removed_dep cand = r_name r
       /\ cand_file cand = r_file r.

(** The invariant of the records in the words of the specification, with
    the file name compared as it is spelled. *)
Definition candidates_name_a_manifest : Prop :=
  forall (w : remote) (o : options) (full_name : string) (cand : candidate),
    cand ∈ (analyze_repo w o full_name).1 ->
    exists c, c ∈ list_commits_touching_path w full_name
              /\ origin_as_spelled w full_name c cand.

End Statements.

(* ===================================================================== *)
(** ** Further properties, stated                                         *)
(* ===================================================================== *)

Module Observations.

Import Metrics ComputeJsMetrics FindDependencyReplacements Statements.

(** The lengths of the sleeps of a trace, in order, and their sum. *)
Definition sleep_lengths (evs : list event) : list Q :=
  omap (fun e => match e with Sleep d => Some d | Request _ => None end) evs.

Definition total_sleep (evs : list event) : Q :=
  fold_right Qplus 0%Q (sleep_lengths evs).

(** The attempts [first] to [first + count - 1] all fail in a way the loop
    answers by backing off. *)
Definition all_retryable {B} (t : transport B) (first count : nat) : Prop :=
  forall i, (first <= i < first + count)%nat -> retryable_failure (send t i).

(** Every attempt fails on the network. *)
Definition network_down {B} (t : transport B) : Prop :=
  forall n, exists e, send t n = Raised e /\ is_RequestException e = true.

(** The answer carries no delay the first branch of the backoff can use
    on a platform that sleeps [longest] seconds at most: no [Retry-After]
    header, or one that is no integer, or an integer r for which r + 1 is
    negative or more than the platform sleeps. *)
Definition no_usable_retry_after {B} (resp : response B) (longest : Z) : Prop :=
  match headers_get "Retry-After" (headers resp) with
  | None => True
  | Some ra =>
      match int ra with
      | None => True
      | Some r => r < -1 \/ longest < r + 1
      end
  end.



(** A transport that fails twice, once on the network and once throttled,
    and then answers. *)
Definition flaky_then_fine : transport unit :=
  mkTransport
    (fun n => match n with
              | 1%nat => Raised (ConnectionError "reset by peer")
              | 2%nat => Returned Samples.throttled
              | _ => Returned (Samples.answer 200 [] "fine")
              end)
    (fun _ => 0) (fun _ => 1%Q) (fun _ => Samples.usual_longest).

(** A transport that times out once and then fails inside the client,
    with an exception that is not one of the request library. *)
Definition broken_client : transport unit :=
  mkTransport
    (fun n => match n with
              | 1%nat => Raised (Timeout "read timed out")
              | _ => Raised (TypeError "unhashable type")
              end)
    (fun _ => 0) (fun _ => 1%Q) (fun _ => Samples.usual_longest).


(** An answer that says the rate limit is used up until the time 1000. *)
Definition rate_limited : response unit :=
  Samples.answer 403
    [("X-RateLimit-Remaining", "0"); ("X-RateLimit-Reset", "1000")]%string
    "rate limit exceeded".

(** The four tests a tree item passes to be a candidate blob. *)
Definition qualifies (item : tree_item) : Prop :=
  item_type item = "blob"%string
  /\ (exists ext, ext ∈ SRC_EXTS /\ endswith (lower (path item)) ext = true)
  /\ (forall part, part ∈ SKIP_PATH_PARTS -> contains part (path item) = false)
  /\ (forall bytes, size item = Some bytes -> bytes <= MAX_BLOB_BYTES).

(** Every entry of the cache counts the identifiers it lists. *)
Definition counts_agree (cache : gmap string cve_entry) : Prop :=
  map_Forall (fun _ (e : cve_entry) => e.1 = Z.of_nat (length e.2)) cache.

(** A vulnerability service that knows two advisories for every package. *)
Definition service_two (_ : string) : outcome osv_response :=
  Returned (mkOsv 200 (Returned [Some "GHSA-1"%string; Some "GHSA-2"%string])).

(** A text that is not empty and holds no double quote. *)
Definition clean (s : string) : Prop :=
  s <> EmptyString /\ Forall (fun c => is_quote c = false) (chars s).

(** Every record carries the cache entry of its dependency. *)
Definition agree (results : list candidate) (cache : gmap string cve_entry) : Prop :=
  forall cand, cand ∈ results ->
    cache !! cand_removed_dep cand = Some (cand_cve_count cand, cand_cve_ids cand).

End Observations.

(* ===================================================================== *)
(** ** Further sample inputs and statements                              *)
(* ===================================================================== *)

Module AccessorSamples.

Import Json Accessors Samples.

Definition answer_json (status : Z) (body : outcome value) : response value :=
  mkResponse status [] EmptyString body.

Definition commit_body (tree_sha : string) : value :=
  JDict [("commit", JDict [("tree", JDict [("sha", JStr tree_sha)])])]%string.

Definition entry (type path : string) : value :=
  JDict [("type", JStr type); ("path", JStr path)]%string.

(** A repository whose commit resolves to the tree t1, but whose tree
    cannot be requested; the listing of its root directory would answer. *)
Definition tree_down : platform :=
  mkPlatform
    (fun url =>
       if String.eqb url (commit_url "o/r" "main") then
         always (Returned (answer_json 200 (Returned (commit_body "t1"))))
       else if String.eqb url (contents_url "o/r") then
         always (Returned (answer_json 200
                             (Returned (JList [entry "file" "package.json"]))))
       else always (Raised (ConnectionError "reset by peer")))
    (fun _ => "?"%string).

(** A repository with several manifests; its commit cannot be resolved, so
    the tree is requested under the name of the branch. *)
Definition monorepo : platform :=
  mkPlatform
    (fun url =>
       if String.eqb url (tree_url "o/r" "main") then
         always (Returned (answer_json 200
           (Returned (JDict [("tree",
              JList [entry "blob" "packages/b/package.json";
                     entry "blob" "README.md";
                     entry "tree" "packages";
                     entry "blob" "package.json";
                     entry "blob" "docs/PACKAGE.JSON";
                     entry "blob" "packages/a/package.json"])]%string))))
       else always (Raised (ConnectionError "reset by peer")))
    (fun _ => "?"%string).

(** An answer 200 whose body is a JSON text, and an answer 204 whose
    body is a JSON object. *)
Definition text_body : transport value :=
  always (Returned (answer_json 200 (Returned (JStr "moved")))).

Definition no_content : transport value :=
  always (Returned (answer_json 204 (Returned (JDict [("message", JStr "none")]%string)))).

(** A repository whose commit answers 200 with a body that is no JSON. *)
Definition garbled_commit : platform :=
  mkPlatform
    (fun _ => always (Returned (answer_json 200
                                  (Raised (ValueError "Expecting value")))))
    (fun _ => "?"%string).

End AccessorSamples.

Module SearchSamples.

Import Json Search Samples AccessorSamples.

Definition found (n : Z) : value :=
  JDict [("full_name", JStr "o/r"); ("html_url", JStr "https://github.com/o/r");
         ("stargazers_count", JInt n); ("forks_count", JInt 0);
         ("size", JInt 1); ("updated_at", JStr "2024-01-01T00:00:00Z")]%string.

(** A server with an endless ranking that serves the page asked for: the
    items from the offset (page - 1) * per_page on, per_page of them. *)
Definition page_of (rank : nat -> value) (take page : Z) : value :=
  JList (map rank (seq (Z.to_nat ((page - 1) * take)) (Z.to_nat take))).

Definition ranking (take page : Z) : transport value :=
  always (Returned (answer_json 200
    (Returned (JDict [("items", page_of (fun i => found (Z.of_nat i)) take page)]%string)))).

Definition found_entry (i : nat) : repo_entry :=
  mkRepoEntry (JStr "o/r") (JStr "o/r") (JStr "https://github.com/o/r")
    (JInt (Z.of_nat i)) (JInt 0) (JInt 1) (JStr "2024-01-01T00:00:00Z").

(** A server that never answers more items than the page size asked. *)
Definition honest (search : Z -> Z -> transport value) : Prop :=
  forall take page items,
    1 <= take ->
    page_items (search take page) = Returned (JList items) ->
    Z.of_nat (length items) <= take.

(** A server that pages by offset through the ranking [rank], whose items
    are read as the entries [entry]. *)
Definition pages_by_offset (search : Z -> Z -> transport value)
    (rank : nat -> value) (entry : nat -> repo_entry) : Prop :=
  (forall take page, 1 <= take -> 1 <= page ->
     page_items (search take page) = Returned (page_of rank take page))
  /\ (forall i, repo_entry_of (rank i) = Returned (entry i)).

End SearchSamples.

Module GraphqlSamples.

Import Json Graphql Samples AccessorSamples.

(** A server that knows the manifest of every repository asked for under
    the first alias of a query, and of no other. *)
Definition first_alias_only (_ : string) : transport value :=
  always (Returned (answer_json 200
    (Returned (JDict [("data",
       JDict [("r0", JDict [("object", JDict [("text", JStr "{}")])])])]%string)))).

Definition parse_empty_object (s : string) : outcome value :=
  if String.eqb s "{}" then Returned (JDict []) else Raised (ValueError "Expecting value").

(** A server whose answer for the second alias is a number. *)
Definition second_alias_garbled (_ : string) : transport value :=
  always (Returned (answer_json 200
    (Returned (JDict [("data",
       JDict [("r0", JDict [("object", JDict [("text", JStr "{}")])]);
              ("r1", JInt 5)])]%string)))).

End GraphqlSamples.

Module RepoMetricsSamples.

Import Json Metrics RepoMetrics Samples.

(** The manifests of a repository with two packages: lodash is a runtime
    dependency of both, jest a development dependency of the first. *)
Definition two_manifests : list (string * value) :=
  [("package.json",
    JDict [("dependencies", JDict [("lodash", JStr "^4.17.21")]);
           ("devDependencies", JDict [("jest", JStr "^29.0.0")])]);
   ("packages/a/package.json",
    JDict [("dependencies", JDict [("lodash", JStr "^4.0.0"); ("left-pad", JStr "1.3.0")]);
           ("devDependencies", JNull)])]%string.

(** A service that knows two advisories for lodash and none for any other
    package. *)
Definition lodash_advisories (dep : string) : outcome osv_response :=
  if String.eqb dep "lodash"
  then Returned (mkOsv 200 (Returned [Some "GHSA-2"%string; Some "GHSA-1"%string]))
  else Returned (mkOsv 200 (Returned [])).

(** The advisory count and the identifiers a cache holds for a name. *)
Definition cached_count (cache : gmap string cve_entry) (dep : string) : Z :=
  (default (0, []) (cache !! dep)).1.

Definition cached_ids (cache : gmap string cve_entry) (dep : string)
  : list (option string) :=
  (default (0, []) (cache !! dep)).2.

(** The cache [compute_metrics_for_repo] starts from. *)
Definition working_cache (file : cache_file) (osv_cache : option (gmap string cve_entry))
  : gmap string cve_entry :=
  match osv_cache with
  | Some cache => cache
  | None => load_osv_cache file
  end.

End RepoMetricsSamples.


(* ===================================================================== *)
(** ** The request layer                                                  *)
(* ===================================================================== *)

Module RequestLayer.

Import Samples Statements.

Lemma int_truthy (s : string) (z : Z) : int s = Some z -> truthy_str s = true.
Proof. destruct s; [discriminate | reflexivity]. Qed.

Lemma retry_status_ge_400 (s : Z) : is_retry_status s = true -> (s <? 400) = false.
Proof.
  unfold is_retry_status, retry_statuses. cbn [existsb].
  rewrite !orb_true_iff, !Z.eqb_eq, Z.ltb_ge. lia.
Qed.

(** One failing attempt: the loop sleeps once and goes on with the error
    of that attempt. *)
Lemma failing_attempt_continues {B} (t : transport B) (url : string)
    (remaining attempt : nat) (last_exc : option exn) :
  retryable_failure (send t (S attempt)) ->
  exists nap,
    attempts_loop t url (S remaining) attempt last_exc =
      (fst (attempts_loop t url remaining (S attempt)
              (Some (last_error url (send t (S attempt))))),
       Request (S attempt) :: Sleep nap
         :: snd (attempts_loop t url remaining (S attempt)
                   (Some (last_error url (send t (S attempt)))))).
Proof.
  intros Hfail. cbn [attempts_loop]. unfold try_block.
  destruct (send t (S attempt)) as [resp | e] eqn:Hsend; cbn in Hfail |- *.
  - rewrite (retry_status_ge_400 _ Hfail), Hfail.
    destruct (attempts_loop t url remaining (S attempt) _) as [r evs'].
    eexists. reflexivity.
  - rewrite Hfail.
    destruct (attempts_loop t url remaining (S attempt) _) as [r evs'].
    eexists. reflexivity.
Qed.

(** With every attempt failing in a retryable way, the loop uses up what
    remains of the budget, one request per attempt, and raises the error
    of the last attempt. *)
Lemma exhausting_loop {B} (t : transport B) (url : string) (remaining : nat) :
  (forall n, retryable_failure (send t n)) ->
  forall attempt last_exc,
    fst (attempts_loop t url (S remaining) attempt last_exc)
      = Raised (last_error url (send t (attempt + S remaining)%nat))
    /\ requests_of (snd (attempts_loop t url (S remaining) attempt last_exc))
      = map Request (seq (S attempt) (S remaining)).
Proof.
  intros Hall. induction remaining as [| remaining IH]; intros attempt last_exc.
  - destruct (failing_attempt_continues t url 0 attempt last_exc (Hall _)) as [nap ->].
    cbn. replace (attempt + 1)%nat with (S attempt) by lia. split; reflexivity.
  - destruct (failing_attempt_continues t url (S remaining) attempt last_exc (Hall _))
      as [nap ->].
    destruct (IH (S attempt) (Some (last_error url (send t (S attempt))))) as [Hr Hevs].
    cbn [fst snd]. split.
    + rewrite Hr. f_equal. f_equal. f_equal. lia.
    + change (requests_of (Request (S attempt) :: Sleep nap :: ?l))
        with (Request (S attempt) :: requests_of l).
      rewrite Hevs. reflexivity.
Qed.

(** C4.  When every attempt ends in a network-level failure or in a status
    of the retry set, the call with the default budget makes exactly six
    requests (attempts 1 to 6, none beyond), returns no response, and
    raises the error of the sixth attempt: the network exception itself,
    or the exception carrying the status and text of the sixth answer. *)
Theorem exhausted_budget_raises_last_error {B} (t : transport B) (url : string) :
  (forall n, retryable_failure (send t n)) ->
  fst (request_with_backoff t url default_max_retries)
    = Raised (last_error url (send t 6%nat))
  /\ requests_of (snd (request_with_backoff t url default_max_retries))
    = map Request [1; 2; 3; 4; 5; 6]%nat
  /\ (forall resp, fst (request_with_backoff t url default_max_retries) <> Returned resp).
Proof.
  intros Hall. unfold request_with_backoff, default_max_retries.
  destruct (exhausting_loop t url 5 Hall 0%nat None) as [Hr Hevs].
  split; [exact Hr |]. split; [exact Hevs |].
  intros resp. rewrite Hr. discriminate.
Qed.

Lemma exhausted_budget_flaky :
  (forall n, retryable_failure (send flaky n))
  /\ fst (request_with_backoff flaky "u" default_max_retries)
       = Raised (StatusException 429 "slow down" "u")
  /\ requests_of (snd (request_with_backoff flaky "u" default_max_retries))
       = map Request [1; 2; 3; 4; 5; 6]%nat.
Proof.
  assert (H : forall n, retryable_failure (send flaky n)).
  { intros n. cbn. destruct (Nat.even n); reflexivity. }
  split; [exact H |].
  destruct (exhausted_budget_raises_last_error flaky "u" H) as (Hr & Hevs & _).
  split; [exact Hr | exact Hevs].
Defined.

(** A delay of -5 is an integer, but [time.sleep(-4)] raises, the
    exception is swallowed, and the exponential branch sleeps instead, for
    a time that depends on the attempt.  The same happens with a delay
    that is more than the platform sleeps. *)
Lemma negative_retry_after_falls_through :
  headers_get "Retry-After" (headers throttled_negative) = Some "-5"%string
  /\ int "-5" = Some (-5)
  /\ _sleep_backoff 1 (Some throttled_negative) 0 1 usual_longest = 3%Q
  /\ _sleep_backoff 2 (Some throttled_negative) 0 1 usual_longest = 5%Q
  /\ int "9223372036" = Some 9223372036
  /\ _sleep_backoff 2 (Some throttled_for_ages) 0 1 usual_longest = 5%Q
  /\ ~ retry_after_always_obeyed.
Proof.
  repeat split; try reflexivity.
  intros H.
  specialize (H 1%nat throttled_negative 0 1%Q usual_longest "-5"%string (-5)
                eq_refl eq_refl).
  discriminate H.
Qed.

(** C3, as the code has it.  When the answer carries a [Retry-After]
    header that reads as an integer r, with r + 1 a length that
    [time.sleep] accepts (not negative, and not more than the platform
    sleeps), the backoff sleeps exactly r + 1 seconds, whatever the
    attempt count, the clock, the jitter and the other headers: this
    branch comes before the rate-limit-reset and the exponential one. *)
Theorem retry_after_sleep {B} (attempt : nat) (resp : response B) (now : Z)
    (jitter : Q) (longest : Z) (ra : string) (r : Z) :
  headers_get "Retry-After" (headers resp) = Some ra ->
  int ra = Some r ->
  -1 <= r ->
  r + 1 <= longest ->
  _sleep_backoff attempt (Some resp) now jitter longest = inject_Z (r + 1).
Proof.
  intros Hra Hint Hr Hlongest. unfold _sleep_backoff, sleep_retry_after, sleep_accepts.
  rewrite Hra, (int_truthy _ _ Hint), Hint.
  destruct (Z.leb_spec 0 (r + 1)); [| lia].
  destruct (Z.leb_spec (r + 1) longest); [reflexivity | lia].
Qed.

Lemma retry_after_five_sleeps_six :
  headers_get "Retry-After" (headers throttled) = Some "5"%string
  /\ int "5" = Some 5
  /\ -1 <= 5
  /\ 5 + 1 <= usual_longest
  /\ _sleep_backoff 4 (Some throttled) 123 (3 # 2) usual_longest = 6%Q.
Proof.
  split; [reflexivity |]. split; [reflexivity |]. split; [lia |].
  split; [unfold usual_longest; lia |].
  apply (retry_after_sleep 4 throttled 123 (3 # 2) usual_longest "5" 5);
    [reflexivity | reflexivity | lia | unfold usual_longest; lia].
Defined.

(** C1.  What the call does with an answer 404 at every attempt: it does
    not stop at the first one, as a status outside the retry set should
    make it.  The [HTTPError] of [raise_for_status] is a
    [RequestException], so the handler of the loop takes it for a network
    failure, sleeps and tries again until the budget is used up. *)
Theorem not_found_is_retried :
  request_with_backoff (always (Returned not_found)) "u" default_max_retries
  = (Raised (HTTPError 404 "Not Found"),
     [Request 1; Sleep 3; Request 2; Sleep 5; Request 3; Sleep 9;
      Request 4; Sleep 17; Request 5; Sleep 33; Request 6; Sleep 61]).
Proof. reflexivity. Qed.

(** The same for any status that [raise_for_status] rejects and that is
    not in the retry set: after the first attempt the loop sleeps and goes
    on to the second one. *)
Lemma rejected_status_is_retried {B} (t : transport B) (url : string)
    (resp : response B) (budget : nat) :
  send t 1%nat = Returned resp ->
  400 <= status_code resp < 600 ->
  is_retry_status (status_code resp) = false ->
  snd (request_with_backoff t url (S budget))
  = Request 1 :: Sleep (sleep_exponential 1 (jitter t 1%nat))
      :: snd (attempts_loop t url budget 1
                (Some (HTTPError (status_code resp) (text resp)))).
Proof.
  intros Hsend Hrange Hretry.
  unfold request_with_backoff. cbn [attempts_loop]. unfold try_block, raise_for_status.
  rewrite Hsend, Hretry.
  destruct (Z.ltb_spec (status_code resp) 400); [lia |].
  destruct (Z.leb_spec 400 (status_code resp)); [| lia].
  destruct (Z.ltb_spec (status_code resp) 600); [| lia].
  cbn. destruct (attempts_loop t url budget 1 _). reflexivity.
Qed.

End RequestLayer.

(* ===================================================================== *)
(** ** The vulnerability cache                                            *)
(* ===================================================================== *)

Module VulnerabilityCache.

Import Metrics Samples Statements.

(** A lookup never touches the entry of a name that is already cached. *)
Lemma lookup_keeps_entries (post : string -> outcome osv_response)
    (n k : string) (v : cve_entry) (cache : gmap string cve_entry) :
  cache !! k = Some v ->
  (get_cve_for_package post n cache).1.2 !! k = Some v.
Proof.
  intros Hk. unfold get_cve_for_package.
  destruct (cache !! n) as [hit |] eqn:Hn; [exact Hk |].
  assert (n <> k) by congruence.
  destruct (osv_try post n) as [[result |] | e]; cbn; by rewrite lookup_insert_ne.
Qed.

Lemma lookups_keep_entries (post : string -> outcome osv_response)
    (names : list string) (k : string) (v : cve_entry) :
  forall cache, cache !! k = Some v -> lookups post names cache !! k = Some v.
Proof.
  induction names as [| n names IH]; intros cache Hk; [exact Hk |].
  cbn. apply IH. by apply lookup_keeps_entries.
Qed.

(** A cached name is answered from the cache, with no request. *)
Lemma cached_lookup (post : string -> outcome osv_response) (n : string)
    (v : cve_entry) (cache : gmap string cve_entry) :
  cache !! n = Some v -> get_cve_for_package post n cache = (v, cache, []).
Proof. intros Hn. unfold get_cve_for_package. by rewrite Hn. Qed.

Lemma failed_try (post : string -> outcome osv_response) (n : string) :
  lookup_fails (post n) ->
  osv_try post n = Returned None \/ exists e, osv_try post n = Raised e.
Proof.
  unfold lookup_fails, osv_try. destruct (post n) as [r | e]; cbn.
  - intros [Hstatus | [e He]].
    + destruct (Z.eqb_spec (osv_status r) 200); [contradiction | by left].
    + destruct (osv_status r =? 200); [| by left]. rewrite He. right. by eexists.
  - intros _. right. by eexists.
Qed.

(** A server error is a failed lookup like an unreachable service. *)
Example server_error_is_cached :
  lookup_fails (service_error "left-pad"%string)
  /\ get_cve_for_package service_error "left-pad" ∅
     = ((0, []), <["left-pad"%string := (0, [])]> ∅, ["left-pad"%string]).
Proof. split; [by left | reflexivity]. Qed.

(** C10.  For a name that is not cached, a failed lookup (an exception, a
    status other than 200, or a body that cannot be read) answers (0, [])
    after one request and stores (0, []) under the name.  From then on,
    whatever other lookups the run makes and whatever the service would
    answer, a lookup of the name answers (0, []) with no request; and once
    the cache is written to its file, the same holds for the cache a
    later run loads from it. *)
Theorem failed_lookup_is_cached (post : string -> outcome osv_response)
    (n : string) (cache : gmap string cve_entry) :
  cache !! n = None ->
  lookup_fails (post n) ->
  get_cve_for_package post n cache = ((0, []), <[n := (0, [])]> cache, [n])
  /\ (forall post' names,
        let later := lookups post' names (<[n := (0, [])]> cache) in
        get_cve_for_package post' n later = ((0, []), later, [])
        /\ (forall post'' left,
              let reloaded := load_osv_cache (save_osv_cache true left later) in
              get_cve_for_package post'' n reloaded = ((0, []), reloaded, []))).
Proof.
  intros Hn Hfail. split.
  - unfold get_cve_for_package. rewrite Hn.
    destruct (failed_try post n Hfail) as [-> | [e ->]]; reflexivity.
  - intros post' names later.
    assert (Hlater : later !! n = Some (0, [])).
    { apply lookups_keep_entries. apply lookup_insert_eq. }
    split; [by apply cached_lookup |].
    intros post'' left reloaded. by apply cached_lookup.
Qed.

Lemma failed_lookup_is_cached_sample :
  (∅ : gmap string cve_entry) !! "left-pad"%string = None
  /\ lookup_fails (service_down "left-pad"%string)
  /\ get_cve_for_package service_down "left-pad" ∅
     = ((0, []), <["left-pad"%string := (0, [])]> ∅, ["left-pad"%string]).
Proof.
  split; [reflexivity |]. split; [exact I |].
  apply (failed_lookup_is_cached service_down "left-pad" ∅); [reflexivity | exact I].
Defined.

End VulnerabilityCache.

(* ===================================================================== *)
(** ** The dependency-diff extractor                                      *)
(* ===================================================================== *)

Module DependencyDiff.

Import FindDependencyReplacements Samples Statements.

Section Dict.
Context {V : Type}.
Implicit Types (d : list (string * V)) (k : string) (v : V).

Lemma dict_get_set_eq k v d : dict_get k (dict_set k v d) = Some v.
Proof.
  induction d as [| [k' v'] d IH]; cbn.
  - by rewrite String.eqb_refl.
  - destruct (String.eqb_spec k k') as [-> | Hne]; cbn.
    + by rewrite String.eqb_refl.
    + destruct (String.eqb_spec k k'); [done | exact IH].
Qed.

Lemma dict_get_set_ne k k' v d :
  k <> k' -> dict_get k' (dict_set k v d) = dict_get k' d.
Proof.
  intros Hne. induction d as [| [k0 v0] d IH]; cbn.
  - destruct (String.eqb_spec k' k); [congruence | done].
  - destruct (String.eqb_spec k k0) as [-> | Hk]; cbn.
    + destruct (String.eqb_spec k' k0); [congruence | done].
    + destruct (String.eqb_spec k' k0); [done | exact IH].
Qed.

Lemma dict_get_None k d : dict_get k d = None <-> k ∉ dict_keys d.
Proof.
  induction d as [| [k0 v0] d IH]; cbn.
  - split; [intros _; apply not_elem_of_nil | done].
  - rewrite not_elem_of_cons. destruct (String.eqb_spec k k0); [| tauto].
    split; [done | tauto].
Qed.

Lemma dict_get_Some_elem k v d : dict_get k d = Some v -> (k, v) ∈ d.
Proof.
  induction d as [| [k0 v0] d IH]; cbn; [done |].
  destruct (String.eqb_spec k k0) as [-> | Hne].
  - intros [= ->]. apply list_elem_of_here.
  - intros H. apply list_elem_of_further. by apply IH.
Qed.

Lemma dict_get_elem k v d : NoDup (dict_keys d) -> (k, v) ∈ d -> dict_get k d = Some v.
Proof.
  induction d as [| [k0 v0] d IH]; cbn.
  - intros _ H. by apply elem_of_nil in H.
  - rewrite NoDup_cons. intros [Hfresh Hnd] Hin.
    apply elem_of_cons in Hin as [[= -> ->] | Hin].
    + by rewrite String.eqb_refl.
    + destruct (String.eqb_spec k k0) as [-> | Hne]; [| by apply IH].
      exfalso. apply Hfresh. unfold dict_keys.
      apply list_elem_of_fmap. by exists (k0, v).
Qed.

Lemma dict_set_keys k v d :
  dict_keys (dict_set k v d)
  = if decide (k ∈ dict_keys d) then dict_keys d else dict_keys d ++ [k].
Proof.
  unfold dict_keys. induction d as [| [k0 v0] d IH]; cbn.
  - rewrite decide_False; [done | apply not_elem_of_nil].
  - destruct (String.eqb_spec k k0) as [-> | Hne]; cbn.
    + rewrite decide_True; [done | apply list_elem_of_here].
    + rewrite IH. destruct (decide (k ∈ map fst d)) as [Hin | Hout].
      * rewrite decide_True; [done | by apply list_elem_of_further].
      * rewrite decide_False; [done |]. rewrite not_elem_of_cons. tauto.
Qed.

Lemma dict_set_NoDup k v d : NoDup (dict_keys d) -> NoDup (dict_keys (dict_set k v d)).
Proof.
  intros Hnd. rewrite dict_set_keys. case_decide; [done |].
  apply NoDup_app. split; [done |]. split; [| apply NoDup_singleton].
  intros x Hx Hk. apply list_elem_of_singleton in Hk. by subst.
Qed.
End Dict.

(** Every value a scan yields is the value of a match of the pattern. *)
Lemma scan_Forall {A} (P : A -> Prop)
    (m : option ascii -> list ascii -> option (A * nat)) :
  (forall prev s a n, m prev s = Some (a, n) -> P a) ->
  forall s prev skip, Forall P (scan m prev skip s).
Proof.
  intros Hm. induction s as [| c s IH]; intros prev skip; cbn; [constructor |].
  destruct skip; [| apply IH].
  destruct (m prev (c :: s)) as [[a n] |] eqn:Hmatch; [| apply IH].
  constructor; [by eapply Hm | apply IH].
Qed.

Lemma quoted_inside (l inside rest : list ascii) :
  quoted l = Some (inside, rest) -> inside <> [].
Proof.
  unfold quoted. destruct l as [| q l]; [done |].
  destruct (is_quote q); [| done].
  destruct (span_unquoted l) as [[| c run] [| c' rest']]; try done.
  by intros [= <- _].
Qed.

Lemma str_truthy (l : list ascii) : l <> [] -> truthy_str (str l) = true.
Proof. by destruct l. Qed.

(** Name and version of a match are not empty. *)
Lemma match_pkg_line_filled (s : list ascii) (m : pkg_match) (n : nat) :
  match_pkg_line s = Some (m, n) ->
  truthy_str (name m) = true /\ truthy_str (ver m) = true.
Proof.
  unfold match_pkg_line. destruct s as [| c s1]; [done |].
  destruct (_ || _); [| done].
  destruct (quoted (lstrip s1)) as [[nm [| colon s2]] |] eqn:Hname; try done.
  destruct (_ =? _)%N; [| done].
  destruct (quoted (lstrip s2)) as [[vr rest] |] eqn:Hver; [| done].
  intros [= <- _]. cbn.
  split; apply str_truthy; by eapply quoted_inside.
Qed.

Lemma matches_filled (patch_text : string) :
  Forall (fun m => truthy_str (ver m) = true) (finditer _pkg_line_re patch_text).
Proof.
  apply scan_Forall. intros prev s m n. unfold _pkg_line_re.
  destruct (at_line_start prev); [| done].
  intros H. by apply match_pkg_line_filled in H as [_ ?].
Qed.

Lemma last_version_elem (sign : N) (n v : string) (ms : list pkg_match) :
  last_version sign n ms = Some v -> exists m, m ∈ ms /\ ver m = v.
Proof.
  induction ms as [| m ms IH]; cbn; [done |].
  destruct (last_version sign n ms) as [v' |].
  - intros [= ->]. destruct IH as (m' & Hin & Hv); [done |].
    exists m'. split; [by apply list_elem_of_further | done].
  - destruct (_ && _); [| done]. intros [= <-].
    exists m. split; [apply list_elem_of_here | done].
Qed.

(** The two maps after the loop over the matches, read through
    [last_version]. *)
Lemma record_matches_get (ms : list pkg_match) (n : string) :
  forall removed added,
    dict_get n (fold_left record_match ms (removed, added)).1
      = from_option Some (dict_get n removed) (last_version minus_sign n ms)
    /\ dict_get n (fold_left record_match ms (removed, added)).2
      = from_option Some (dict_get n added) (last_version plus_sign n ms).
Proof.
  induction ms as [| m ms IH]; intros removed added; cbn [fold_left last_version];
    [done |].
  destruct (record_match (removed, added) m) as [removed' added'] eqn:Hstep.
  destruct (IH removed' added') as [-> ->]. clear IH.
  unfold record_match, minus_sign, plus_sign in *.
  destruct (N.eqb_spec (code (op m)) 45) as [Hminus | Hnot_minus].
  - injection Hstep as <- <-.
    destruct (N.eqb_spec (code (op m)) 43) as [Hplus | _]; [lia |].
    split.
    + destruct (last_version 45 n ms); [done |]. cbn.
      destruct (String.eqb_spec n (name m)) as [-> | Hne]; cbn.
      * apply dict_get_set_eq.
      * by apply dict_get_set_ne.
    + by destruct (last_version 43 n ms).
  - destruct (N.eqb_spec (code (op m)) 43) as [Hplus | Hnot_plus];
      injection Hstep as <- <-.
    + split.
      * by destruct (last_version 45 n ms).
      * destruct (last_version 43 n ms); [done |]. cbn.
        destruct (String.eqb_spec n (name m)) as [-> | Hne]; cbn.
        -- apply dict_get_set_eq.
        -- by apply dict_get_set_ne.
    + split; [by destruct (last_version 45 n ms) | by destruct (last_version 43 n ms)].
Qed.

Lemma record_matches_NoDup (ms : list pkg_match) :
  forall removed added,
    NoDup (dict_keys removed) ->
    NoDup (dict_keys (fold_left record_match ms (removed, added)).1).
Proof.
  induction ms as [| m ms IH]; intros removed added Hnd; cbn [fold_left]; [done |].
  destruct (record_match (removed, added) m) as [removed' added'] eqn:Hstep.
  apply IH. unfold record_match in Hstep.
  destruct (_ =? minus_sign)%N.
  - injection Hstep as <- <-. by apply dict_set_NoDup.
  - destruct (_ =? plus_sign)%N; by injection Hstep as <- <-.
Qed.

Lemma parse_is_fold (patch_text : string) :
  parse_removed_added_from_patch patch_text
  = fold_left record_match (finditer _pkg_line_re patch_text) ([], []).
Proof. unfold parse_removed_added_from_patch. by destruct patch_text. Qed.

(** *** The pattern on lines of the recognized shape *)

Lemma lstrip_blanks (indent : list ascii) (c : ascii) (rest : list ascii) :
  forallb blank indent = true -> isspace c = false ->
  lstrip (indent ++ c :: rest) = c :: rest.
Proof.
  intros Hblank Hc. unfold lstrip.
  induction indent as [| b indent IH]; cbn.
  - by rewrite Hc.
  - cbn in Hblank. apply andb_prop in Hblank as [Hb Hindent].
    apply andb_prop in Hb as [-> _]. by apply IH.
Qed.

Lemma span_plain (run : list ascii) (q : ascii) (rest : list ascii) :
  forallb plain run = true -> is_quote q = true ->
  span_unquoted (run ++ q :: rest) = (run, q :: rest).
Proof.
  intros Hplain Hq. induction run as [| c run IH]; cbn.
  - by rewrite Hq.
  - cbn in Hplain. apply andb_prop in Hplain as [Hc Hrun].
    apply andb_prop in Hc as [Hc _]. apply negb_true_iff in Hc.
    by rewrite Hc, IH.
Qed.

Lemma quoted_plain (inside rest : list ascii) :
  nonempty inside = true -> forallb plain inside = true ->
  quoted (quote_mark :: inside ++ quote_mark :: rest) = Some (inside, rest).
Proof.
  intros Hfilled Hplain. unfold quoted.
  change (is_quote quote_mark) with true. cbn iota.
  rewrite span_plain by done. by destruct inside.
Qed.

Lemma render_matched (r : row) (rest : list ascii) :
  render_onto r rest = matched_part r ++ row_tail r ++ line_feed_char :: rest.
Proof.
  unfold render_onto, matched_part, matched_body. cbn. f_equal.
  repeat (rewrite <- app_assoc; cbn). done.
Qed.

Lemma row_ok_parts (r : row) :
  row_ok r = true ->
  inline (row_sign r) = true
  /\ forallb blank (row_indent r) = true
  /\ nonempty (row_name r) = true /\ forallb plain (row_name r) = true
  /\ forallb blank (row_gap r) = true
  /\ nonempty (row_ver r) = true /\ forallb plain (row_ver r) = true
  /\ forallb inline (row_tail r) = true.
Proof. unfold row_ok. rewrite !andb_true_iff. tauto. Qed.

Lemma match_signed_row (r : row) (rest : list ascii) :
  row_ok r = true -> signed r = true ->
  match_pkg_line (render_onto r rest) = Some (match_of r, length (matched_part r)).
Proof.
  intros Hok Hsigned.
  apply row_ok_parts in Hok
    as (_ & Hindent & Hname & Hname' & Hgap & Hver & Hver' & _).
  unfold match_pkg_line, render_onto. unfold signed in Hsigned. rewrite Hsigned.
  rewrite lstrip_blanks by done. rewrite quoted_plain by done.
  change (code colon_char =? 58)%N with true. cbn iota.
  rewrite lstrip_blanks by done. rewrite quoted_plain by done.
  f_equal. f_equal. unfold matched_part, matched_body.
  repeat (cbn [length]; rewrite ?length_app). lia.
Qed.

Lemma no_match_unsigned_row (r : row) (rest : list ascii) :
  signed r = false -> match_pkg_line (render_onto r rest) = None.
Proof. intros Hsigned. unfold match_pkg_line, render_onto. unfold signed in Hsigned. by rewrite Hsigned. Qed.

(** Passing the characters of a match. *)
Lemma scan_skip {A} (m : option ascii -> list ascii -> option (A * nat))
    (passed : list ascii) (z : ascii) (rest : list ascii) :
  forall prev,
    scan m prev (length (passed ++ [z])) ((passed ++ [z]) ++ rest)
    = scan m (Some z) 0 rest.
Proof.
  induction passed as [| c passed IH]; intros prev; [reflexivity |].
  cbn [length app scan]. apply IH.
Qed.

(** Within a line, away from its start, the pattern cannot match. *)
Lemma scan_within_line (l rest : list ascii) :
  forall p,
    inline p = true -> forallb inline l = true ->
    scan _pkg_line_re (Some p) 0 (l ++ line_feed_char :: rest)
    = scan _pkg_line_re (Some line_feed_char) 0 rest.
Proof.
  assert (Hoff : forall p s, inline p = true -> _pkg_line_re (Some p) s = None).
  { intros p s Hp. unfold _pkg_line_re, at_line_start.
    unfold inline in Hp. apply negb_true_iff in Hp. by rewrite Hp. }
  induction l as [| c l IH]; intros p Hp Hl; cbn [app scan].
  - by rewrite Hoff.
  - cbn in Hl. apply andb_prop in Hl as [Hc Hl]. rewrite Hoff by done. by apply IH.
Qed.

Lemma blank_inline (l : list ascii) : forallb blank l = true -> forallb inline l = true.
Proof.
  induction l as [| c l IH]; [done |]. cbn.
  intros H. apply andb_prop in H as [Hc Hl]. apply andb_prop in Hc as [_ ->].
  by apply IH.
Qed.

Lemma plain_inline (l : list ascii) : forallb plain l = true -> forallb inline l = true.
Proof.
  induction l as [| c l IH]; [done |]. cbn.
  intros H. apply andb_prop in H as [Hc Hl]. apply andb_prop in Hc as [_ ->].
  by apply IH.
Qed.

(** One row at a line start: its match if it is signed, and the scan goes
    on at the next line start. *)
Lemma scan_row (r : row) (rest : list ascii) (prev : option ascii) :
  row_ok r = true -> at_line_start prev = true ->
  scan _pkg_line_re prev 0 (render_onto r rest)
  = (if signed r then [match_of r] else [])
      ++ scan _pkg_line_re (Some line_feed_char) 0 rest.
Proof.
  intros Hok Hstart.
  destruct (row_ok_parts r Hok)
    as (Hsign & Hindent & _ & Hname & Hgap & _ & Hver & Htail).
  destruct (signed r) eqn:Hsigned.
  - pose proof (match_signed_row r rest Hok Hsigned) as Hmatch.
    rewrite render_matched in Hmatch |- *.
    unfold matched_part in Hmatch |- *. cbn [app scan length Nat.pred] in Hmatch |- *.
    unfold _pkg_line_re at 1. rewrite Hstart, Hmatch. cbn [app Nat.pred]. f_equal.
    rewrite scan_skip. by apply scan_within_line.
  - unfold render_onto. cbn [scan app].
    unfold _pkg_line_re at 1. rewrite Hstart.
    pose proof (no_match_unsigned_row r rest Hsigned) as Hnone.
    unfold render_onto in Hnone. rewrite Hnone.
    pose proof (scan_within_line
                  (row_indent r ++ quote_mark :: row_name r
                     ++ quote_mark :: colon_char :: row_gap r
                     ++ quote_mark :: row_ver r ++ quote_mark :: row_tail r)
                  rest (row_sign r) Hsign) as Hline.
    repeat (rewrite <- app_assoc in Hline; cbn [app] in Hline).
    apply Hline.
    repeat (rewrite forallb_app; cbn [forallb]).
    rewrite (blank_inline _ Hindent), (plain_inline _ Hname),
      (blank_inline _ Hgap), (plain_inline _ Hver), Htail. done.
Qed.

(** On a patch made of lines of the recognized shape, the matches are
    the signed lines, in order. *)
Lemma matches_of_rows (rows : list row) :
  forallb row_ok rows = true ->
  finditer _pkg_line_re (text_of rows) = map match_of (filter (fun r => Is_true (signed r)) rows).
Proof.
  intros Hok. unfold finditer, text_of, chars, str.
  rewrite list_ascii_of_string_of_list_ascii.
  assert (Hgen : forall prev, at_line_start prev = true ->
            scan _pkg_line_re prev 0 (fold_right render_onto [] rows)
            = map match_of (filter (fun r => Is_true (signed r)) rows)).
  { induction rows as [| r rows IH]; intros prev Hprev; [done |].
    cbn in Hok. apply andb_prop in Hok as [Hr Hrows].
    cbn [fold_right]. rewrite scan_row by done.
    rewrite (IH Hrows (Some line_feed_char)) by done.
    rewrite filter_cons.
    destruct (signed r); case_decide as Hsigned; cbn in Hsigned; tauto || done. }
  by apply Hgen.
Qed.

Lemma entry_name (fname : string) (added : versions) (removed : versions) :
  map r_name (map (removed_entry_of fname added) removed) = dict_keys removed.
Proof.
  unfold dict_keys. induction removed as [| [k v] removed IH]; cbn; [done |].
  by rewrite IH.
Qed.

(** C2.  For the patch of a manifest file: the removed-map holds, for
    each name matched with a leading minus, the version of its last such
    match, and each name once; the added-map likewise for the plus sign.
    The changes formed are exactly one per name of the removed-map, in its
    order; each has the removed-map value as its version before, and as
    its version after the added-map value of the same name when there is
    one and nothing otherwise.  A name that is not in the removed-map (a
    pure addition) gives no change.  When the patch is made of lines of
    the recognized shape, the matches are its signed lines, in order. *)
Theorem one_change_per_removed_name (f : file_change) :
  is_manifest (filename f) = true ->
  let patch_text := default EmptyString (patch f) in
  let ms := finditer _pkg_line_re patch_text in
  let removed := (parse_removed_added_from_patch patch_text).1 in
  let added := (parse_removed_added_from_patch patch_text).2 in
  let changes := removed_of_file f in
  (forall n, dict_get n removed = last_version minus_sign n ms)
  /\ (forall n, dict_get n added = last_version plus_sign n ms)
  /\ NoDup (dict_keys removed)
  /\ map r_name changes = dict_keys removed
  /\ (forall c, c ∈ changes ->
        exists v, dict_get (r_name c) removed = Some v
          /\ r_versions_before c = [v]
          /\ r_versions_after c
             = match dict_get (r_name c) added with Some v' => [v'] | None => [] end
          /\ r_file c = filename f)
  /\ (forall n, dict_get n removed = None -> n ∉ map r_name changes)
  /\ (forall rows,
        forallb row_ok rows = true -> patch_text = text_of rows ->
        ms = map match_of (filter (fun r => Is_true (signed r)) rows)).
Proof.
  intros Hmanifest patch_text ms removed added changes.
  assert (Hremoved : forall n, dict_get n removed = last_version minus_sign n ms).
  { intros n. subst removed. rewrite parse_is_fold.
    destruct (record_matches_get ms n [] []) as [Hget _].
    etrans; [exact Hget |]. by destruct (last_version minus_sign n ms). }
  assert (Hadded : forall n, dict_get n added = last_version plus_sign n ms).
  { intros n. subst added. rewrite parse_is_fold.
    destruct (record_matches_get ms n [] []) as [_ Hget].
    etrans; [exact Hget |]. by destruct (last_version plus_sign n ms). }
  assert (Hnd : NoDup (dict_keys removed)).
  { subst removed. rewrite parse_is_fold. apply record_matches_NoDup. constructor. }
  assert (Hchanges : changes = map (removed_entry_of (filename f) added) removed).
  { subst changes removed added patch_text. unfold removed_of_file.
    rewrite Hmanifest. cbn [negb].
    by destruct (parse_removed_added_from_patch (default EmptyString (patch f))). }
  assert (Hnames : map r_name changes = dict_keys removed).
  { rewrite Hchanges. apply entry_name. }
  repeat split; try done.
  - intros c Hc. rewrite Hchanges in Hc.
    apply list_elem_of_fmap in Hc as ([k v] & -> & Hkv). cbn.
    exists v. apply (dict_get_elem _ _ _ Hnd) in Hkv as Hget.
    split; [done |]. split; [| done].
    rewrite Hremoved in Hget. apply last_version_elem in Hget as (m & Hm & <-).
    pose proof (matches_filled patch_text) as Hfilled.
    rewrite Forall_forall in Hfilled. by rewrite (Hfilled m Hm).
  - intros n Hn. rewrite Hnames. by apply dict_get_None.
  - intros rows Hrows Htext. subst ms. rewrite Htext. by apply matches_of_rows.
Qed.

Lemma lodash_removed_once :
  is_manifest (filename lodash_change) = true
  /\ removed_of_file lodash_change
     = [mkRemoved "lodash" ["4.17.10"%string] [] "package.json"]
  /\ NoDup (dict_keys (parse_removed_added_from_patch lodash_patch).1).
Proof.
  split; [reflexivity |]. split; [reflexivity |].
  apply (one_change_per_removed_name lodash_change). reflexivity.
Defined.

End DependencyDiff.

(* ===================================================================== *)
(** ** The blob-based complexity analyzer                                 *)
(* ===================================================================== *)

Module BlobAnalyzer.

Import ComputeJsMetrics FindDependencyReplacements Samples Statements.

(** [get_blob_content] answers in every world: whatever the request layer
    or the decoding raises is turned into [None]. *)
Lemma get_blob_content_returns (b64decode : string -> outcome string)
    (t : transport blob_json) (url : string) :
  exists content, get_blob_content b64decode t url = Returned content.
Proof.
  unfold get_blob_content.
  destruct (request_with_backoff t url default_max_retries).1 as [r | e]; cbn;
    [| by eexists].
  destruct (negb (status_code r =? 200)); cbn; [by eexists |].
  destruct (json r) as [data | e]; cbn; [| by eexists].
  destruct (content data) as [c |], (encoding data) as [enc |]; cbn; try by eexists.
  destruct (truthy_str c && String.eqb enc "base64"); cbn; [| by eexists].
  destruct (b64decode c); cbn; by eexists.
Qed.

Lemma get_blob_content_fetch (w : remote) (repo : string) (item : tree_item) :
  get_blob_content (b64decode w) (blob_transport w (blob_url repo (sha item)))
    (blob_url repo (sha item))
  = Returned (fetch w repo item).
Proof.
  unfold fetch.
  destruct (get_blob_content_returns (b64decode w)
              (blob_transport w (blob_url repo (sha item)))
              (blob_url repo (sha item))) as [content ->].
  reflexivity.
Qed.

(** One step of the loop, by the result of the fetch. *)
Lemma visit_blob_step (w : remote) (repo : string) (st : pass) (item : tree_item) :
  visit_blob w repo st item
  = Returned
      match fetch w repo item with
      | None =>
          mkPass (total_loc st) (complexity_vals st) (processed_files st)
                 (fetched st ++ [sha item])
      | Some text =>
          mkPass (total_loc st + loc_of w (item, text))
                 (complexity_vals st ++ complexities_of w (item, text))
                 (processed_files st + 1) (fetched st ++ [sha item])
      end.
Proof.
  unfold visit_blob. rewrite get_blob_content_fetch. cbn [bind].
  destruct (fetch w repo item) as [text |]; [| reflexivity].
  unfold loc_of, complexities_of. cbn [fst snd].
  by destruct (analyze_source_complexity (lizard w) text (path item)).
Qed.

(** The whole loop: every item is fetched once, in order, and only the
    fetched texts are added up. *)
Lemma visit_blobs_total (w : remote) (repo : string) (items : list tree_item) :
  forall st,
    visit_blobs w repo st items
    = Returned
        (mkPass
           (total_loc st + Zsum (map (loc_of w) (fetched_texts w repo items)))
           (complexity_vals st
              ++ flat_map (complexities_of w) (fetched_texts w repo items))
           (processed_files st + Z.of_nat (length (fetched_texts w repo items)))
           (fetched st ++ map sha items)).
Proof.
  induction items as [| item items IH]; intros st.
  - cbn. rewrite !Z.add_0_r, !app_nil_r. by destruct st.
  - cbn [visit_blobs]. rewrite visit_blob_step. cbn [bind]. rewrite IH.
    unfold fetched_texts. cbn [omap list_omap map].
    destruct (fetch w repo item) as [text |]; cbn -[Z.of_nat Z.add loc_of complexities_of].
    + unfold Zsum. f_equal. f_equal; [lia | by rewrite <- app_assoc | lia | by rewrite <- app_assoc].
    + f_equal. f_equal. by rewrite <- app_assoc.
Qed.

Lemma limit_blobs_nil (file_limit : Z) : limit_blobs [] file_limit = [].
Proof.
  unfold limit_blobs, slice_to.
  destruct (truthy_int file_limit && _); [| done].
  destruct (0 <=? file_limit); apply take_nil.
Qed.

(** The analyzer as a whole, once the tree is resolved. *)
Lemma compute_metrics_returns (w : remote) (repo commit_sha : string)
    (file_limit : Z) (tree_items : list tree_item) :
  get_tree_for_ref w repo commit_sha = Returned tree_items ->
  let kept := limit_blobs (candidate_blobs tree_items) file_limit in
  let texts := fetched_texts w repo kept in
  compute_metrics_from_commit w repo commit_sha file_limit
  = Returned
      (mkMetrics
         (Zsum (map (loc_of w) texts))
         (round4 match flat_map (complexities_of w) texts with
                 | [] => 0%Q
                 | vals => mean vals
                 end)
         (Z.of_nat (length texts)),
       map sha kept).
Proof.
  intros Htree kept texts. unfold compute_metrics_from_commit.
  rewrite Htree. cbn [bind].
  assert (Hnone : candidate_blobs tree_items = [] ->
                  Returned (zero_metrics, []) =
                  Returned
                    (mkMetrics (Zsum (map (loc_of w) texts))
                       (round4 match flat_map (complexities_of w) texts with
                               | [] => 0%Q
                               | vals => mean vals
                               end)
                       (Z.of_nat (length texts)), map sha kept)).
  { intros Hcands. subst texts kept. by rewrite Hcands, limit_blobs_nil. }
  destruct tree_items as [| item tree_items']; [by apply Hnone |].
  destruct (candidate_blobs (item :: tree_items')) as [| cand cands] eqn:Hcands;
    [by apply Hnone |].
  fold kept. rewrite visit_blobs_total. cbn [bind]. fold texts.
  unfold summarize. cbn. rewrite !Z.add_0_l.
  by destruct (flat_map (complexities_of w) texts).
Qed.

(** The fetch of a blob, read off the answer of the request layer. *)
Lemma fetch_by_answer (w : remote) (repo : string) (item : tree_item) :
  fetch w repo item
  = match blob_request w repo item with
    | Raised _ => None
    | Returned r =>
        if status_code r =? 200 then
          match json r with
          | Raised _ => None
          | Returned data =>
              match content data, encoding data with
              | Some c, Some enc =>
                  if truthy_str c && String.eqb enc "base64" then
                    match b64decode w c with
                    | Returned source => Some source
                    | Raised _ => None
                    end
                  else None
              | _, _ => None
              end
          end
        else None
    end.
Proof.
  unfold fetch, get_blob_content, blob_request.
  destruct (request_with_backoff _ _ _).1 as [r | e]; cbn; [| done].
  destruct (status_code r =? 200); cbn; [| done].
  destruct (json r) as [data | e]; cbn; [| done].
  destruct (content data) as [c |], (encoding data) as [enc |]; cbn; try done.
  destruct (truthy_str c && String.eqb enc "base64"); cbn; [| done].
  by destruct (b64decode w c).
Qed.

(** Whatever the specification calls a failed fetch gives no content. *)
Lemma failed_fetch_gives_none (w : remote) (repo : string) (item : tree_item) :
  fetch_fails w repo item -> fetch w repo item = None.
Proof.
  rewrite fetch_by_answer.
  intros [e -> | r -> Hstatus | r e -> Hjson | r data -> Hjson Hcontent
          | r data -> Hjson Henc | r data c e -> Hjson Hc Hdec]; [done | ..].
  - by destruct (Z.eqb_spec (status_code r) 200).
  - destruct (status_code r =? 200); [| done]. by rewrite Hjson.
  - destruct (status_code r =? 200); [| done]. rewrite Hjson.
    destruct Hcontent as [-> | ->]; [done |]. by destruct (encoding data).
  - destruct (status_code r =? 200); [| done]. rewrite Hjson.
    destruct (content data) as [c |]; [| done].
    destruct (encoding data) as [enc |]; [| done].
    destruct (String.eqb_spec enc "base64") as [-> | _]; [done |].
    by rewrite andb_false_r.
  - destruct (status_code r =? 200); [| done]. rewrite Hjson, Hc.
    destruct (encoding data) as [enc |]; [| done].
    destruct (truthy_str c && String.eqb enc "base64"); [| done].
    by rewrite Hdec.
Qed.

(** Whatever it calls a successful fetch gives the decoded text. *)
Lemma good_fetch_gives_text (w : remote) (repo : string) (item : tree_item)
    (source : string) :
  fetch_gives w repo item source -> fetch w repo item = Some source.
Proof.
  intros (r & data & c & Hr & Hstatus & Hjson & Hc & Hfull & Henc & Hdec).
  rewrite fetch_by_answer, Hr, Hstatus, Hjson, Hc, Henc, Hdec.
  by destruct c.
Qed.

(** Every fetch is one or the other. *)
Lemma fetch_fails_or_gives (w : remote) (repo : string) (item : tree_item) :
  match fetch w repo item with
  | None => fetch_fails w repo item
  | Some source => fetch_gives w repo item source
  end.
Proof.
  rewrite fetch_by_answer.
  destruct (blob_request w repo item) as [r | e] eqn:Hr;
    [| by eapply request_raised].
  destruct (Z.eqb_spec (status_code r) 200) as [Hstatus | Hstatus];
    [| by eapply status_not_200].
  destruct (json r) as [data | e] eqn:Hjson; [| by eapply body_unreadable].
  destruct (content data) as [c |] eqn:Hc;
    [| eapply content_missing; [done | done | by left]].
  destruct (encoding data) as [enc |] eqn:Henc;
    [| eapply encoding_not_base64; [done | done | by rewrite Henc]].
  destruct c as [| a c].
  { eapply content_missing; [done | done | by right]. }
  cbn [truthy_str andb].
  destruct (String.eqb_spec enc "base64") as [-> | Hother];
    [| eapply encoding_not_base64; [done | done | rewrite Henc; congruence]].
  destruct (b64decode w (String a c)) as [source | e] eqn:Hdec;
    [| by eapply content_undecodable].
  by exists r, data, (String a c).
Qed.

(** The texts of the model are those of a pass as the specification
    describes it. *)
Lemma fetched_texts_are_read (w : remote) (repo : string) (items : list tree_item) :
  read_texts w repo items (fetched_texts w repo items).
Proof.
  unfold fetched_texts. induction items as [| item items IH]; [constructor |].
  cbn [omap list_omap].
  pose proof (fetch_fails_or_gives w repo item) as Hcase.
  destruct (fetch w repo item) as [source |]; cbn [fmap option_fmap option_map].
  - by apply read_keeps.
  - by apply read_skips.
Qed.

(** C5.  Once the tree of the commit is listed, the analyzer returns a
    snapshot whatever happens to the fetches.  A blob whose fetch fails
    -- the request layer raises, the status is not 200, the body cannot be
    read, there is no content, the encoding is missing or not base64, or
    the content does not decode -- is passed over with the sums and the
    count untouched; a fetch that does not fail in one of these ways gives
    a text; and the snapshot is that of the pass over the retained blobs
    which drops the failed fetches: [files_processed] is the number of
    texts it leaves, and lines and complexities are summed over them
    alone. *)
Theorem failed_fetch_is_skipped (w : remote) (repo commit_sha : string)
    (file_limit : Z) (tree_items : list tree_item) :
  get_tree_for_ref w repo commit_sha = Returned tree_items ->
  let kept := limit_blobs (candidate_blobs tree_items) file_limit in
  (forall st item,
     fetch_fails w repo item ->
     visit_blob w repo st item
     = Returned (mkPass (total_loc st) (complexity_vals st) (processed_files st)
                        (fetched st ++ [sha item])))
  /\ (forall item,
        ~ fetch_fails w repo item <-> exists source, fetch_gives w repo item source)
  /\ exists m texts,
       compute_metrics_from_commit w repo commit_sha file_limit
         = Returned (m, map sha kept)
       /\ read_texts w repo kept texts
       /\ files_processed m = Z.of_nat (length texts)
       /\ lines_of_code m = Zsum (map (loc_of w) texts)
       /\ avg_complexity m
          = round4 match flat_map (complexities_of w) texts with
                   | [] => 0%Q
                   | vals => mean vals
                   end.
Proof.
  intros Htree kept. split; [| split].
  - intros st item Hfail.
    by rewrite visit_blob_step, (failed_fetch_gives_none _ _ _ Hfail).
  - intros item. split.
    + intros Hnot. pose proof (fetch_fails_or_gives w repo item) as Hcase.
      destruct (fetch w repo item) as [source |]; [by exists source | done].
    + intros [source Hgives%good_fetch_gives_text] Hfail%failed_fetch_gives_none.
      congruence.
  - eexists _, (fetched_texts w repo kept).
    split; [by apply compute_metrics_returns |].
    split; [apply fetched_texts_are_read |]. done.
Qed.

Lemma failed_fetch_is_skipped_sample :
  get_tree_for_ref patchy_remote "o/r" "c2" = Returned patchy_tree
  /\ fetch_fails patchy_remote "o/r" (blob "src/empty.js" "sha-empty" 40)
  /\ fetch_fails patchy_remote "o/r" (blob "src/plain.js" "sha-plain" 40)
  /\ fetch_fails patchy_remote "o/r" (blob "src/cut.js" "sha-cut" 40)
  /\ fetch_gives patchy_remote "o/r" (blob "src/ok.js" "sha-ok" 15) "if (x) { y(); }"
  /\ (forall st,
        visit_blob patchy_remote "o/r" st (blob "src/empty.js" "sha-empty" 40)
        = Returned (mkPass (total_loc st) (complexity_vals st) (processed_files st)
                           (fetched st ++ ["sha-empty"%string])))
  /\ exists m,
       compute_metrics_from_commit patchy_remote "o/r" "c2" 200
         = Returned (m, ["sha-ok"; "sha-empty"; "sha-plain"; "sha-cut"; "sha-odd";
                         "sha-bare"]%string)
       /\ files_processed m = 1
       /\ lines_of_code m = 1.
Proof.
  assert (Hempty : fetch_fails patchy_remote "o/r" (blob "src/empty.js" "sha-empty" 40)).
  { eapply status_not_200; [reflexivity | done]. }
  split; [reflexivity |]. split; [exact Hempty |].
  split; [by eapply encoding_not_base64 |].
  split; [by eapply request_raised |].
  split; [by eexists _, _, _ |].
  destruct (failed_fetch_is_skipped patchy_remote "o/r" "c2" 200 patchy_tree eq_refl)
    as (Hskip & _ & m & texts & Hm & _).
  split; [intros st; exact (Hskip st _ Hempty) |].
  exists m. split; [exact Hm |].
  vm_compute in Hm. injection Hm as <-. split; reflexivity.
Defined.

(** A limit of 0 is false for the test [if file_limit and ...]: nothing is
    cut, and all three qualifying blobs are fetched. *)
Lemma zero_limit_fetches_all :
  compute_metrics_from_commit sample_remote "o/r" "c2" 0
  = Returned (mkMetrics 2 0 2, ["sha-a"; "sha-b"; "sha-c"]%string)
  /\ length (candidate_blobs sample_tree) = 3%nat
  /\ ~ fetches_never_exceed_limit.
Proof.
  split; [reflexivity |]. split; [reflexivity |].
  intros H.
  specialize (H sample_remote "o/r"%string "c2"%string 0 _ _ eq_refl sample_tree eq_refl).
  cbn in H. lia.
Qed.

Lemma limit_blobs_positive (candidates : list tree_item) (file_limit : Z) :
  0 < file_limit ->
  limit_blobs candidates file_limit = take (Z.to_nat file_limit) candidates.
Proof.
  intros Hpos. unfold limit_blobs, slice_to, truthy_int.
  destruct (Z.eqb_spec file_limit 0); [lia |]. cbn [negb andb].
  destruct (Z.ltb_spec file_limit (Z.of_nat (length candidates))).
  - destruct (Z.leb_spec 0 file_limit); [done | lia].
  - rewrite take_ge; [done | lia].
Qed.

(** C6, as the code has it.  For a positive limit the blobs fetched are
    those of the first [file_limit] qualifying blobs, in tree order, one
    fetch each, so their number is the smaller of the limit and the number
    of qualifying blobs; a limit of 0 leaves the qualifying blobs uncut. *)
Theorem fetches_are_a_prefix (w : remote) (repo commit_sha : string)
    (file_limit : Z) (tree_items : list tree_item) :
  get_tree_for_ref w repo commit_sha = Returned tree_items ->
  exists m log,
    compute_metrics_from_commit w repo commit_sha file_limit = Returned (m, log)
    /\ (0 < file_limit ->
        log = map sha (take (Z.to_nat file_limit) (candidate_blobs tree_items))
        /\ Z.of_nat (length log)
           = Z.min file_limit (Z.of_nat (length (candidate_blobs tree_items))))
    /\ (file_limit = 0 -> log = map sha (candidate_blobs tree_items)).
Proof.
  intros Htree. eexists _, _.
  split; [by apply compute_metrics_returns |]. split.
  - intros Hpos. rewrite limit_blobs_positive by done.
    split; [done |]. rewrite length_map, length_take. lia.
  - by intros ->.
Qed.

Lemma fetches_are_a_prefix_sample :
  get_tree_for_ref sample_remote "o/r" "c2" = Returned sample_tree
  /\ exists m log,
       compute_metrics_from_commit sample_remote "o/r" "c2" 2 = Returned (m, log)
       /\ (0 < 2 -> log = ["sha-a"; "sha-b"]%string).
Proof.
  split; [reflexivity |].
  destruct (fetches_are_a_prefix sample_remote "o/r" "c2" 2 sample_tree eq_refl)
    as (m & log & Hm & Hpos & _).
  exists m, log. split; [exact Hm |].
  intros H. exact (proj1 (Hpos H)).
Defined.

(** Two fetched files with one [if] each and no function: the keyword
    heuristic gives 2 / 2 = 1, the analyzer without [lizard] gives 0. *)
Lemma no_keyword_fallback :
  lizard sample_remote = None
  /\ compute_metrics_from_commit sample_remote "o/r" "c2" 200
     = Returned (mkMetrics 2 0 2, ["sha-a"; "sha-b"; "sha-c"]%string)
  /\ analyze_contents
       (as_contents (fetched_texts sample_remote "o/r" (candidate_blobs sample_tree)))
     = mkHeuristic 2 1
  /\ ~ fallback_uses_keywords.
Proof.
  split; [reflexivity |]. split; [reflexivity |]. split; [reflexivity |].
  intros H.
  specialize (H sample_remote "o/r"%string "c2"%string 200 _ _ sample_tree
                eq_refl eq_refl eq_refl).
  vm_compute in H. discriminate H.
Qed.

Lemma analyze_contents_fold (contents : list source_file) :
  forall acc,
    fold_left add_file contents acc
    = mkTotals
        (ComputeJsMetrics.total_loc acc + Zsum (map file_loc contents))
        (total_functions acc + Zsum (map file_functions contents))
        (total_complexity_contrib acc + Zsum (map file_contribution contents)).
Proof.
  induction contents as [| file contents IH]; intros acc.
  - cbn. rewrite !Z.add_0_r. by destruct acc.
  - cbn [fold_left map]. rewrite IH. unfold Zsum. cbn [fold_right].
    unfold add_file, file_loc, file_functions, file_contribution.
    destruct (truthy_str (source file)); cbn [negb].
    + destruct (_ && _); cbn; f_equal; lia.
    + f_equal; lia.
Qed.

Lemma no_analyzer_no_complexities (w : remote) (texts : list (tree_item * string)) :
  lizard w = None -> flat_map (complexities_of w) texts = [].
Proof.
  intros Hnone. induction texts as [| it texts IH]; [done |].
  cbn. rewrite IH. unfold complexities_of, analyze_source_complexity.
  by rewrite Hnone.
Qed.

(** C9, as the code has it.  The blob-based analyzer has no keyword
    fallback: without a structural analyzer every snapshot it returns has
    [avg_complexity] 0.  The keyword heuristic is the separate routine
    [analyze_contents], whatever analyzer is installed: over the files
    with a non-empty source it adds the lines, the key words plus
    functions, and the functions (one for a file with key words and no
    function), and it answers the quotient of the last two, as the float
    it is, rounded to four decimals, or 0 when no function was counted. *)
Theorem keyword_heuristic_is_separate (w : remote) (repo commit_sha : string)
    (file_limit : Z) (contents : list source_file) :
  lizard w = None ->
  (forall m log,
     compute_metrics_from_commit w repo commit_sha file_limit = Returned (m, log) ->
     avg_complexity m = 0%Q)
  /\ analyze_contents contents
     = mkHeuristic
         (Zsum (map file_loc contents))
         (round4
            (if 0 <? Zsum (map file_functions contents)
             then (inject_Z (Zsum (map file_contribution contents))
                   / inject_Z (Zsum (map file_functions contents)))%Q
             else 0%Q)).
Proof.
  intros Hnone. split.
  - intros m log Hm.
    destruct (get_tree_for_ref w repo commit_sha) as [tree_items | e] eqn:Htree.
    + rewrite (compute_metrics_returns _ _ _ _ _ Htree) in Hm.
      injection Hm as <- _. cbn [avg_complexity].
      by rewrite no_analyzer_no_complexities.
    + unfold compute_metrics_from_commit in Hm. by rewrite Htree in Hm.
  - unfold analyze_contents. rewrite analyze_contents_fold. cbn. reflexivity.
Qed.

Lemma keyword_heuristic_sample :
  lizard sample_remote = None
  /\ (forall m log,
        compute_metrics_from_commit sample_remote "o/r" "c2" 200 = Returned (m, log) ->
        avg_complexity m = 0%Q)
  /\ h_avg_complexity
       (analyze_contents [mkSourceFile "a.js" "if (x) { y(); }";
                          mkSourceFile "b.js" "function f(a) { return a && 1; }";
                          mkSourceFile "c.js" EmptyString])
     = (3 # 2)%Q
  /\ Zsum (map file_contribution [mkSourceFile "d.js" (arrows 160)]) = 161
  /\ Zsum (map file_functions [mkSourceFile "d.js" (arrows 160)]) = 160
  /\ h_avg_complexity (analyze_contents [mkSourceFile "d.js" (arrows 160)])
     = (10063 # 10000)%Q.
Proof.
  split; [reflexivity |].
  destruct (keyword_heuristic_is_separate sample_remote "o/r" "c2" 200
              [mkSourceFile "a.js" "if (x) { y(); }";
               mkSourceFile "b.js" "function f(a) { return a && 1; }";
               mkSourceFile "c.js" EmptyString] eq_refl) as [Hzero Hheur].
  destruct (keyword_heuristic_is_separate sample_remote "o/r" "c2" 200
              [mkSourceFile "d.js" (arrows 160)] eq_refl) as [_ Harrows].
  split; [exact Hzero |].
  split; [rewrite Hheur; reflexivity |].
  split; [vm_compute; reflexivity |]. split; [vm_compute; reflexivity |].
  rewrite Harrows. vm_compute. reflexivity.
Defined.

End BlobAnalyzer.

(* ===================================================================== *)
(** ** The mining orchestrator                                            *)
(* ===================================================================== *)

Module Orchestrator.

Import Metrics FindDependencyReplacements Samples Statements.

Lemma emitted_from_further full_name sha parent_sha before_entry after_entry r rs cand :
  emitted_from full_name sha parent_sha before_entry after_entry rs cand ->
  emitted_from full_name sha parent_sha before_entry after_entry (r :: rs) cand.
Proof.
  intros (? & ? & ? & ? & ? & r' & Hin & ?). repeat split; try done.
  exists r'. split; [by apply list_elem_of_further | done].
Qed.

(** The inner loop only appends, and it appends at least the record of
    the first removed dependency. *)
Lemma emit_appends (w : remote) (o : options) (full_name sha parent_sha : string)
    (detail : commit_detail) (before_entry after_entry : metrics_entry)
    (rs : list removed_entry) :
  forall results cache,
  exists news,
    (emit w o full_name sha parent_sha detail before_entry after_entry
       rs results cache).1 = results ++ news
    /\ Forall (emitted_from full_name sha parent_sha before_entry after_entry rs) news
    /\ match rs with
       | [] => news = []
       | r :: _ => exists more first,
           news = first :: more /\ cand_removed_dep first = r_name r
       end.
Proof.
  induction rs as [| r rs IH]; intros results cache.
  - exists []. cbn. by rewrite app_nil_r.
  - cbn [emit].
    destruct (get_cve_for_package (osv_post w) (r_name r) cache) as [[cve cache'] posts].
    set (cand := mkCandidate _ _ _ _ _ _ _ _ _ _ _ _ _ _).
    assert (Hcand : emitted_from full_name sha parent_sha before_entry after_entry
                      (r :: rs) cand).
    { repeat split. exists r. split; [apply list_elem_of_here | done]. }
    destruct (cap_reached o (results ++ [cand])).
    + exists [cand]. split; [done |]. split; [by constructor |]. by exists [], cand.
    + destruct (IH (results ++ [cand]) cache') as (news & -> & Hall & _).
      exists (cand :: news). split; [by rewrite <- app_assoc |].
      split; [| by exists news, cand].
      constructor; [done |].
      eapply Forall_impl; [exact Hall |]. intros c. apply emitted_from_further.
Qed.

(** An entry of [removed_list] comes from a manifest file of the commit
    and from a name of the removed-map of its patch. *)
Lemma removed_list_origin (detail : commit_detail) (r : removed_entry) :
  r ∈ removed_list_of detail ->
  exists f,
    f ∈ files detail
    /\ is_manifest (filename f) = true
    /\ r_file r = filename f
    /\ (parse_removed_added_from_patch (default EmptyString (patch f))).1 <> []
    /\ is_Some (dict_get (r_name r)
                  (parse_removed_added_from_patch (default EmptyString (patch f))).1).
Proof.
  unfold removed_list_of. rewrite list_elem_of_In, in_flat_map.
  intros (f & Hf & Hr). apply list_elem_of_In in Hf, Hr.
  exists f. split; [done |].
  unfold removed_of_file in Hr.
  destruct (is_manifest (filename f)); cbn [negb] in Hr; [| by apply elem_of_nil in Hr].
  split; [done |].
  pose proof (DependencyDiff.record_matches_NoDup
                (finditer _pkg_line_re (default EmptyString (patch f))) [] []
                (NoDup_nil_2)) as Hnd.
  rewrite <- DependencyDiff.parse_is_fold in Hnd.
  destruct (parse_removed_added_from_patch (default EmptyString (patch f)))
    as [removed added].
  apply list_elem_of_fmap in Hr as ([k v] & -> & Hkv). cbn.
  split; [done |]. split.
  - intros ->. by apply elem_of_nil in Hkv.
  - exists v. by apply DependencyDiff.dict_get_elem.
Qed.

(** The step that adds nothing. *)
Local Ltac nothing_added := exists []; by rewrite app_nil_r.

Lemma visit_commit_appends (w : remote) (o : options) (full_name : string)
    (c : commit) (results : list candidate) (cache : gmap string cve_entry) :
  exists news,
    (visit_commit w o full_name c results cache).1 = results ++ news
    /\ Forall (origin w full_name c) news.
Proof.
  unfold visit_commit.
  destruct (c_parents c) as [| parent_sha rest] eqn:Hparents; [nothing_added |].
  destruct (get_commit_detail w full_name (c_sha c)) as [detail |] eqn:Hdetail;
    [| nothing_added].
  destruct (removed_list_of detail) as [| r rs] eqn:Hremoved; [nothing_added |].
  edestruct emit_appends as (news & Hnews & Hall & _).
  exists news. split; [exact Hnews |].
  eapply Forall_impl; [exact Hall |].
  intros cand (Hrepo & Hcommit & Hparent & _ & _ & r' & Hin & Hname & Hfile).
  rewrite <- Hremoved in Hin.
  apply removed_list_origin in Hin as (f & Hf & Hmanifest & Hrfile & Hnonempty & Hget).
  split; [done |]. split; [done |].
  split; [exists rest; by rewrite Hparent |].
  exists detail, f. rewrite Hname, Hfile. done.
Qed.

Lemma visit_commits_appends (w : remote) (o : options) (full_name : string)
    (commits : list commit) :
  forall results cache,
  exists news,
    (visit_commits w o full_name commits results cache).1 = results ++ news
    /\ Forall (fun cand => exists c, c ∈ commits /\ origin w full_name c cand) news.
Proof.
  induction commits as [| c commits IH]; intros results cache.
  - exists []. cbn. by rewrite app_nil_r.
  - cbn [visit_commits].
    destruct (cap_reached o results); [nothing_added |].
    destruct (visit_commit_appends w o full_name c results cache)
      as (news1 & Hnews1 & Hall1).
    destruct (visit_commit w o full_name c results cache) as [results' cache'].
    cbn in Hnews1. subst results'.
    destruct (IH (results ++ news1) cache') as (news2 & -> & Hall2).
    exists (news1 ++ news2). split; [by rewrite app_assoc |].
    apply Forall_app. split.
    + eapply Forall_impl; [exact Hall1 |]. intros cand Horigin.
      exists c. split; [apply list_elem_of_here | done].
    + eapply Forall_impl; [exact Hall2 |]. intros cand (c' & Hin & Horigin).
      exists c'. split; [by apply list_elem_of_further | done].
Qed.

Lemma slice_to_sub {A} (l : list A) (n : Z) (x : A) : x ∈ slice_to l n -> x ∈ l.
Proof. unfold slice_to. destruct (0 <=? n); apply subseteq_take. Qed.

Lemma considered_sub (w : remote) (o : options) (commits : list commit) (c : commit) :
  c ∈ considered w o commits -> c ∈ commits.
Proof.
  unfold considered. intros Hc.
  assert (Hfiltered : c ∈ (if truthy_int (days_back o)
                           then filter (fun c => Is_true (keep_by_date w o c)) commits
                           else commits) -> c ∈ commits).
  { destruct (truthy_int (days_back o)); [| done].
    rewrite list_elem_of_filter. tauto. }
  apply Hfiltered.
  destruct (truthy_int (limit_commits o)); [by eapply slice_to_sub | done].
Qed.

(** A commit that only adds a dependency to [package.json] and removes
    lodash from [tools/PACKAGE.JSON] gives a record for the latter: the
    test lowers the file name before it compares. *)
Lemma capitals_manifest_is_mined :
  map cand_file (analyze_repo capitals_remote (sample_options 200) "o/r").1
    = ["tools/PACKAGE.JSON"%string]
  /\ map cand_removed_dep (analyze_repo capitals_remote (sample_options 200) "o/r").1
    = ["lodash"%string]
  /\ endswith "tools/PACKAGE.JSON" "package.json" = false
  /\ (parse_removed_added_from_patch addition_patch).1 = []
  /\ ~ candidates_name_a_manifest.
Proof.
  split; [reflexivity |]. split; [reflexivity |]. split; [reflexivity |].
  split; [reflexivity |].
  intros H.
  destruct (analyze_repo capitals_remote (sample_options 200) "o/r").1
    as [| cand rest] eqn:Hrun; [discriminate Hrun |].
  destruct (H capitals_remote (sample_options 200) "o/r"%string cand)
    as (c & Hc & _ & _ & detail & f & Hdetail & Hf & Hends & Hremoved).
  { rewrite Hrun. apply list_elem_of_here. }
  cbn in Hc. rewrite !elem_of_cons, elem_of_nil in Hc.
  destruct Hc as [-> | [-> | []]]; cbn in Hdetail; [| discriminate Hdetail].
  injection Hdetail as <-. cbn in Hf. rewrite !elem_of_cons, elem_of_nil in Hf.
  destruct Hf as [-> | [-> | []]].
  - by apply Hremoved.
  - discriminate Hends.
Qed.

(** C7, as the code has it.  Every record [analyze_repo] returns comes
    from a commit of the listing that has a parent (the record's parent is
    the first one) and a detail, in which a file whose lower-cased name
    ends with [package.json] has a patch with a non-empty removed-map that
    holds the record's dependency; the record names that file. *)
Theorem candidates_come_from_manifest_removals (w : remote) (o : options)
    (full_name : string) (cand : candidate) :
  cand ∈ (analyze_repo w o full_name).1 ->
  exists c, c ∈ list_commits_touching_path w full_name /\ origin w full_name c cand.
Proof.
  unfold analyze_repo.
  destruct (list_commits_touching_path w full_name) as [| c0 commits] eqn:Hlist.
  { cbn. intros H. by apply elem_of_nil in H. }
  rewrite <- Hlist.
  destruct (visit_commits_appends w o full_name
              (considered w o (list_commits_touching_path w full_name)) []
              (load_osv_cache (osv_file w))) as (news & Hnews & Hall).
  destruct (visit_commits w o full_name _ [] _) as [results cache].
  cbn in Hnews |- *. subst results. intros Hcand.
  rewrite Forall_forall in Hall.
  destruct (Hall cand Hcand) as (c & Hc & Horigin).
  exists c. split; [by eapply considered_sub | done].
Qed.

Lemma lodash_candidate_origin :
  lodash_candidate ∈ (analyze_repo sample_remote (sample_options 200) "o/r").1
  /\ exists c, c ∈ list_commits_touching_path sample_remote "o/r"
               /\ origin sample_remote "o/r" c lodash_candidate.
Proof.
  assert (Hin : lodash_candidate
                ∈ (analyze_repo sample_remote (sample_options 200) "o/r").1).
  { apply list_elem_of_here. }
  split; [exact Hin |].
  exact (candidates_come_from_manifest_removals sample_remote (sample_options 200)
           "o/r" lodash_candidate Hin).
Defined.



End Orchestrator.

(* ===================================================================== *)
(** ** The request layer, further                                         *)
(* ===================================================================== *)

Module RequestLayerMore.

Import Samples Statements Observations.

Lemma sleep_lengths_app (a b : list event) :
  sleep_lengths (a ++ b) = sleep_lengths a ++ sleep_lengths b.
Proof. unfold sleep_lengths. apply omap_app. Qed.

Lemma requests_app (a b : list event) :
  requests_of (a ++ b) = requests_of a ++ requests_of b.
Proof. apply filter_app. Qed.

Lemma requests_of_sleeps (naps : list Q) : requests_of (map Sleep naps) = [].
Proof. induction naps as [| d naps IH]; [done | exact IH]. Qed.

Lemma sleep_lengths_sleeps (naps : list Q) : sleep_lengths (map Sleep naps) = naps.
Proof. induction naps as [| d naps IH]; [done |]. cbn. by f_equal. Qed.

(** One iteration of the loop, flattened: what the attempt does, the
    events it leaves and how the loop goes on. *)
Lemma attempts_loop_step {B} (t : transport B) (url : string)
    (remaining attempt : nat) (last_exc : option exn) :
  attempts_loop t url (S remaining) attempt last_exc
  = let go last_exc' evs :=
      (fst (attempts_loop t url remaining (S attempt) last_exc'),
       evs ++ snd (attempts_loop t url remaining (S attempt) last_exc')) in
    let nap resp :=
      Sleep (_sleep_backoff (S attempt) resp (clock t (S attempt))
               (jitter t (S attempt)) (longest t (S attempt))) in
    match send t (S attempt) with
    | Returned resp =>
        if status_code resp <? 400 then (Returned resp, [Request (S attempt)])
        else if is_retry_status (status_code resp) then
          go (Some (StatusException (status_code resp) (text resp) url))
             [Request (S attempt); nap (Some resp)]
        else if (400 <=? status_code resp) && (status_code resp <? 600) then
          go (Some (HTTPError (status_code resp) (text resp)))
             [Request (S attempt); nap None]
        else go last_exc [Request (S attempt)]
    | Raised e =>
        if is_RequestException e then go (Some e) [Request (S attempt); nap None]
        else (Raised e, [Request (S attempt)])
    end.
Proof.
  cbn [attempts_loop]. unfold try_block, raise_for_status.
  destruct (send t (S attempt)) as [resp | e].
  - destruct (status_code resp <? 400); [reflexivity |].
    destruct (is_retry_status (status_code resp)).
    + by destruct (attempts_loop t url remaining (S attempt) _).
    + destruct ((400 <=? status_code resp) && (status_code resp <? 600)); cbn.
      * by destruct (attempts_loop t url remaining (S attempt) _).
      * by destruct (attempts_loop t url remaining (S attempt) _).
  - destruct (is_RequestException e); [| reflexivity].
    by destruct (attempts_loop t url remaining (S attempt) _).
Qed.

(** A response the loop returns is the answer of one of the attempts it
    was still allowed, and its status is below 400. *)
Lemma returned_by_an_attempt {B} (t : transport B) (url : string)
    (remaining : nat) :
  forall attempt last_exc resp,
    fst (attempts_loop t url remaining attempt last_exc) = Returned resp ->
    exists k, (attempt < k <= attempt + remaining)%nat
              /\ send t k = Returned resp /\ status_code resp < 400.
Proof.
  induction remaining as [| remaining IH]; intros attempt last_exc resp.
  - cbn. by destruct last_exc.
  - rewrite attempts_loop_step. cbv zeta.
    assert (Hgo : forall last_exc',
              fst (attempts_loop t url remaining (S attempt) last_exc') = Returned resp ->
              exists k, (attempt < k <= attempt + S remaining)%nat
                        /\ send t k = Returned resp /\ status_code resp < 400).
    { intros last_exc' H. destruct (IH _ _ _ H) as (k & Hk & Hsend & Hstatus).
      exists k. split; [lia | done]. }
    destruct (send t (S attempt)) as [resp' | e] eqn:Hsend.
    + destruct (Z.ltb_spec (status_code resp') 400).
      * cbn. intros [= <-]. exists (S attempt). split; [lia | done].
      * destruct (is_retry_status (status_code resp')); [apply Hgo |].
        destruct (_ && _); apply Hgo.
    + destruct (is_RequestException e); [apply Hgo | done].
Qed.

(** X1.  Whatever the transport does and whatever the budget, a response
    that [request_with_backoff] returns is the unchanged answer of one of
    the attempts 1 to [max_retries], and its status is below 400: no
    caller ever sees a status of 400 or more on a returned response. *)
Theorem returned_status_below_400 {B} (t : transport B) (url : string)
    (max_retries : nat) (resp : response B) :
  fst (request_with_backoff t url max_retries) = Returned resp ->
  exists k, (1 <= k <= max_retries)%nat
            /\ send t k = Returned resp /\ status_code resp < 400.
Proof.
  intros H. destruct (returned_by_an_attempt t url max_retries 0 None resp H)
    as (k & Hk & Hsend & Hstatus).
  exists k. split; [lia | done].
Qed.

Lemma returned_status_below_400_sample :
  fst (request_with_backoff flaky_then_fine "u" default_max_retries)
    = Returned (answer 200 [] "fine")
  /\ exists k, (1 <= k <= default_max_retries)%nat
               /\ send flaky_then_fine k = Returned (answer 200 [] "fine")
               /\ status_code (answer 200 [] "fine") < 400.
Proof.
  split; [reflexivity |].
  apply (returned_status_below_400 flaky_then_fine "u" default_max_retries).
  reflexivity.
Defined.

(** The budget bounds the loop for every transport. *)
Lemma loop_within_budget {B} (t : transport B) (url : string) (remaining : nat) :
  forall attempt last_exc,
  exists k, (k <= remaining)%nat
    /\ requests_of (snd (attempts_loop t url remaining attempt last_exc))
       = map Request (seq (S attempt) k)
    /\ (length (sleep_lengths (snd (attempts_loop t url remaining attempt last_exc)))
        <= k)%nat.
Proof.
  induction remaining as [| remaining IH]; intros attempt last_exc.
  - exists 0%nat. cbn. by destruct last_exc.
  - rewrite attempts_loop_step. cbv zeta.
    assert (Hstop : forall r : outcome (response B),
              exists k, (k <= S remaining)%nat
                /\ requests_of (snd (r, [Request (S attempt)]))
                   = map Request (seq (S attempt) k)
                /\ (length (sleep_lengths (snd (r, [Request (S attempt)]))) <= k)%nat).
    { intros r. exists 1%nat. split; [lia |]. split; [done | cbn; lia]. }
    assert (Hgo : forall last_exc' naps,
              (length naps <= 1)%nat ->
              exists k, (k <= S remaining)%nat
                /\ requests_of
                     (Request (S attempt) :: map Sleep naps
                        ++ snd (attempts_loop t url remaining (S attempt) last_exc'))
                   = map Request (seq (S attempt) k)
                /\ (length (sleep_lengths
                       (Request (S attempt) :: map Sleep naps
                          ++ snd (attempts_loop t url remaining (S attempt) last_exc')))
                    <= k)%nat).
    { intros last_exc' naps Hnaps.
      destruct (IH (S attempt) last_exc') as (k & Hk & Hreq & Hsleep).
      exists (S k). split; [lia |].
      change (Request (S attempt) :: ?l) with ([Request (S attempt)] ++ l).
      rewrite !requests_app, !sleep_lengths_app, Hreq, !length_app.
      rewrite requests_of_sleeps, sleep_lengths_sleeps.
      split; [done | cbn; lia]. }
    destruct (send t (S attempt)) as [resp | e].
    + destruct (status_code resp <? 400); [apply Hstop |].
      destruct (is_retry_status (status_code resp));
        [apply (Hgo _ [_]); cbn; lia |].
      destruct (_ && _); [apply (Hgo _ [_]); cbn; lia | apply (Hgo _ []); cbn; lia].
    + destruct (is_RequestException e); [apply (Hgo _ [_]); cbn; lia | apply Hstop].
Qed.

(** X2.  For every transport and every budget, the requests of a call are
    the attempts 1, 2, ..., k in order for some k no larger than the
    budget, and the call sleeps at most once per request: it never goes
    beyond [max_retries] attempts. *)
Theorem attempts_within_budget {B} (t : transport B) (url : string)
    (max_retries : nat) :
  exists k, (k <= max_retries)%nat
    /\ requests_of (snd (request_with_backoff t url max_retries))
       = map Request (seq 1 k)
    /\ (length (sleep_lengths (snd (request_with_backoff t url max_retries)))
        <= k)%nat.
Proof. apply loop_within_budget. Qed.

(** After [count] failures that the loop answers by backing off, it
    stands at the next attempt with one request and one sleep left behind
    per failure. *)
Lemma retryable_prefix {B} (t : transport B) (url : string) (count : nat) :
  forall remaining attempt last_exc,
    all_retryable t (S attempt) count ->
    exists pre last_exc',
      attempts_loop t url (count + remaining) attempt last_exc
      = (fst (attempts_loop t url remaining (attempt + count) last_exc'),
         pre ++ snd (attempts_loop t url remaining (attempt + count) last_exc'))
      /\ requests_of pre = map Request (seq (S attempt) count)
      /\ length (sleep_lengths pre) = count.
Proof.
  induction count as [| count IH]; intros remaining attempt last_exc Hall.
  - exists [], last_exc. rewrite Nat.add_0_r. cbn.
    by destruct (attempts_loop t url remaining attempt last_exc).
  - assert (Hfirst : retryable_failure (send t (S attempt))) by (apply Hall; lia).
    assert (Hrest : all_retryable t (S (S attempt)) count).
    { intros i Hi. apply Hall. lia. }
    cbn [Nat.add]. rewrite attempts_loop_step. cbv zeta.
    assert (Hgo : forall last_exc1 nap,
              exists pre last_exc',
                (fst (attempts_loop t url (count + remaining) (S attempt) last_exc1),
                 [Request (S attempt); Sleep nap]
                   ++ snd (attempts_loop t url (count + remaining) (S attempt) last_exc1))
                = (fst (attempts_loop t url remaining (attempt + S count) last_exc'),
                   pre ++ snd (attempts_loop t url remaining (attempt + S count) last_exc'))
                /\ requests_of pre = map Request (seq (S attempt) (S count))
                /\ length (sleep_lengths pre) = S count).
    { intros last_exc1 nap.
      destruct (IH remaining (S attempt) last_exc1 Hrest)
        as (pre & last_exc' & -> & Hreq & Hsleep).
      exists ([Request (S attempt); Sleep nap] ++ pre), last_exc'.
      replace (attempt + S count)%nat with (S attempt + count)%nat by lia.
      cbn [fst snd]. rewrite app_assoc. split; [done |].
      rewrite requests_app, sleep_lengths_app, length_app, Hreq, Hsleep. done. }
    unfold retryable_failure in Hfirst.
    destruct (send t (S attempt)) as [resp | e].
    + destruct (Z.ltb_spec (status_code resp) 400) as [Hlow | _].
      * exfalso. unfold is_retry_status, retry_statuses in Hfirst. cbn in Hfirst.
        rewrite !orb_true_iff, !Z.eqb_eq in Hfirst. lia.
      * rewrite Hfirst. apply Hgo.
    + rewrite Hfirst. apply Hgo.
Qed.

(** X3.  When the attempts before the k-th all end in a network-level
    failure or a status of the retry set, and the k-th, within the budget,
    is answered with a status below 400, the call returns that answer
    after exactly k requests and k - 1 sleeps. *)
Theorem first_success_is_returned {B} (t : transport B) (url : string)
    (max_retries k : nat) (resp : response B) :
  (1 <= k <= max_retries)%nat ->
  all_retryable t 1 (k - 1) ->
  send t k = Returned resp ->
  status_code resp < 400 ->
  fst (request_with_backoff t url max_retries) = Returned resp
  /\ requests_of (snd (request_with_backoff t url max_retries))
     = map Request (seq 1 k)
  /\ length (sleep_lengths (snd (request_with_backoff t url max_retries)))
     = (k - 1)%nat.
Proof.
  intros Hk Hall Hsend Hstatus. unfold request_with_backoff.
  replace max_retries with ((k - 1) + S (max_retries - k))%nat by lia.
  destruct (retryable_prefix t url (k - 1) (S (max_retries - k)) 0 None Hall)
    as (pre & last_exc' & -> & Hreq & Hsleep).
  rewrite attempts_loop_step. cbv zeta.
  replace (S (0 + (k - 1))) with k by lia. rewrite Hsend.
  destruct (Z.ltb_spec (status_code resp) 400); [| lia]. cbn [fst snd].
  split; [done |].
  rewrite requests_app, sleep_lengths_app, length_app, Hreq, Hsleep.
  split; [| cbn; lia].
  change (requests_of [Request k]) with [Request k].
  replace k with (S (k - 1)) at 3 by lia.
  rewrite seq_S, map_app. cbn. repeat f_equal. lia.
Qed.

Lemma first_success_is_returned_sample :
  (1 <= 3 <= default_max_retries)%nat
  /\ all_retryable flaky_then_fine 1 (3 - 1)
  /\ request_with_backoff flaky_then_fine "u" default_max_retries
     = (Returned (answer 200 [] "fine"),
        [Request 1; Sleep 3; Request 2; Sleep 6; Request 3]).
Proof.
  assert (Hall : all_retryable flaky_then_fine 1 (3 - 1)).
  { intros i Hi. assert (i = 1 \/ i = 2)%nat as [-> | ->] by lia; reflexivity. }
  split; [unfold default_max_retries; lia |]. split; [exact Hall |].
  pose proof (first_success_is_returned flaky_then_fine "u" default_max_retries 3
                (answer 200 [] "fine")
                ltac:(unfold default_max_retries; lia) Hall eq_refl ltac:(cbn; lia))
    as [Hfst _].
  destruct (request_with_backoff flaky_then_fine "u" default_max_retries)
    as [r evs] eqn:Hrun.
  cbn in Hfst. subst r. f_equal.
  apply (f_equal snd) in Hrun. cbn in Hrun. by subst evs.
Defined.

(** X4.  An exception of [s.request] that is no [RequestException] is not
    retried: raised at the k-th attempt, after failures the loop backed
    off from, it leaves the call at once, with no sleep after it. *)
Theorem other_exception_escapes {B} (t : transport B) (url : string)
    (max_retries k : nat) (e : exn) :
  (1 <= k <= max_retries)%nat ->
  all_retryable t 1 (k - 1) ->
  send t k = Raised e ->
  is_RequestException e = false ->
  fst (request_with_backoff t url max_retries) = Raised e
  /\ requests_of (snd (request_with_backoff t url max_retries))
     = map Request (seq 1 k)
  /\ length (sleep_lengths (snd (request_with_backoff t url max_retries)))
     = (k - 1)%nat.
Proof.
  intros Hk Hall Hsend Hclass. unfold request_with_backoff.
  replace max_retries with ((k - 1) + S (max_retries - k))%nat by lia.
  destruct (retryable_prefix t url (k - 1) (S (max_retries - k)) 0 None Hall)
    as (pre & last_exc' & -> & Hreq & Hsleep).
  rewrite attempts_loop_step. cbv zeta.
  replace (S (0 + (k - 1))) with k by lia. rewrite Hsend, Hclass. cbn [fst snd].
  split; [done |].
  rewrite requests_app, sleep_lengths_app, length_app, Hreq, Hsleep.
  split; [| cbn; lia].
  change (requests_of [Request k]) with [Request k].
  replace k with (S (k - 1)) at 3 by lia.
  rewrite seq_S, map_app. cbn. repeat f_equal. lia.
Qed.

Lemma other_exception_escapes_sample :
  (1 <= 2 <= default_max_retries)%nat
  /\ all_retryable broken_client 1 (2 - 1)
  /\ fst (request_with_backoff broken_client "u" default_max_retries)
     = Raised (TypeError "unhashable type")
  /\ requests_of (snd (request_with_backoff broken_client "u" default_max_retries))
     = [Request 1; Request 2].
Proof.
  assert (Hall : all_retryable broken_client 1 (2 - 1)).
  { intros i Hi. assert (i = 1)%nat as -> by lia. reflexivity. }
  split; [unfold default_max_retries; lia |]. split; [exact Hall |].
  destruct (other_exception_escapes broken_client "u" default_max_retries 2
              (TypeError "unhashable type")
              ltac:(unfold default_max_retries; lia) Hall eq_refl eq_refl)
    as (Hfst & Hreq & _).
  split; [exact Hfst | exact Hreq].
Defined.

Lemma unusable_retry_after {B} (resp : response B) (longest : Z) :
  no_usable_retry_after resp longest -> sleep_retry_after resp longest = None.
Proof.
  unfold no_usable_retry_after, sleep_retry_after, sleep_accepts.
  destruct (headers_get "Retry-After" (headers resp)) as [ra |]; [| done].
  destruct (int ra) as [r |]; [| by destruct (truthy_str ra)].
  intros Hr. destruct (truthy_str ra); [| done].
  destruct (Z.leb_spec 0 (r + 1)); [| done].
  destruct (Z.leb_spec (r + 1) longest); [lia | done].
Qed.


(** X5.  When the answer has no usable [Retry-After] but says that no
    request remains and names a reset time that reads as an integer, and
    the platform sleeps as long as it takes, the backoff sleeps until two
    seconds after that time, whatever the attempt and the jitter: the time
    left plus 2 when that is positive, and not at all when the reset lies
    two seconds or more in the past. *)
Theorem rate_limit_reset_sleep {B} (attempt : nat) (resp : response B) (now : Z)
    (jitter : Q) (longest : Z) (reset : string) (reset_ts : Z) :
  no_usable_retry_after resp longest ->
  headers_get "X-RateLimit-Remaining" (headers resp) = Some "0"%string ->
  headers_get "X-RateLimit-Reset" (headers resp) = Some reset ->
  int reset = Some reset_ts ->
  Z.max 0 (reset_ts - now + 2) <= longest ->
  _sleep_backoff attempt (Some resp) now jitter longest
    = inject_Z (Z.max 0 (reset_ts - now + 2))
  /\ (now <= reset_ts + 2 ->
      _sleep_backoff attempt (Some resp) now jitter longest
      = inject_Z (reset_ts - now + 2))
  /\ (reset_ts + 2 <= now ->
      _sleep_backoff attempt (Some resp) now jitter longest = 0%Q).
Proof.
  intros Hra Hremaining Hreset Hint Hlongest.
  assert (Hsleep : _sleep_backoff attempt (Some resp) now jitter longest
                   = inject_Z (Z.max 0 (reset_ts - now + 2))).
  { unfold _sleep_backoff. rewrite (unusable_retry_after resp longest Hra).
    unfold sleep_rate_limit_reset, sleep_accepts. rewrite Hremaining, Hreset.
    destruct reset as [| c reset']; [discriminate Hint |]. cbn [truthy_str].
    change (String.eqb "0" "0") with true. cbn [andb]. rewrite Hint. cbv zeta.
    destruct (Z.leb_spec 0 (Z.max 0 (reset_ts - now + 2))); [| lia].
    by destruct (Z.leb_spec (Z.max 0 (reset_ts - now + 2)) longest); [| lia]. }
  rewrite Hsleep. split; [done |]. split; intros H.
  - by rewrite Z.max_r by lia.
  - by rewrite Z.max_l by lia.
Qed.

Lemma rate_limit_reset_sleep_sample :
  no_usable_retry_after rate_limited Samples.usual_longest
  /\ Z.max 0 (1000 - 970 + 2) <= Samples.usual_longest
  /\ _sleep_backoff 3 (Some rate_limited) 970 (3 # 2) Samples.usual_longest = 32%Q.
Proof.
  split; [exact I |]. split; [unfold Samples.usual_longest; lia |].
  exact (proj1 (rate_limit_reset_sleep 3 rate_limited 970 (3 # 2)
                  Samples.usual_longest "1000" 1000 I eq_refl eq_refl eq_refl
                  ltac:(unfold Samples.usual_longest; lia))).
Defined.





(** X7.  Against a host that cannot be reached (every attempt raises a
    [RequestException]), a call with the default budget makes its six
    attempts, sleeps after each of them, the last included, and raises:
    with the jitter drawn from [0.5, 2.0] it has slept between 125 and 134
    seconds in all. *)
Theorem unreachable_host_delay {B} (t : transport B) (url : string) :
  network_down t ->
  (forall n, (1 # 2 <= jitter t n)%Q /\ (jitter t n <= 2)%Q) ->
  (exists e, fst (request_with_backoff t url default_max_retries) = Raised e)
  /\ length (sleep_lengths (snd (request_with_backoff t url default_max_retries)))
     = 6%nat
  /\ (125 <= total_sleep (snd (request_with_backoff t url default_max_retries)))%Q
  /\ (total_sleep (snd (request_with_backoff t url default_max_retries)) <= 134)%Q.
Proof.
  intros Hdown Hjitter. unfold request_with_backoff, default_max_retries.
  repeat (rewrite attempts_loop_step; cbv zeta;
          match goal with
          | |- context [send t ?k] => destruct (Hdown k) as (? & -> & ->)
          end; cbn [fst snd app]).
  cbn [attempts_loop fst snd].
  split; [by eexists |]. split; [reflexivity |].
  unfold total_sleep. cbn [sleep_lengths omap list_omap fold_right].
  unfold _sleep_backoff, sleep_exponential.
  destruct (Hjitter 1%nat), (Hjitter 2%nat), (Hjitter 3%nat), (Hjitter 4%nat),
    (Hjitter 5%nat), (Hjitter 6%nat).
  change (inject_Z (Z.min 60 (2 ^ Z.of_nat 1))) with 2%Q.
  change (inject_Z (Z.min 60 (2 ^ Z.of_nat 2))) with 4%Q.
  change (inject_Z (Z.min 60 (2 ^ Z.of_nat 3))) with 8%Q.
  change (inject_Z (Z.min 60 (2 ^ Z.of_nat 4))) with 16%Q.
  change (inject_Z (Z.min 60 (2 ^ Z.of_nat 5))) with 32%Q.
  change (inject_Z (Z.min 60 (2 ^ Z.of_nat 6))) with 60%Q.
  split; lra.
Qed.

Lemma unreachable_host_delay_sample :
  network_down (always (B:=unit) (Raised (ConnectionError "no route to host")))
  /\ total_sleep
       (snd (request_with_backoff
               (always (B:=unit) (Raised (ConnectionError "no route to host")))
               "u" default_max_retries))
     = 128%Q
  /\ (125 <= total_sleep
               (snd (request_with_backoff
                       (always (B:=unit) (Raised (ConnectionError "no route to host")))
                       "u" default_max_retries)))%Q.
Proof.
  assert (Hdown : network_down
                    (always (B:=unit) (Raised (ConnectionError "no route to host")))).
  { intros n. by eexists. }
  split; [exact Hdown |]. split; [reflexivity |].
  apply (unreachable_host_delay
           (always (B:=unit) (Raised (ConnectionError "no route to host"))) "u" Hdown).
  intros n. split; cbn; lra.
Defined.

End RequestLayerMore.

(* ===================================================================== *)
(** ** The vulnerability cache, further                                  *)
(* ===================================================================== *)

Module VulnerabilityCacheMore.
Import Metrics ComputeJsMetrics FindDependencyReplacements Samples Statements Observations.

Lemma lookup_is_stored (post : string -> outcome osv_response) (n : string)
    (cache : gmap string cve_entry) :
  (get_cve_for_package post n cache).1.2 !! n
  = Some (get_cve_for_package post n cache).1.1.
Proof.
  unfold get_cve_for_package.
  destruct (cache !! n) eqn:Hhit; [done |].
  destruct (osv_try post n) as [[result |] | e]; cbn; by rewrite lookup_insert_eq.
Qed.

(** X8.  [get_cve_for_package] memoizes whatever it answers: after a
    lookup the cache holds the answer under the name, a second lookup of
    the name answers the same from the cache, with any service behind it,
    posts nothing and leaves the cache as it is.  One lookup posts at most
    once, and only for a name the cache does not hold; the entries of the
    other names are not touched. *)
Theorem lookup_is_memoized (post : string -> outcome osv_response) (n : string)
    (cache : gmap string cve_entry) :
  let out := get_cve_for_package post n cache in
  (forall post', get_cve_for_package post' n out.1.2 = (out.1.1, out.1.2, []))
  /\ out.2 = match cache !! n with Some _ => [] | None => [n] end
  /\ (forall k, k <> n -> out.1.2 !! k = cache !! k).
Proof.
  cbn zeta. split; [| split].
  - intros post'. pose proof (lookup_is_stored post n cache) as Hstored.
    unfold get_cve_for_package at 1. by rewrite Hstored.
  - unfold get_cve_for_package. destruct (cache !! n); [done |].
    by destruct (osv_try post n) as [[result |] | e].
  - intros k Hk. unfold get_cve_for_package. destruct (cache !! n); [done |].
    destruct (osv_try post n) as [[result |] | e]; cbn; by rewrite lookup_insert_ne.
Qed.

(** X9.  When every entry of the cache counts the identifiers it lists, so
    does the answer of a lookup, and so does every entry of the cache
    afterwards: a count that disagrees with its list can only come from
    the cache file. *)
Theorem lookup_counts_identifiers (post : string -> outcome osv_response)
    (n : string) (cache : gmap string cve_entry) :
  counts_agree cache ->
  let out := get_cve_for_package post n cache in
  out.1.1.1 = Z.of_nat (length out.1.1.2) /\ counts_agree out.1.2.
Proof.
  intros Hcache. cbn zeta. unfold get_cve_for_package.
  destruct (cache !! n) as [hit |] eqn:Hhit.
  - cbn. split; [| done]. exact (Hcache n hit Hhit).
  - unfold osv_try. destruct (post n) as [r | e]; cbn.
    + destruct (osv_status r =? 200); cbn.
      * destruct (osv_ids r) as [vulns | e]; cbn;
          (split; [done |]); by apply map_Forall_insert_2.
      * split; [done |]. by apply map_Forall_insert_2.
    + split; [done |]. by apply map_Forall_insert_2.
Qed.

Lemma lookup_counts_identifiers_sample :
  counts_agree ∅
  /\ (get_cve_for_package service_two "lodash" ∅).1.1
     = (2, [Some "GHSA-1"%string; Some "GHSA-2"%string])
  /\ counts_agree (get_cve_for_package service_two "lodash" ∅).1.2.
Proof.
  assert (Hempty : counts_agree ∅) by apply map_Forall_empty.
  split; [exact Hempty |]. split; [reflexivity |].
  exact (proj2 (lookup_counts_identifiers service_two "lodash" ∅ Hempty)).
Defined.

End VulnerabilityCacheMore.

(* ===================================================================== *)
(** ** The blob analyzer, further                                        *)
(* ===================================================================== *)

Module BlobAnalyzerMore.
Import Metrics ComputeJsMetrics FindDependencyReplacements Samples Statements Observations.

Lemma existsb_elem {A} (f : A -> bool) (l : list A) :
  existsb f l = true <-> exists x, x ∈ l /\ f x = true.
Proof.
  rewrite existsb_exists. split; intros (x & Hx & Hf); exists x; split; auto;
    by apply list_elem_of_In.
Qed.

Lemma candidate_qualifies (item : tree_item) :
  is_candidate item = true -> qualifies item.
Proof.
  unfold is_candidate, qualifies. rewrite !andb_true_iff, !negb_true_iff.
  intros (((Htype & Hext) & Hskip) & Hsize). repeat split.
  - by apply String.eqb_eq.
  - by apply existsb_elem.
  - intros part Hpart. destruct (contains part (path item)) eqn:Hc; [| done].
    assert (existsb (fun p => contains p (path item)) SKIP_PATH_PARTS = true)
      by (apply existsb_elem; eauto).
    congruence.
  - intros bytes Hbytes. rewrite Hbytes in Hsize. cbn in Hsize.
    apply andb_false_iff in Hsize as [Hz | Hbig].
    + unfold truthy_int in Hz. apply negb_false_iff, Z.eqb_eq in Hz.
      subst. unfold MAX_BLOB_BYTES. lia.
    + apply Z.ltb_ge in Hbig. lia.
Qed.

Lemma limit_blobs_sublist (candidates : list tree_item) (file_limit : Z) :
  limit_blobs candidates file_limit `sublist_of` candidates.
Proof.
  unfold limit_blobs. case_match; [| done].
  unfold slice_to. repeat case_match; try done; try apply sublist_take; apply sublist_nil_l.
Qed.

Lemma snapshot_shape (w : remote) (repo commit_sha : string) (file_limit : Z)
    (m : metrics) (log : list string) :
  compute_metrics_from_commit w repo commit_sha file_limit = Returned (m, log) ->
  exists tree_items,
    get_tree_for_ref w repo commit_sha = Returned tree_items
    /\ let kept := limit_blobs (candidate_blobs tree_items) file_limit in
       let texts := fetched_texts w repo kept in
       log = map sha kept
       /\ m = mkMetrics
                (Zsum (map (loc_of w) texts))
                (round4 match flat_map (complexities_of w) texts with
                        | [] => 0%Q
                        | vals => mean vals
                        end)
                (Z.of_nat (length texts)).
Proof.
  intros Hrun.
  destruct (get_tree_for_ref w repo commit_sha) as [tree_items | e] eqn:Htree.
  - exists tree_items. split; [done |].
    rewrite (BlobAnalyzer.compute_metrics_returns w repo commit_sha file_limit tree_items Htree)
      in Hrun.
    by injection Hrun as <- <-.
  - unfold compute_metrics_from_commit in Hrun. by rewrite Htree in Hrun.
Qed.

Lemma fetched_texts_length (w : remote) (repo : string) (items : list tree_item) :
  (length (fetched_texts w repo items) <= length items)%nat.
Proof.
  unfold fetched_texts. induction items as [| item items IH]; [done |].
  cbn. destruct (fetch w repo item); cbn; lia.
Qed.

Lemma loc_sum_nonneg (w : remote) (texts : list (tree_item * string)) :
  0 <= Zsum (map (loc_of w) texts).
Proof.
  unfold Zsum. induction texts as [| it texts IH]; [done |].
  cbn [map fold_right].
  assert (0 <= loc_of w it); [| lia].
  unfold loc_of, analyze_source_complexity.
  destruct (lizard w) as [analyze |]; [destruct (analyze _ _) |]; cbn; lia.
Qed.

(** X10.  Every blob [compute_metrics_from_commit] fetches is an entry of
    the tree of the commit that passes the four tests of the filter: it is
    a blob, its lowered path ends in one of the source suffixes, its path
    holds none of the skipped directory names, and its size, when the tree
    gives one, is at most a mebibyte.  The fetches follow the order of the
    tree. *)
Theorem fetched_blobs_qualify (w : remote) (repo commit_sha : string)
    (file_limit : Z) (m : metrics) (log : list string) :
  compute_metrics_from_commit w repo commit_sha file_limit = Returned (m, log) ->
  exists tree_items kept,
    get_tree_for_ref w repo commit_sha = Returned tree_items
    /\ kept `sublist_of` tree_items
    /\ log = map sha kept
    /\ Forall qualifies kept.
Proof.
  intros Hrun. destruct (snapshot_shape _ _ _ _ _ _ Hrun) as (tree_items & Htree & Hlog & _).
  exists tree_items, (limit_blobs (candidate_blobs tree_items) file_limit).
  assert (Hsub : limit_blobs (candidate_blobs tree_items) file_limit
                 `sublist_of` candidate_blobs tree_items)
    by apply limit_blobs_sublist.
  repeat split; [done | | done |].
  - etrans; [exact Hsub |]. apply sublist_filter.
  - apply Forall_forall. intros item Hitem.
    apply candidate_qualifies.
    eapply elem_of_sublist in Hitem; [| exact Hsub].
    unfold candidate_blobs in Hitem. apply list_elem_of_filter in Hitem as [Hcand _].
    by apply Is_true_true.
Qed.

Lemma fetched_blobs_qualify_sample :
  compute_metrics_from_commit sample_remote "o/r" "c2" 2
    = Returned (mkMetrics 1 0 1, ["sha-a"; "sha-b"]%string)
  /\ exists tree_items kept,
       get_tree_for_ref sample_remote "o/r" "c2" = Returned tree_items
       /\ kept `sublist_of` tree_items
       /\ ["sha-a"; "sha-b"]%string = map sha kept
       /\ Forall qualifies kept.
Proof.
  assert (Hrun : compute_metrics_from_commit sample_remote "o/r" "c2" 2
                 = Returned (mkMetrics 1 0 1, ["sha-a"; "sha-b"]%string))
    by reflexivity.
  split; [exact Hrun |]. exact (fetched_blobs_qualify _ _ _ _ _ _ Hrun).
Defined.

(** X11.  In a snapshot the number of processed files is at most the number
    of blobs fetched, neither it nor the line count is negative, and a
    snapshot with no processed file is the zero snapshot: a commit whose
    every fetch failed cannot be told from a commit without source
    files. *)
Theorem snapshot_counts (w : remote) (repo commit_sha : string)
    (file_limit : Z) (m : metrics) (log : list string) :
  compute_metrics_from_commit w repo commit_sha file_limit = Returned (m, log) ->
  0 <= files_processed m <= Z.of_nat (length log)
  /\ 0 <= lines_of_code m
  /\ (files_processed m = 0 -> m = zero_metrics).
Proof.
  intros Hrun. destruct (snapshot_shape _ _ _ _ _ _ Hrun) as (tree_items & _ & Hlog & Hm).
  subst m log. cbn [files_processed lines_of_code]. rewrite length_map.
  pose proof (fetched_texts_length w repo
                (limit_blobs (candidate_blobs tree_items) file_limit)).
  repeat split; try lia; [apply loc_sum_nonneg |].
  intros Hzero.
  destruct (fetched_texts w repo (limit_blobs (candidate_blobs tree_items) file_limit));
    [reflexivity | cbn in Hzero; lia].
Qed.

Lemma snapshot_counts_sample :
  compute_metrics_from_commit sample_remote "o/r" "c2" 2
    = Returned (mkMetrics 1 0 1, ["sha-a"; "sha-b"]%string)
  /\ 0 <= 1 <= Z.of_nat (length ["sha-a"; "sha-b"]%string).
Proof.
  assert (Hrun : compute_metrics_from_commit sample_remote "o/r" "c2" 2
                 = Returned (mkMetrics 1 0 1, ["sha-a"; "sha-b"]%string))
    by reflexivity.
  split; [exact Hrun |]. exact (proj1 (snapshot_counts _ _ _ _ _ _ Hrun)).
Defined.

End BlobAnalyzerMore.

(* ===================================================================== *)
(** ** The orchestrator, further                                         *)
(* ===================================================================== *)

Module OrchestratorMore.
Import Metrics ComputeJsMetrics FindDependencyReplacements Samples Statements Observations.

Lemma cap_not_reached (o : options) (results : list candidate) :
  cap_reached o results = false ->
  max_candidates_per_repo o <> 0 ->
  Z.of_nat (length results) < max_candidates_per_repo o.
Proof.
  unfold cap_reached, truthy_int. intros Hcap Hmax.
  apply andb_false_iff in Hcap as [Hz | Hlt].
  - apply negb_false_iff, Z.eqb_eq in Hz. lia.
  - apply Z.leb_gt in Hlt. lia.
Qed.

Lemma emit_within_cap (w : remote) (o : options) (full_name sha parent_sha : string)
    (detail : commit_detail) (before_entry after_entry : metrics_entry)
    (rs : list removed_entry) :
  max_candidates_per_repo o <> 0 ->
  forall results cache,
    cap_reached o results = false ->
    Z.of_nat (length (emit w o full_name sha parent_sha detail before_entry after_entry
                        rs results cache).1)
    <= max_candidates_per_repo o.
Proof.
  intros Hmax. induction rs as [| r rs IH]; intros results cache Hcap.
  - cbn. pose proof (cap_not_reached o results Hcap Hmax). lia.
  - cbn [emit].
    destruct (get_cve_for_package (osv_post w) (r_name r) cache) as [[cve cache'] posted].
    match goal with
    | |- context [cap_reached o ?rs'] => destruct (cap_reached o rs') eqn:Hcap'
    end.
    + cbn [fst]. rewrite length_app. cbn [length].
      pose proof (cap_not_reached o results Hcap Hmax). lia.
    + by apply IH.
Qed.

Lemma visit_commit_within_cap (w : remote) (o : options) (full_name : string)
    (c : commit) (results : list candidate) (cache : gmap string cve_entry) :
  max_candidates_per_repo o <> 0 ->
  cap_reached o results = false ->
  Z.of_nat (length (visit_commit w o full_name c results cache).1)
  <= max_candidates_per_repo o.
Proof.
  intros Hmax Hcap. pose proof (cap_not_reached o results Hcap Hmax).
  unfold visit_commit.
  destruct (c_parents c) as [| parent_sha rest]; [cbn; lia |].
  destruct (get_commit_detail w full_name (c_sha c)) as [detail |]; [| cbn; lia].
  destruct (removed_list_of detail) as [| r rs]; [cbn; lia |].
  by apply emit_within_cap.
Qed.

Lemma visit_commits_within_cap (w : remote) (o : options) (full_name : string)
    (commits : list commit) :
  max_candidates_per_repo o <> 0 ->
  forall results cache,
    Z.of_nat (length results) <= Z.max 0 (max_candidates_per_repo o) ->
    Z.of_nat (length (visit_commits w o full_name commits results cache).1)
    <= Z.max 0 (max_candidates_per_repo o).
Proof.
  intros Hmax. induction commits as [| c commits IH]; intros results cache Hlen;
    [done |].
  cbn [visit_commits]. destruct (cap_reached o results) eqn:Hcap; [done |].
  pose proof (visit_commit_within_cap w o full_name c results cache Hmax Hcap).
  destruct (visit_commit w o full_name c results cache) as [results' cache'].
  apply IH. cbn [fst] in *. lia.
Qed.

(** X12.  With a cap other than zero, [analyze_repo] answers at most that
    many candidates, and none at all when the cap is negative (the test
    [len(results) >= cap] then holds before the first commit). *)
Theorem candidates_within_cap (w : remote) (o : options) (full_name : string) :
  max_candidates_per_repo o <> 0 ->
  Z.of_nat (length (analyze_repo w o full_name).1)
  <= Z.max 0 (max_candidates_per_repo o).
Proof.
  intros Hmax. unfold analyze_repo.
  destruct (list_commits_touching_path w full_name) as [| c commits]; [cbn; lia |].
  pose proof (visit_commits_within_cap w o full_name
                (considered w o (c :: commits)) Hmax []
                (load_osv_cache (osv_file w))) as Hlen.
  destruct (visit_commits _ _ _ _ _ _) as [results cache].
  apply Hlen. cbn. lia.
Qed.

Lemma candidates_within_cap_sample :
  max_candidates_per_repo (mkOptions 50 false (-1) 365 200) <> 0
  /\ (analyze_repo sample_remote (mkOptions 50 false (-1) 365 200) "o/r").1 = []
  /\ Z.of_nat (length (analyze_repo sample_remote (mkOptions 50 false 1 365 200) "o/r").1)
     <= 1.
Proof.
  split; [done |]. split; [reflexivity |].
  apply (candidates_within_cap sample_remote (mkOptions 50 false 1 365 200) "o/r").
  done.
Defined.

Lemma emit_agrees (w : remote) (o : options) (full_name sha parent_sha : string)
    (detail : commit_detail) (before_entry after_entry : metrics_entry)
    (rs : list removed_entry) :
  forall results cache,
    agree results cache ->
    let out := emit w o full_name sha parent_sha detail before_entry after_entry
                 rs results cache in
    agree out.1 out.2 /\ (forall k v, cache !! k = Some v -> out.2 !! k = Some v).
Proof.
  induction rs as [| r rs IH]; intros results cache Hagree; [done |].
  cbn [emit].
  pose proof (VulnerabilityCacheMore.lookup_is_stored (osv_post w) (r_name r) cache)
    as Hstored.
  pose proof (fun k v => VulnerabilityCache.lookup_keeps_entries (osv_post w)
                           (r_name r) k v cache) as Hext.
  destruct (get_cve_for_package (osv_post w) (r_name r) cache) as [[cve cache'] posted].
  cbn [fst snd] in Hstored, Hext.
  match goal with
  | |- context [cap_reached o (results ++ [?c])] =>
      assert (Hagree' : agree (results ++ [c]) cache')
  end.
  { intros cand [Hcand | Hcand]%elem_of_app.
    - by apply Hext, Hagree.
    - apply list_elem_of_singleton in Hcand as ->. cbn. by destruct cve. }
  match goal with
  | |- context [cap_reached o ?rs'] => destruct (cap_reached o rs')
  end.
  - cbn [fst snd]. split; [done | exact Hext].
  - destruct (IH _ _ Hagree') as [Hout Hkeep]. cbn zeta. split; [exact Hout |].
    intros k v Hk. by apply Hkeep, Hext.
Qed.

Lemma visit_commit_agrees (w : remote) (o : options) (full_name : string)
    (c : commit) (results : list candidate) (cache : gmap string cve_entry) :
  agree results cache ->
  let out := visit_commit w o full_name c results cache in
  agree out.1 out.2 /\ (forall k v, cache !! k = Some v -> out.2 !! k = Some v).
Proof.
  intros Hagree. unfold visit_commit.
  destruct (c_parents c) as [| parent_sha rest]; [done |].
  destruct (get_commit_detail w full_name (c_sha c)) as [detail |]; [| done].
  destruct (removed_list_of detail) as [| r rs]; [done |].
  by apply emit_agrees.
Qed.

Lemma visit_commits_agree (w : remote) (o : options) (full_name : string)
    (commits : list commit) :
  forall results cache,
    agree results cache ->
    let out := visit_commits w o full_name commits results cache in
    agree out.1 out.2 /\ (forall k v, cache !! k = Some v -> out.2 !! k = Some v).
Proof.
  induction commits as [| c commits IH]; intros results cache Hagree; [done |].
  cbn [visit_commits]. destruct (cap_reached o results); [done |].
  destruct (visit_commit_agrees w o full_name c results cache Hagree) as [Hstep Hkeep].
  destruct (visit_commit w o full_name c results cache) as [results' cache'].
  destruct (IH _ _ Hstep) as [Hout Hkeep']. cbn zeta. split; [exact Hout |].
  intros k v Hk. by apply Hkeep', Hkeep.
Qed.

(** X13.  When the cache file can be written, the file [analyze_repo]
    leaves holds, for every candidate it answers, the advisory count and
    identifiers that the candidate carries for its dependency; and every
    entry the file held at the start is still in it, unchanged: an entry,
    once cached, is never looked up again. *)
Theorem records_agree_with_saved_cache (w : remote) (o : options)
    (full_name : string) (cand : candidate) :
  osv_written w = true ->
  cand ∈ (analyze_repo w o full_name).1 ->
  exists cache,
    (analyze_repo w o full_name).2 = Some cache
    /\ cache !! cand_removed_dep cand = Some (cand_cve_count cand, cand_cve_ids cand)
    /\ (forall k v, load_osv_cache (osv_file w) !! k = Some v -> cache !! k = Some v).
Proof.
  intros Hwritten. unfold analyze_repo.
  destruct (list_commits_touching_path w full_name) as [| c commits];
    [by intros ?%elem_of_nil |].
  assert (Hempty : agree [] (load_osv_cache (osv_file w)))
    by (by intros ? ?%elem_of_nil).
  destruct (visit_commits_agree w o full_name (considered w o (c :: commits))
              _ _ Hempty) as [Hagree Hkeep].
  destruct (visit_commits _ _ _ _ _ _) as [results cache].
  cbn [fst snd] in *. intros Hcand. exists cache.
  rewrite Hwritten. cbn. split; [done |]. split; [by apply Hagree | exact Hkeep].
Qed.

Lemma records_agree_with_saved_cache_sample :
  osv_written sample_remote = true
  /\ lodash_candidate ∈ (analyze_repo sample_remote (sample_options 200) "o/r").1
  /\ exists cache,
       (analyze_repo sample_remote (sample_options 200) "o/r").2 = Some cache
       /\ cache !! "lodash"%string = Some (0, [])
       /\ (forall k v, load_osv_cache (osv_file sample_remote) !! k = Some v ->
                       cache !! k = Some v).
Proof.
  assert (Hcand : lodash_candidate
                  ∈ (analyze_repo sample_remote (sample_options 200) "o/r").1).
  { vm_compute. apply list_elem_of_here. }
  split; [reflexivity |]. split; [exact Hcand |].
  exact (records_agree_with_saved_cache sample_remote (sample_options 200) "o/r"
           lodash_candidate eq_refl Hcand).
Defined.

End OrchestratorMore.

(* ===================================================================== *)
(** ** The keyword heuristic                                             *)
(* ===================================================================== *)

Module KeywordHeuristic.
Import Metrics ComputeJsMetrics FindDependencyReplacements Samples Statements Observations.

Lemma Zsum_perm (l l' : list Z) : l ≡ₚ l' -> Zsum l = Zsum l'.
Proof.
  unfold Zsum. induction 1; cbn; lia.
Qed.

Lemma analyze_contents_sums (contents : list source_file) :
  analyze_contents contents
  = mkHeuristic
      (Zsum (map file_loc contents))
      (round4
         (if 0 <? Zsum (map file_functions contents)
          then (inject_Z (Zsum (map file_contribution contents))
                / inject_Z (Zsum (map file_functions contents)))%Q
          else 0%Q)).
Proof.
  unfold analyze_contents. by rewrite BlobAnalyzer.analyze_contents_fold.
Qed.

(** X14.  The answer of [analyze_contents] does not depend on the order of
    the files, and a file whose source is empty changes nothing. *)
Theorem heuristic_ignores_order (contents contents' : list source_file) :
  contents ≡ₚ contents' ->
  analyze_contents contents = analyze_contents contents'
  /\ analyze_contents (filter (fun file => source file <> EmptyString) contents)
     = analyze_contents contents.
Proof.
  intros Hperm. rewrite !analyze_contents_sums. split.
  - by rewrite (Zsum_perm _ _ (Permutation_map file_loc Hperm)),
      (Zsum_perm _ _ (Permutation_map file_functions Hperm)),
      (Zsum_perm _ _ (Permutation_map file_contribution Hperm)).
  - assert (Hsame : forall f : source_file -> Z,
              (forall file, source file = EmptyString -> f file = 0) ->
              Zsum (map f (filter (fun file => source file <> EmptyString) contents))
              = Zsum (map f contents)).
    { intros f Hf. clear Hperm. induction contents as [| file contents IH]; [done |].
      rewrite filter_cons. case_decide as Hsrc.
      - unfold Zsum in *. cbn. by rewrite IH.
      - rewrite IH. unfold Zsum. cbn. rewrite Hf; [done |].
        by destruct (decide (source file = EmptyString)). }
    rewrite !Hsame; [done | | |]; intros file Hsrc.
    + unfold file_contribution. by rewrite Hsrc.
    + unfold file_functions. by rewrite Hsrc.
    + unfold file_loc. by rewrite Hsrc.
Qed.

Lemma heuristic_ignores_order_sample :
  [mkSourceFile "a.js" "if (x) { y(); }"; mkSourceFile "c.js" EmptyString;
   mkSourceFile "b.js" "function f(a) { return a && 1; }"]
  ≡ₚ [mkSourceFile "b.js" "function f(a) { return a && 1; }";
      mkSourceFile "a.js" "if (x) { y(); }"; mkSourceFile "c.js" EmptyString]
  /\ analyze_contents
       [mkSourceFile "a.js" "if (x) { y(); }"; mkSourceFile "c.js" EmptyString;
        mkSourceFile "b.js" "function f(a) { return a && 1; }"]
     = analyze_contents
         [mkSourceFile "b.js" "function f(a) { return a && 1; }";
          mkSourceFile "a.js" "if (x) { y(); }"; mkSourceFile "c.js" EmptyString].
Proof.
  assert (Hperm :
    [mkSourceFile "a.js" "if (x) { y(); }"; mkSourceFile "c.js" EmptyString;
     mkSourceFile "b.js" "function f(a) { return a && 1; }"]
    ≡ₚ [mkSourceFile "b.js" "function f(a) { return a && 1; }";
        mkSourceFile "a.js" "if (x) { y(); }"; mkSourceFile "c.js" EmptyString]).
  { etrans; [apply perm_skip, perm_swap |]. apply perm_swap. }
  split; [exact Hperm |]. exact (proj1 (heuristic_ignores_order _ _ Hperm)).
Defined.

Lemma count_matches_nonneg (re : list alt) (src : string) : 0 <= count_matches re src.
Proof. unfold count_matches. lia. Qed.

Lemma file_functions_bounds (file : source_file) :
  0 <= file_functions file <= file_contribution file.
Proof.
  unfold file_functions, file_contribution.
  pose proof (count_matches_nonneg FUNCTION_RE (source file)).
  pose proof (count_matches_nonneg KEYWORDS_RE (source file)).
  destruct (truthy_str (source file)); [| lia].
  destruct (count_matches FUNCTION_RE (source file) =? 0) eqn:Hf;
    destruct (0 <? count_matches KEYWORDS_RE (source file)) eqn:Hk; cbn [andb]; lia.
Qed.

Lemma functions_le_contribution (contents : list source_file) :
  0 <= Zsum (map file_functions contents) <= Zsum (map file_contribution contents).
Proof.
  unfold Zsum. induction contents as [| file contents IH]; [done |].
  cbn. pose proof (file_functions_bounds file). lia.
Qed.

Lemma loc_nonneg (contents : list source_file) : 0 <= Zsum (map file_loc contents).
Proof.
  unfold Zsum. induction contents as [| file contents IH]; [done |].
  cbn. unfold file_loc at 1. destruct (truthy_str (source file)); lia.
Qed.

Lemma round_half_even_lower (n : Z) (d : positive) : n / Z.pos d <= round_half_even n d.
Proof.
  unfold round_half_even. repeat case_match; lia.
Qed.

Lemma pow2_pos (e : Z) : 0 <= e -> Z.pos (Z.to_pos (2 ^ e)) = 2 ^ e.
Proof.
  intros He. apply Z2Pos.id. by apply Z.pow_pos_nonneg.
Qed.

(** The order of magnitude that [binade] answers is not too high. *)
Lemma binade_lower (n : Z) (d : positive) :
  0 < n -> 0 <= binade n d -> Z.pos d * 2 ^ binade n d <= n.
Proof.
  intros Hn. unfold binade, scaled.
  set (k := Z.log2 n - Z.log2 (Z.pos d)).
  destruct (Z.leb_spec 0 k) as [Hk | Hk].
  - destruct (Z.leb_spec (Z.pos (d * Z.to_pos (2 ^ k))) n) as [Htest | Htest].
    + intros _. by rewrite Pos2Z.inj_mul, pow2_pos in Htest.
    + intros Hlow.
      destruct (Z.log2_spec n Hn) as [Hn1 _].
      destruct (Z.log2_spec (Z.pos d) ltac:(lia)) as [_ Hd2].
      pose proof (Z.log2_nonneg (Z.pos d)) as Hd0.
      assert (Hmul : 2 ^ Z.succ (Z.log2 (Z.pos d)) * 2 ^ (k - 1) = 2 ^ Z.log2 n).
      { rewrite <- Z.pow_add_r by lia. f_equal. lia. }
      assert (Hpos : 0 < 2 ^ (k - 1)) by (apply Z.pow_pos_nonneg; lia).
      nia.
  - destruct (Z.leb_spec (Z.pos d) (n * 2 ^ (- k))); lia.
Qed.

(** The float nearest to a rational that is at least 1 is at least 1. *)
Lemma to_float_at_least_one (x : Q) : (1 <= x)%Q -> (1 <= to_float x)%Q.
Proof.
  destruct x as [n d]. unfold Qle. cbn [Qnum Qden]. intros Hx.
  assert (Hn : 0 < n) by lia.
  unfold to_float. cbn [Qnum Qden].
  rewrite Z.abs_eq by lia. destruct (Z.eqb_spec n 0); [lia |].
  rewrite Z.sgn_pos by lia.
  set (e := Z.max (binade n d - 52) (-1074)). unfold scaled.
  destruct (Z.leb_spec 0 e) as [He | He].
  - pose proof (round_half_even_lower n (d * Z.to_pos (2 ^ e))) as Hm.
    rewrite Pos2Z.inj_mul, pow2_pos in Hm by done.
    assert (Hbin : 0 <= binade n d) by lia.
    pose proof (binade_lower n d Hn Hbin) as Hlow.
    assert (Hpow : 2 ^ e <= 2 ^ binade n d) by (apply Z.pow_le_mono_r; lia).
    assert (Hpos : 0 < 2 ^ e) by (apply Z.pow_pos_nonneg; lia).
    assert (Hquot : 1 <= n / (Z.pos d * 2 ^ e)).
    { apply Z.div_le_lower_bound; nia. }
    cbn [Qnum Qden inject_Z].
    assert (Hone : 1 <= round_half_even n (d * Z.to_pos (2 ^ e))) by lia.
    rewrite !Z.mul_1_l, !Z.mul_1_r. clear -Hpos Hone. nia.
  - pose proof (round_half_even_lower (n * 2 ^ (- e)) d) as Hm.
    assert (Hpos : 0 < 2 ^ (- e)) by (apply Z.pow_pos_nonneg; lia).
    assert (Hquot : 2 ^ (- e) <= n * 2 ^ (- e) / Z.pos d).
    { apply Z.div_le_lower_bound; nia. }
    cbn [Qnum Qden]. rewrite pow2_pos by lia. lia.
Qed.

Lemma round4_at_least_one (x : Q) : (1 <= x)%Q -> (1 <= round4 x)%Q.
Proof.
  intros Hx%to_float_at_least_one. unfold round4. cbv zeta.
  generalize dependent (to_float x). clear x. intros y Hy.
  rewrite Qred_correct.
  unfold Qle in *. cbn in *.
  pose proof (round_half_even_lower (Qnum y * 10000) (Qden y)).
  assert (10000 <= Qnum y * 10000 / Z.pos (Qden y)).
  { apply Z.div_le_lower_bound; lia. }
  lia.
Qed.

(** X15.  The line count [analyze_contents] answers is not negative, and
    the average it answers is 0 or at least 1: every file that is counted
    for a function adds at least as much to the numerator as to the
    denominator. *)
Theorem heuristic_average_range (contents : list source_file) :
  0 <= h_lines_of_code (analyze_contents contents)
  /\ (h_avg_complexity (analyze_contents contents) = 0%Q
      \/ (1 <= h_avg_complexity (analyze_contents contents))%Q).
Proof.
  rewrite analyze_contents_sums. cbn [h_lines_of_code h_avg_complexity].
  split; [apply loc_nonneg |].
  pose proof (functions_le_contribution contents) as [Hf Hc].
  destruct (0 <? Zsum (map file_functions contents)) eqn:Hpos; [right | by left].
  apply Z.ltb_lt in Hpos. apply round4_at_least_one.
  apply Qle_shift_div_l.
  - replace 0%Q with (inject_Z 0) by done. by rewrite <- Zlt_Qlt.
  - rewrite Qmult_1_l. by rewrite <- Zle_Qle.
Qed.

End KeywordHeuristic.

(* ===================================================================== *)
(** ** The patch parser, further                                         *)
(* ===================================================================== *)

Module DependencyDiffMore.
Import Metrics ComputeJsMetrics FindDependencyReplacements Samples Statements Observations.

Lemma span_unquoted_run (l : list ascii) :
  Forall (fun c => is_quote c = false) (span_unquoted l).1.
Proof.
  induction l as [| c l IH]; cbn; [done |].
  destruct (is_quote c) eqn:Hc; cbn; [done |].
  destruct (span_unquoted l) as [run rest]. cbn in *. by constructor.
Qed.

Lemma quoted_clean (l inside rest : list ascii) :
  quoted l = Some (inside, rest) -> clean (str inside).
Proof.
  unfold quoted, clean, chars, str. intros Hq.
  destruct l as [| q l1]; [done |].
  destruct (is_quote q); [| done].
  pose proof (span_unquoted_run l1) as Hrun.
  destruct (span_unquoted l1) as [[| c run] [| closing rest']]; try done.
  injection Hq as <- <-. rewrite list_ascii_of_string_of_list_ascii.
  split; [done | exact Hrun].
Qed.

Lemma match_pkg_line_clean (s : list ascii) (m : pkg_match) (n : nat) :
  match_pkg_line s = Some (m, n) -> clean (name m) /\ clean (ver m).
Proof.
  unfold match_pkg_line. intros Hm.
  destruct s as [| c s1]; [done |].
  destruct ((code c =? minus_sign)%N || (code c =? plus_sign)%N); [| done].
  destruct (quoted (lstrip s1)) as [[nm [| colon s2]] |] eqn:Hname; try done.
  destruct (code colon =? 58)%N; [| done].
  destruct (quoted (lstrip s2)) as [[vr rest] |] eqn:Hver; [| done].
  injection Hm as <- <-. cbn. split; by eapply quoted_clean.
Qed.

Lemma dict_set_entries {V} (k : string) (v : V) (d : list (string * V)) (e : string * V) :
  e ∈ dict_set k v d -> e = (k, v) \/ e ∈ d.
Proof.
  induction d as [| [k' v'] d IH]; cbn.
  - intros ->%list_elem_of_singleton. by left.
  - destruct (String.eqb k k').
    + intros [-> | He]%elem_of_cons; [by left | right; by apply list_elem_of_further].
    + intros [-> | He]%elem_of_cons; [right; apply list_elem_of_here |].
      destruct (IH He) as [-> | Hd]; [by left | right; by apply list_elem_of_further].
Qed.

Lemma record_matches_entries (P : string * string -> Prop) (ms : list pkg_match) :
  Forall (fun m => P (name m, ver m)) ms ->
  forall removed added,
    Forall P removed -> Forall P added ->
    Forall P (fold_left record_match ms (removed, added)).1
    /\ Forall P (fold_left record_match ms (removed, added)).2.
Proof.
  induction 1 as [| m ms Hm Hms IH]; intros removed added Hr Ha; [done |].
  cbn [fold_left]. unfold record_match at 2 4.
  destruct (code (op m) =? minus_sign)%N; [| destruct (code (op m) =? plus_sign)%N].
  - apply IH; [| done]. apply Forall_forall.
    intros e [-> | He]%dict_set_entries; [done |].
    rewrite Forall_forall in Hr. by apply Hr.
  - apply IH; [done |]. apply Forall_forall.
    intros e [-> | He]%dict_set_entries; [done |].
    rewrite Forall_forall in Ha. by apply Ha.
  - by apply IH.
Qed.

(** X16.  Whatever the text of a patch, every name and every version in the
    two maps [parse_removed_added_from_patch] answers is a non-empty text
    without a double quote. *)
Theorem parsed_entries_are_clean (patch_text n v : string) :
  (n, v) ∈ (parse_removed_added_from_patch patch_text).1
  \/ (n, v) ∈ (parse_removed_added_from_patch patch_text).2 ->
  clean n /\ clean v.
Proof.
  rewrite DependencyDiff.parse_is_fold.
  assert (Hms : Forall (fun m => clean (name m) /\ clean (ver m))
                  (finditer _pkg_line_re patch_text)).
  { apply DependencyDiff.scan_Forall. intros prev s m k. unfold _pkg_line_re.
    destruct (at_line_start prev); [apply match_pkg_line_clean | done]. }
  destruct (record_matches_entries (fun e => clean e.1 /\ clean e.2) _ Hms [] [])
    as [Hremoved Hadded]; [done | done |].
  intros [Hin | Hin].
  - rewrite Forall_forall in Hremoved. exact (Hremoved _ Hin).
  - rewrite Forall_forall in Hadded. exact (Hadded _ Hin).
Qed.

Lemma parsed_entries_are_clean_sample :
  ("lodash", "4.17.10")%string ∈ (parse_removed_added_from_patch lodash_patch).1
  /\ clean "lodash" /\ clean "4.17.10".
Proof.
  assert (Hin : ("lodash", "4.17.10")%string
                ∈ (parse_removed_added_from_patch lodash_patch).1).
  { vm_compute. apply list_elem_of_here. }
  split; [exact Hin |].
  exact (parsed_entries_are_clean lodash_patch "lodash" "4.17.10" (or_introl Hin)).
Defined.

End DependencyDiffMore.

(* ===================================================================== *)
(** ** The accessors                                                     *)
(* ===================================================================== *)

Module AccessorProperties.

Import Json Accessors Samples AccessorSamples.

Lemma returned_below_400 {B} (t : transport B) (url : string) (r : response B) :
  fst (request_with_backoff t url default_max_retries) = Returned r ->
  status_code r < 400.
Proof.
  intros Hr. unfold request_with_backoff in Hr.
  by destruct (RequestLayerMore.returned_by_an_attempt _ _ _ _ _ _ Hr) as (k & _ & _ & H).
Qed.

Lemma tree_sha_raises (p : platform) (repo ref : string) (e : exn) :
  _get_tree_sha_for_ref p repo ref = Raised e
  <-> exists r, get_with_backoff p (commit_url repo ref) = Returned r
                /\ status_code r = 200 /\ read_tree_sha r = Raised e.
Proof.
  unfold _get_tree_sha_for_ref.
  destruct (get_with_backoff p (commit_url repo ref)) as [r | e'] eqn:Hr.
  - destruct (Z.eqb_spec (status_code r) 200) as [Hs | Hs].
    + destruct (read_tree_sha r) as [sha | e'] eqn:Hread; cbn.
      * split; [done |]. intros (r' & [= <-] & _ & H). congruence.
      * split; [intros [= <-]; by exists r |].
        intros (r' & [= <-] & _ & H). congruence.
    + split; [done |]. by intros (r' & [= <-] & ? & _).
  - split; [done |]. by intros (r' & ? & _).
Qed.

(** X17.  [get_tree_for_ref] raises in one case only: the commit of the
    reference answered with status 200 and its body could not be read as
    far as the tree identifier (it is no JSON, or no object, or its commit
    or tree entry is no object).  Once the identifier is settled, nothing
    the request for the tree does makes it raise, and a request that fails
    gives the empty tree. *)
Theorem tree_lookup_raises_on_commit_body_only (p : platform) (repo ref : string) :
  (forall e,
     get_tree_for_ref p repo ref = Raised e
     <-> exists r, get_with_backoff p (commit_url repo ref) = Returned r
                   /\ status_code r = 200 /\ read_tree_sha r = Raised e)
  /\ (forall sha,
        _get_tree_sha_for_ref p repo ref = Returned sha ->
        (exists tree, get_tree_for_ref p repo ref = Returned tree)
        /\ (forall e, get_with_backoff p (tree_url repo (fstring p sha)) = Raised e ->
                      get_tree_for_ref p repo ref = Returned (JList []))).
Proof.
  assert (Hsettled : forall sha,
            _get_tree_sha_for_ref p repo ref = Returned sha ->
            (exists tree, get_tree_for_ref p repo ref = Returned tree)
            /\ (forall e, get_with_backoff p (tree_url repo (fstring p sha)) = Raised e ->
                          get_tree_for_ref p repo ref = Returned (JList []))).
  { intros sha Hsha. unfold get_tree_for_ref. rewrite Hsha. cbn [bind]. split.
    - destruct (get_with_backoff p (tree_url repo (fstring p sha))) as [r | e];
        cbn; [| by eexists].
      destruct (status_code r =? 200); cbn; [| by eexists].
      destruct (json r) as [data | e]; cbn; [| by eexists].
      destruct (get data "tree" (JList [])) as [tree | e]; cbn; by eexists.
    - intros e He. by rewrite He. }
  split; [| exact Hsettled].
  intros e. rewrite <- tree_sha_raises. unfold get_tree_for_ref at 1.
  destruct (_get_tree_sha_for_ref p repo ref) as [sha | e'] eqn:Hsha; [| done].
  destruct (Hsettled sha eq_refl) as [[tree Htree] _].
  unfold get_tree_for_ref in Htree. rewrite Hsha in Htree. cbn [bind] in *.
  rewrite Htree. done.
Qed.

Lemma unreadable_commit_body_raises :
  get_tree_for_ref garbled_commit "o/r" "main" = Raised (ValueError "Expecting value").
Proof.
  apply (proj1 (tree_lookup_raises_on_commit_body_only garbled_commit "o/r" "main")).
  eexists. split; [reflexivity |]. split; reflexivity.
Defined.

(** X18.  When the request for the tree fails, [list_files_at_ref] answers
    the empty list whatever the listing of the root directory holds: the
    second request is made only after a tree answer whose status is not
    200, and a failed request gives no answer at all. *)
Theorem failed_tree_request_lists_nothing (p : platform) (repo ref : string)
    (sha : value) (e : exn) :
  _get_tree_sha_for_ref p repo ref = Returned sha ->
  get_with_backoff p (tree_url repo (fstring p sha)) = Raised e ->
  list_files_at_ref p repo ref = Returned [].
Proof.
  intros Hsha Htree. unfold list_files_at_ref. rewrite Hsha. cbn [bind].
  by rewrite Htree.
Qed.

Lemma failed_tree_request_lists_nothing_sample :
  _get_tree_sha_for_ref tree_down "o/r" "main" = Returned (JStr "t1")
  /\ (exists r, get_with_backoff tree_down (contents_url "o/r") = Returned r
                /\ json r = Returned (JList [entry "file" "package.json"]))
  /\ list_files_at_ref tree_down "o/r" "main" = Returned [].
Proof.
  split; [reflexivity |]. split; [eexists; split; reflexivity |].
  apply (failed_tree_request_lists_nothing tree_down "o/r" "main" (JStr "t1")
           (ConnectionError "reset by peer")); reflexivity.
Defined.

Lemma compare_trans (s1 : string) :
  forall s2 s3,
    String.compare s1 s2 <> Gt -> String.compare s2 s3 <> Gt ->
    String.compare s1 s3 <> Gt.
Proof.
  induction s1 as [| c1 s1 IH]; intros [| c2 s2] [| c3 s3]; cbn; try done.
  unfold Ascii.compare.
  destruct (N.compare_spec (N_of_ascii c1) (N_of_ascii c2)) as [H12 | H12 | H12];
    destruct (N.compare_spec (N_of_ascii c2) (N_of_ascii c3)) as [H23 | H23 | H23];
    destruct (N.compare_spec (N_of_ascii c1) (N_of_ascii c3)) as [H13 | H13 | H13];
    try done; try lia.
  apply IH.
Qed.

Lemma leb_trans (s1 s2 s3 : string) :
  String.leb s1 s2 = true -> String.leb s2 s3 = true -> String.leb s1 s3 = true.
Proof.
  unfold String.leb. intros H12 H23.
  pose proof (compare_trans s1 s2 s3) as Htrans.
  destruct (String.compare s1 s2); destruct (String.compare s2 s3);
    destruct (String.compare s1 s3); try done; exfalso; by apply Htrans.
Qed.

Lemma rank_cases (p : string) :
  (p = "package.json"%string /\ (sort_key p).1 = 0)
  \/ (p <> "package.json"%string /\ (sort_key p).1 = 1).
Proof.
  unfold sort_key. destruct (String.eqb_spec p "package.json"); cbn; auto.
Qed.

Lemma path_le_spec (p q : string) :
  path_le p q
  <-> (sort_key p).1 < (sort_key q).1
      \/ ((sort_key p).1 = (sort_key q).1 /\ String.leb p q = true).
Proof.
  unfold path_le, key_le. rewrite orb_true_iff, andb_true_iff, Z.ltb_lt, Z.eqb_eq.
  done.
Qed.

#[local] Instance path_le_trans : Transitive path_le.
Proof.
  intros p q r. rewrite !path_le_spec.
  intros [H1 | [H1 L1]] [H2 | [H2 L2]]; [left; lia | left; lia | left; lia |].
  right. split; [lia |]. by eapply leb_trans.
Qed.

#[local] Instance path_le_total : Total path_le.
Proof.
  intros p q. rewrite !path_le_spec.
  destruct (Z.lt_trichotomy (sort_key p).1 (sort_key q).1) as [Hlt | [Heq | Hgt]];
    [by left; left | | by right; left].
  destruct (String.leb_total p q); [left | right]; right; by split.
Qed.

Lemma manifest_paths_spec (files : list value) :
  forall pkg_paths,
    manifest_paths files = Returned pkg_paths ->
    forall q, q ∈ pkg_paths <-> JStr q ∈ files /\ FindDependencyReplacements.is_manifest q = true.
Proof.
  unfold FindDependencyReplacements.is_manifest.
  induction files as [| file files IH]; intros pkg_paths Hrun q.
  - injection Hrun as <-. split; [by intros ?%elem_of_nil | by intros [?%elem_of_nil _]].
  - cbn [manifest_paths] in Hrun. destruct file as [| | | | p | |]; try done.
    destruct (endswith (lower p) "package.json") eqn:Hp.
    + destruct (manifest_paths files) as [rest |]; cbn [bind] in Hrun; [| done].
      injection Hrun as <-. rewrite !elem_of_cons, (IH rest eq_refl q).
      split.
      * intros [-> | [Hq Hm]]; [split; [by left | done] | split; [by right | done]].
      * intros [[[= ->] | Hq] Hm]; [by left | by right].
    + rewrite (IH pkg_paths Hrun q), elem_of_cons.
      split; [intros [Hq Hm]; split; [by right | done] |].
      intros [[[= ->] | Hq] Hm]; [congruence | done].
Qed.

(** X19.  The paths [find_package_json_paths] answers are the texts among
    the listed files that pass the manifest test of the miner (the lowered
    path ends in package.json), in the order of their keys: the root
    manifest, when the repository has one, comes first, and the others
    follow by code points. *)
Theorem manifest_paths_are_sorted (p : platform) (repo ref : string)
    (paths : list string) :
  find_package_json_paths p repo ref = Returned paths ->
  StronglySorted path_le paths
  /\ ("package.json"%string ∈ paths -> head paths = Some "package.json"%string)
  /\ exists files,
       list_files_at_ref p repo ref = Returned files
       /\ forall q, q ∈ paths
                    <-> JStr q ∈ files
                        /\ FindDependencyReplacements.is_manifest q = true.
Proof.
  unfold find_package_json_paths. intros Hrun.
  destruct (list_files_at_ref p repo ref) as [files |]; [| done]. cbn [bind] in Hrun.
  destruct (manifest_paths files) as [pkg_paths |] eqn:Hpkg; [| done].
  injection Hrun as <-.
  assert (Hsorted : StronglySorted path_le (merge_sort path_le pkg_paths))
    by (apply StronglySorted_merge_sort; apply _).
  split; [exact Hsorted |]. split.
  - destruct (merge_sort path_le pkg_paths) as [| first rest]; [by intros ?%elem_of_nil |].
    intros [<- | Hroot]%elem_of_cons; [done |].
    apply StronglySorted_inv in Hsorted as [_ Hfirst].
    rewrite Forall_forall in Hfirst. specialize (Hfirst _ Hroot).
    apply path_le_spec in Hfirst. cbn.
    destruct (rank_cases first) as [[-> _] | [_ Hrank]]; [done |].
    rewrite Hrank in Hfirst. cbn in Hfirst. lia.
  - exists files. split; [done |]. intros q.
    rewrite <- (manifest_paths_spec files pkg_paths Hpkg q).
    by rewrite (merge_sort_Permutation path_le pkg_paths).
Qed.

Lemma manifest_paths_are_sorted_sample :
  find_package_json_paths monorepo "o/r" "main"
    = Returned ["package.json"; "docs/PACKAGE.JSON"; "packages/a/package.json";
                "packages/b/package.json"]%string
  /\ StronglySorted path_le
       ["package.json"; "docs/PACKAGE.JSON"; "packages/a/package.json";
        "packages/b/package.json"]%string.
Proof.
  assert (Hrun : find_package_json_paths monorepo "o/r" "main"
                 = Returned ["package.json"; "docs/PACKAGE.JSON";
                             "packages/a/package.json";
                             "packages/b/package.json"]%string)
    by (vm_compute; reflexivity).
  split; [exact Hrun |].
  exact (proj1 (manifest_paths_are_sorted monorepo "o/r" "main" _ Hrun)).
Defined.

(** X20.  [fetch_package_json_at_ref] swallows every failure of its request
    and of the decoding, but not an unreadable body: it raises exactly
    when the request was answered (with a status below 400) and the body
    is no JSON, or is JSON but neither an array nor an object. *)
Theorem manifest_fetch_raises_on_body_only (loads_b64 : value -> outcome value)
    (t : transport value) (url : string) (e : exn) :
  fetch_package_json_at_ref loads_b64 t url = Raised e
  <-> exists r,
        fst (request_with_backoff t url default_max_retries) = Returned r
        /\ status_code r < 400
        /\ (json r = Raised e
            \/ exists data, json r = Returned data
                            /\ is_list data = false
                            /\ get data "encoding" JNull = Raised e).
Proof.
  unfold fetch_package_json_at_ref.
  destruct (fst (request_with_backoff t url default_max_retries)) as [r | e'] eqn:Hr.
  - pose proof (returned_below_400 t url r Hr) as Hstatus.
    destruct (Z.eqb_spec (status_code r) 404) as [H404 | _]; [lia |].
    destruct (json r) as [data | e'] eqn:Hjson; cbn [bind].
    + destruct (is_list data) eqn:Hlist.
      * split; [done |]. intros (r' & [= <-] & _ & [H | (d & H & Hl & _)]); congruence.
      * destruct (get data "encoding" JNull) as [encoding | e'] eqn:Henc; cbn [bind].
        -- split.
           ++ destruct (is_str encoding "base64"); [| done].
              destruct (get data "content" (JStr EmptyString)) as [c |]; cbn; [| done].
              by destruct (loads_b64 c).
           ++ intros (r' & [= <-] & _ & [H | (d & H & _ & He)]); congruence.
        -- split.
           ++ intros [= <-]. exists r. repeat split; [done |]. right. by exists data.
           ++ intros (r' & [= <-] & _ & [H | (d & H & _ & He)]); congruence.
    + split.
      * intros [= <-]. exists r. repeat split; [done |]. by left.
      * intros (r' & [= <-] & _ & [H | (d & H & _ & He)]); congruence.
  - split; [done |]. by intros (r' & ? & _).
Qed.

Lemma text_body_makes_the_fetch_raise :
  fetch_package_json_at_ref (fun _ => Returned JNull) text_body "u"
  = Raised (AttributeError "object has no attribute 'get'").
Proof.
  apply (proj2 (manifest_fetch_raises_on_body_only (fun _ => Returned JNull)
                  text_body "u" _)).
  eexists. split; [reflexivity |]. split; [cbn; lia |].
  right. eexists. split; [reflexivity |]. split; reflexivity.
Defined.

(** X21.  The two accessors of the history never raise.
    [list_commits_touching_path] answers the body of any answer its
    request returns, whatever the status below 400 and whether or not the
    body is an array, and the empty list otherwise; [get_commit_detail]
    answers a body only from a status 200. *)
Theorem history_accessors_answers (t : transport value) (url : string) :
  (forall r, fst (request_with_backoff t url default_max_retries) = Returned r ->
     list_commits_touching_path t url
       = match json r with Returned items => items | Raised _ => JList [] end
     /\ get_commit_detail t url
        = if status_code r =? 200
          then match json r with Returned detail => detail | Raised _ => JNull end
          else JNull)
  /\ (forall e, fst (request_with_backoff t url default_max_retries) = Raised e ->
        list_commits_touching_path t url = JList []
        /\ get_commit_detail t url = JNull).
Proof.
  unfold list_commits_touching_path, get_commit_detail. split.
  - intros r Hr. rewrite Hr. pose proof (returned_below_400 t url r Hr).
    destruct (Z.eqb_spec (status_code r) 404); [lia |].
    split; [done |]. by destruct (status_code r =? 200).
  - intros e He. by rewrite He.
Qed.

Lemma history_accessors_answers_sample :
  list_commits_touching_path no_content "u" = JDict [("message", JStr "none")]%string
  /\ get_commit_detail no_content "u" = JNull.
Proof.
  exact (proj1 (history_accessors_answers no_content "u") _ eq_refl).
Defined.

End AccessorProperties.

(* ===================================================================== *)
(** ** The search                                                        *)
(* ===================================================================== *)

Module SearchProperties.

Import Json Search Samples AccessorSamples SearchSamples.

Lemma append_entries_length (items : list value) :
  forall results results',
    append_entries items results = Returned results' ->
    length results' = (length results + length items)%nat.
Proof.
  induction items as [| item items IH]; intros results results' Hrun; cbn in Hrun.
  - injection Hrun as <-. cbn. lia.
  - destruct (repo_entry_of item) as [entry |]; [| done]. cbn [bind] in Hrun.
    rewrite (IH _ _ Hrun), length_app. cbn. lia.
Qed.

(** Only an array of objects goes through the loop over the items: the
    keys of an object and the characters of a text cannot be subscripted
    by a name. *)
Lemma entries_need_a_list (data : value) (items : list value)
    (results results' : list repo_entry) :
  truthy data = true ->
  iter data = Returned items ->
  append_entries items results = Returned results' ->
  data = JList items /\ items <> [].
Proof.
  destruct data as [| b | z | q | s | items' | fields]; cbn; try done.
  - destruct s as [| c s]; [done |]. by intros _ [= <-].
  - destruct items'; [done |]. by intros _ [= <-].
  - destruct fields as [| [k v] fields]; [done |]. by intros _ [= <-].
Qed.

(** What an iteration that ran the loop over the items has done. *)
Lemma page_turn_spec (search : Z -> Z -> transport value)
    (results : list repo_entry) (remaining page : Z) (t : turn) :
  page_turn search results remaining page = Returned t ->
  t = Break results
  \/ exists items results',
       page_items (search (Z.min per_page remaining) page) = Returned (JList items)
       /\ items <> []
       /\ length results' = (length results + length items)%nat
       /\ t = if Z.of_nat (length items) <? Z.min per_page remaining
              then Break results'
              else Again results' (remaining - Z.of_nat (length items)) (page + 1).
Proof.
  unfold page_turn. cbv zeta.
  destruct (page_items (search (Z.min per_page remaining) page)) as [data |] eqn:Hdata;
    [| done].
  cbn [bind]. destruct (truthy data) eqn:Htruthy; cbn [negb]; [| intros [= <-]; by left].
  destruct (iter data) as [items |] eqn:Hiter; [| done]. cbn [bind].
  destruct (append_entries items results) as [results' |] eqn:Happend; [| done].
  cbn [bind].
  destruct (entries_need_a_list _ _ _ _ Htruthy Hiter Happend) as [-> Hitems].
  cbn [len bind]. intros Ht. right. exists items, results'.
  split; [done |]. split; [done |]. split; [by apply append_entries_length |].
  by destruct (_ <? _); injection Ht as <-.
Qed.

Lemma pages_run (fuel : nat) (search : Z -> Z -> transport value) :
  forall results remaining page asked,
    remaining <= Z.of_nat fuel ->
    exists out more,
      pages fuel search results remaining page asked = Some (out, asked ++ more)
      /\ map snd more = map (fun i => page + Z.of_nat i) (seq 0 (length more))
      /\ Forall (fun a => 1 <= a.1 <= per_page) more
      /\ (remaining <= 0 -> out = Returned results /\ more = []).
Proof.
  induction fuel as [| fuel IH]; intros results remaining page asked Hfuel.
  - cbn. destruct (Z.leb_spec remaining 0); [| lia].
    exists (Returned results), []. by rewrite app_nil_r.
  - cbn [pages]. destruct (Z.leb_spec remaining 0) as [Hdone | Hmore].
    { exists (Returned results), []. by rewrite app_nil_r. }
    assert (Hfirst : 1 <= Z.min per_page remaining <= per_page)
      by (unfold per_page; lia).
    assert (Hone : forall out,
      exists more,
        Some (out, asked ++ [(Z.min per_page remaining, page)]) = Some (out, asked ++ more)
        /\ map snd more = map (fun i => page + Z.of_nat i) (seq 0 (length more))
        /\ Forall (fun a => 1 <= a.1 <= per_page) more
        /\ (remaining <= 0 -> out = Returned results /\ more = [])).
    { intros out. exists [(Z.min per_page remaining, page)].
      split; [done |]. split; [cbn; f_equal; lia |].
      split; [by apply Forall_singleton | lia]. }
    destruct (page_turn search results remaining page) as [t | e] eqn:Hturn;
      [| exists (Raised e); apply Hone].
    destruct (page_turn_spec _ _ _ _ _ Hturn)
      as [-> | (items & results' & _ & Hitems & _ & ->)];
      [exists (Returned results); apply Hone |].
    destruct (Z.ltb_spec (Z.of_nat (length items)) (Z.min per_page remaining));
      [exists (Returned results'); apply Hone |].
    destruct (IH results' (remaining - Z.of_nat (length items)) (page + 1)
                (asked ++ [(Z.min per_page remaining, page)]))
      as (out & more & Hrun & Hpages & Htakes & _); [lia |].
    exists out, ((Z.min per_page remaining, page) :: more).
    rewrite Hrun, <- app_assoc.
    split; [done |]. split; [| split; [by constructor | lia]].
    cbn [map length seq]. rewrite Hpages, <- seq_shift, map_map.
    f_equal; [cbn; lia |]. apply map_ext. intros i. lia.
Qed.

(** X22.  The loop of [get_top_js_repos] ends, whatever the server
    answers: it asks for the pages 1, 2, 3, ... in turn, each with a page
    size between 1 and 100, and for none when the limit is not
    positive. *)
Theorem search_ends (search : Z -> Z -> transport value) (limit : Z) :
  exists out asked,
    get_top_js_repos search limit = Some (out, asked)
    /\ map snd asked = map (fun i => 1 + Z.of_nat i) (seq 0 (length asked))
    /\ Forall (fun a => 1 <= a.1 <= per_page) asked
    /\ (limit <= 0 -> out = Returned [] /\ asked = []).
Proof.
  unfold get_top_js_repos.
  destruct (pages_run (Z.to_nat limit) search [] limit 1 [])
    as (out & more & Hrun & Hpages & Htakes & Hnone); [lia |].
  by exists out, more.
Qed.

Lemma pages_honest (fuel : nat) (search : Z -> Z -> transport value) :
  honest search ->
  forall results remaining page asked out asked',
    0 <= remaining ->
    pages fuel search results remaining page asked = Some (Returned out, asked') ->
    Z.of_nat (length out) <= Z.of_nat (length results) + remaining
    /\ per_page * (Z.of_nat (length asked') - Z.of_nat (length asked))
       < remaining + per_page.
Proof.
  intros Hhonest.
  induction fuel as [| fuel IH]; intros results remaining page asked out asked' Hrem.
  - cbn. destruct (Z.leb_spec remaining 0); [| done].
    intros [= <- <-]. unfold per_page. lia.
  - cbn [pages]. destruct (Z.leb_spec remaining 0) as [Hdone | Hmore].
    { intros [= <- <-]. unfold per_page. lia. }
    destruct (page_turn search results remaining page) as [t | e] eqn:Hturn; [| done].
    destruct (page_turn_spec _ _ _ _ _ Hturn)
      as [-> | (items & results' & Hpage & Hitems & Hlen & ->)].
    { intros [= <- <-]. rewrite length_app. cbn [length]. unfold per_page. lia. }
    assert (Hsize : Z.of_nat (length items) <= Z.min per_page remaining)
      by (eapply Hhonest; [| exact Hpage]; unfold per_page; lia).
    destruct (Z.ltb_spec (Z.of_nat (length items)) (Z.min per_page remaining)).
    { intros [= <- <-]. rewrite length_app. cbn [length]. unfold per_page in *. lia. }
    intros Hrun. apply IH in Hrun; [| lia].
    rewrite length_app in Hrun. cbn [length] in Hrun. unfold per_page in *. lia.
Qed.

(** X23.  Against a server that never answers more items than the page
    size asked, [get_top_js_repos] answers at most [limit] repositories
    and asks for at most one page per hundred of them, the last one
    possibly short. *)
Theorem search_respects_limit (search : Z -> Z -> transport value) (limit : Z)
    (out : list repo_entry) (asked : list (Z * Z)) :
  honest search ->
  0 <= limit ->
  get_top_js_repos search limit = Some (Returned out, asked) ->
  Z.of_nat (length out) <= limit
  /\ per_page * Z.of_nat (length asked) < limit + per_page.
Proof.
  intros Hhonest Hlimit Hrun.
  destruct (pages_honest _ _ Hhonest _ _ _ _ _ _ Hlimit Hrun) as [Hout Hasked].
  cbn [length] in *. lia.
Qed.

Lemma ranking_page (take page : Z) :
  page_items (ranking take page)
  = Returned (page_of (fun i => found (Z.of_nat i)) take page).
Proof. reflexivity. Qed.

Lemma search_respects_limit_sample :
  honest ranking
  /\ (exists out asked,
        get_top_js_repos ranking 3 = Some (Returned out, asked)
        /\ Z.of_nat (length out) <= 3
        /\ per_page * Z.of_nat (length asked) < 3 + per_page).
Proof.
  assert (Hhonest : honest ranking).
  { intros take page items Htake. rewrite ranking_page. intros [= <-].
    rewrite length_map, length_seq. lia. }
  split; [exact Hhonest |].
  assert (Hrun : get_top_js_repos ranking 3
                 = Some (Returned (map found_entry (seq 0 3)), [(3, 1)]))
    by (vm_compute; reflexivity).
  eexists _, _. split; [exact Hrun |].
  exact (search_respects_limit ranking 3 _ _ Hhonest ltac:(lia) Hrun).
Defined.

Lemma append_ranked (rank : nat -> value) (entry : nat -> repo_entry) :
  (forall i, repo_entry_of (rank i) = Returned (entry i)) ->
  forall l results,
    append_entries (map rank l) results = Returned (results ++ map entry l).
Proof.
  intros Hentry. induction l as [| i l IH]; intros results; cbn.
  - by rewrite app_nil_r.
  - rewrite Hentry. cbn [bind]. by rewrite IH, <- app_assoc.
Qed.

(** One iteration against a server that pages by offset: the page is
    full, so the loop goes on. *)
Lemma page_turn_by_offset (search : Z -> Z -> transport value)
    (rank : nat -> value) (entry : nat -> repo_entry)
    (results : list repo_entry) (remaining page : Z) :
  pages_by_offset search rank entry ->
  0 < remaining -> 1 <= page ->
  page_turn search results remaining page
  = Returned
      (Again (results
                ++ map entry (seq (Z.to_nat ((page - 1) * Z.min per_page remaining))
                                  (Z.to_nat (Z.min per_page remaining))))
             (remaining - Z.min per_page remaining) (page + 1)).
Proof.
  intros [Hpage Hentry] Hrem Hfirst. unfold page_turn. cbv zeta.
  assert (Htake : 1 <= Z.min per_page remaining) by (unfold per_page; lia).
  rewrite (Hpage _ _ Htake Hfirst). cbn [bind]. unfold page_of.
  destruct (Z.to_nat (Z.min per_page remaining)) as [| n] eqn:Hn; [lia |].
  cbn [seq map truthy negb iter bind]. 
  change (rank ?a :: map rank ?l) with (map rank (a :: l)).
  rewrite (append_ranked rank entry Hentry). cbn [bind len].
  rewrite length_map. cbn [length]. rewrite length_seq.
  replace (Z.of_nat (S n)) with (Z.min per_page remaining) by lia.
  by rewrite Z.ltb_irrefl.
Qed.

Lemma pages_by_offset_run (search : Z -> Z -> transport value)
    (rank : nat -> value) (entry : nat -> repo_entry) (k : nat) :
  pages_by_offset search rank entry ->
  (0 < k < 100)%nat ->
  forall full fuel done asked,
    (full < fuel)%nat ->
    pages fuel search (map entry (seq 0 (100 * done)))
      (Z.of_nat (100 * full + k)) (Z.of_nat done + 1) asked
    = Some (Returned (map entry (seq 0 (100 * (done + full))
                                 ++ seq ((done + full) * k) k)),
            asked ++ map (fun i => (per_page, Z.of_nat (done + i) + 1)) (seq 0 full)
                  ++ [(Z.of_nat k, Z.of_nat (done + full) + 1)]).
Proof.
  intros Hserver Hk.
  induction full as [| full IH]; intros fuel done asked Hfuel;
    (destruct fuel as [| fuel]; [lia |]); cbn [pages].
  - destruct (Z.leb_spec (Z.of_nat (100 * 0 + k)) 0); [lia |].
    rewrite (page_turn_by_offset search rank entry) by (done || lia).
    replace (Z.min per_page (Z.of_nat (100 * 0 + k))) with (Z.of_nat k)
      by (unfold per_page; lia).
    replace (Z.of_nat (100 * 0 + k) - Z.of_nat k) with 0 by lia.
    replace (Z.to_nat ((Z.of_nat done + 1 - 1) * Z.of_nat k)) with (done * k)%nat by lia.
    rewrite Nat2Z.id, Nat.add_0_r.
    destruct fuel; cbn [pages Z.leb Z.compare]; by rewrite map_app.
  - destruct (Z.leb_spec (Z.of_nat (100 * S full + k)) 0); [lia |].
    rewrite (page_turn_by_offset search rank entry) by (done || lia).
    replace (Z.min per_page (Z.of_nat (100 * S full + k))) with 100
      by (unfold per_page; lia).
    replace (Z.to_nat ((Z.of_nat done + 1 - 1) * 100)) with (100 * done)%nat by lia.
    replace (Z.of_nat (100 * S full + k) - 100) with (Z.of_nat (100 * full + k)) by lia.
    replace (Z.of_nat done + 1 + 1) with (Z.of_nat (S done) + 1) by lia.
    change (Z.to_nat 100) with 100%nat.
    rewrite <- map_app, <- seq_app.
    replace (100 * done + 100)%nat with (100 * S done)%nat by lia.
    rewrite IH by lia.
    replace (S done + full)%nat with (done + S full)%nat by lia.
    f_equal. f_equal. rewrite <- !app_assoc. f_equal.
    cbn [seq map app]. rewrite Nat.add_0_r. f_equal.
    rewrite <- seq_shift, map_map. f_equal.
    apply map_ext. intros i. do 2 f_equal. lia.
Qed.

(** X24.  With a limit that is no multiple of 100, the last page is asked
    for with a smaller page size, and a server that pages by offset
    counts the offset of that page in the smaller size: for the limit
    100 * full + k the answer is the first 100 * full repositories of the
    ranking followed by the k repositories from the rank full * k on,
    which are not the next ones of the ranking. *)
Theorem short_last_page_restarts (search : Z -> Z -> transport value)
    (rank : nat -> value) (entry : nat -> repo_entry) (full k : nat) :
  pages_by_offset search rank entry ->
  (0 < k < 100)%nat ->
  get_top_js_repos search (Z.of_nat (100 * full + k))
  = Some (Returned (map entry (seq 0 (100 * full) ++ seq (full * k) k)),
          map (fun i => (per_page, Z.of_nat i + 1)) (seq 0 full)
          ++ [(Z.of_nat k, Z.of_nat full + 1)]).
Proof.
  intros Hserver Hk. unfold get_top_js_repos.
  exact (pages_by_offset_run search rank entry k Hserver Hk full
           (Z.to_nat (Z.of_nat (100 * full + k))) 0 [] ltac:(lia)).
Qed.

Lemma short_last_page_restarts_sample :
  pages_by_offset ranking (fun i => found (Z.of_nat i)) found_entry
  /\ get_top_js_repos ranking 102
     = Some (Returned (map found_entry (seq 0 100 ++ [2; 3]%nat)),
             [(100, 1); (2, 2)]).
Proof.
  assert (Hserver : pages_by_offset ranking (fun i => found (Z.of_nat i)) found_entry).
  { split; [intros take page _ _; apply ranking_page | reflexivity]. }
  split; [exact Hserver |].
  exact (short_last_page_restarts ranking _ found_entry 1 2 Hserver ltac:(lia)).
Defined.

End SearchProperties.

(* ===================================================================== *)
(** ** The batched manifest query                                        *)
(* ===================================================================== *)

Module GraphqlProperties.

Import Json Graphql Samples AccessorSamples GraphqlSamples.

Lemma keys_set {V} (k : string) (v : V) (d : list (string * V)) (n : string) :
  n ∈ dict_keys (dict_set k v d) <-> n = k \/ n ∈ dict_keys d.
Proof.
  unfold dict_keys. induction d as [| [k' v'] d IH]; cbn.
  - rewrite list_elem_of_singleton. split; [by left | intros [? | ?%elem_of_nil]; done].
  - destruct (String.eqb_spec k k') as [-> | Hne]; cbn; rewrite !elem_of_cons.
    + tauto.
    + rewrite IH. tauto.
Qed.

Lemma set_fresh {V} (k : string) (v : V) (d : list (string * V)) :
  k ∉ dict_keys d -> dict_set k v d = d ++ [(k, v)].
Proof.
  unfold dict_keys. induction d as [| [k' v'] d IH]; cbn; [done |].
  rewrite not_elem_of_cons. intros [Hne Hd].
  destruct (String.eqb_spec k k'); [done |]. by rewrite IH.
Qed.

Lemma get_set {V} (k : string) (v : V) (d : list (string * V)) (n : string) :
  dict_get n (dict_set k v d) = if String.eqb k n then Some v else dict_get n d.
Proof.
  induction d as [| [k' v'] d IH]; cbn.
  - by rewrite String.eqb_sym.
  - destruct (String.eqb_spec k k') as [-> | Hne]; cbn.
    + rewrite (String.eqb_sym n k'). by destruct (String.eqb k' n).
    + rewrite IH. destruct (String.eqb_spec n k') as [-> | Hne'].
      * by destruct (String.eqb_spec k k').
      * done.
Qed.

Lemma alias_of_inj (i j : nat) : alias_of i = alias_of j -> i = j.
Proof.
  unfold alias_of. intros H. apply Unsigned.to_uint_inj.
  assert (H' : NilEmpty.string_of_uint (Nat.to_uint i)
               = NilEmpty.string_of_uint (Nat.to_uint j)) by (by injection H).
  apply (f_equal NilEmpty.uint_of_string) in H'. rewrite !NilEmpty.usu in H'.
  by injection H'.
Qed.

Lemma blank_block_keys (block : list string) :
  forall out n,
    n ∈ dict_keys (blank_block block out) <-> n ∈ dict_keys out \/ n ∈ block.
Proof.
  induction block as [| full block IH]; intros out n.
  - cbn. rewrite elem_of_nil. tauto.
  - etrans; [exact (IH (dict_set full JNull out) n) |].
    rewrite keys_set, elem_of_cons. tauto.
Qed.

Lemma blank_block_get (block : list string) :
  forall out n,
    dict_get n (blank_block block out)
    = if decide (n ∈ block) then Some JNull else dict_get n out.
Proof.
  induction block as [| full block IH]; intros out n.
  - cbn. by rewrite decide_False by apply not_elem_of_nil.
  - etrans; [exact (IH (dict_set full JNull out) n) |].
    destruct (decide (n ∈ block)) as [Hin | Hout].
    + by rewrite decide_True by (by right).
    + rewrite get_set. destruct (String.eqb_spec full n) as [-> | Hne].
      * by rewrite decide_True by (by left).
      * rewrite decide_False; [done |]. rewrite elem_of_cons.
        intros [Heq | Hin]; [by symmetry in Heq | done].
Qed.

(** The numbering of a block: a name without a slash is blanked at once,
    the others are in the alias map afterwards. *)
Lemma number_block_spec (block : list string) :
  forall idx parts alias_map out,
    (forall a, a ∈ dict_keys alias_map -> exists j, (j < idx)%nat /\ a = alias_of j) ->
    let '(_, alias_map', out') := number_block idx block parts alias_map out in
    (forall n, n ∈ dict_keys out' -> n ∈ dict_keys out \/ n ∈ block)
    /\ (forall n, n ∈ dict_keys out -> n ∈ dict_keys out')
    /\ (forall n, n ∈ map snd alias_map' -> n ∈ map snd alias_map \/ n ∈ block)
    /\ (forall n, n ∈ map snd alias_map -> n ∈ map snd alias_map')
    /\ (forall n, n ∈ block -> n ∈ dict_keys out' \/ n ∈ map snd alias_map').
Proof.
  induction block as [| full block IH]; intros idx parts alias_map out Hfresh.
  - cbn. repeat split; auto. by intros n ?%elem_of_nil.
  - cbn [number_block]. destruct (split_slash full) as [[owner name] | e].
    + assert (Hnew : alias_of idx ∉ dict_keys alias_map).
      { intros (j & Hj & Heq%alias_of_inj)%Hfresh. lia. }
      rewrite (set_fresh _ _ _ Hnew).
      specialize (IH (S idx) (parts ++ [qpart_of (alias_of idx) owner name])
                    (alias_map ++ [(alias_of idx, full)]) out).
      destruct (number_block _ _ _ _ _) as [[parts' alias_map'] out'].
      destruct IH as (H1 & H2 & H3 & H4 & H5).
      { intros a. unfold dict_keys. rewrite map_app, elem_of_app. cbn.
        intros [Ha | ->%list_elem_of_singleton].
        - destruct (Hfresh a Ha) as (j & Hj & ->). exists j. split; [lia | done].
        - exists idx. split; [lia | done]. }
      setoid_rewrite map_app in H3. setoid_rewrite map_app in H4.
      setoid_rewrite elem_of_app in H3. setoid_rewrite elem_of_app in H4.
      cbn in H3, H4. setoid_rewrite list_elem_of_singleton in H3.
      setoid_rewrite list_elem_of_singleton in H4.
      setoid_rewrite elem_of_cons. repeat split.
      * intros n Hn. destruct (H1 n Hn); auto.
      * auto.
      * intros n Hn. destruct (H3 n Hn) as [[? | ->] | ?]; auto.
      * auto.
      * intros n [-> | Hn]; [right; apply H4; by right | auto].
    + specialize (IH (S idx) parts alias_map (dict_set full JNull out)).
      destruct (number_block _ _ _ _ _) as [[parts' alias_map'] out'].
      destruct IH as (H1 & H2 & H3 & H4 & H5).
      { intros a Ha. destruct (Hfresh a Ha) as (j & Hj & ->).
        exists j. split; [lia | done]. }
      setoid_rewrite keys_set in H1. setoid_rewrite keys_set in H2.
      setoid_rewrite elem_of_cons. repeat split.
      * intros n Hn. destruct (H1 n Hn) as [[-> | ?] | ?]; auto.
      * auto.
      * intros n Hn. destruct (H3 n Hn); auto.
      * auto.
      * intros n [-> | Hn]; [left; apply H2; by left | auto].
Qed.

(** The reading of the answers: every name whose turn came is in the map,
    and no key is lost. *)
Lemma read_answers_spec (parse : string -> outcome value) (data : value)
    (items : list (string * string)) :
  forall out,
    let '(out', ended) := read_answers parse data items out in
    (forall n, n ∈ dict_keys out' -> n ∈ dict_keys out \/ n ∈ map snd items)
    /\ (forall n, n ∈ dict_keys out -> n ∈ dict_keys out')
    /\ (forall u, ended = Returned u ->
          forall n, n ∈ map snd items -> n ∈ dict_keys out').
Proof.
  induction items as [| [alias full] items IH]; intros out.
  - cbn. repeat split; auto. by intros u _ n ?%elem_of_nil.
  - cbn [read_answers].
    assert (Hstop : forall e,
      (forall n, n ∈ dict_keys out -> n ∈ dict_keys out \/ n ∈ map snd ((alias, full) :: items))
      /\ (forall n, n ∈ dict_keys out -> n ∈ dict_keys out)
      /\ (forall u, @Raised unit e = Returned u ->
            forall n, n ∈ map snd ((alias, full) :: items) -> n ∈ dict_keys out))
      by (intros e; repeat split; auto; done).
    assert (Hgo : forall v,
      let '(out', ended) := read_answers parse data items (dict_set full v out) in
      (forall n, n ∈ dict_keys out' -> n ∈ dict_keys out \/ n ∈ map snd ((alias, full) :: items))
      /\ (forall n, n ∈ dict_keys out -> n ∈ dict_keys out')
      /\ (forall u, ended = Returned u ->
            forall n, n ∈ map snd ((alias, full) :: items) -> n ∈ dict_keys out')).
    { intros v. specialize (IH (dict_set full v out)).
      destruct (read_answers parse data items (dict_set full v out)) as [out' ended].
      destruct IH as (H1 & H2 & H3).
      setoid_rewrite keys_set in H1. setoid_rewrite keys_set in H2.
      cbn [map snd]. setoid_rewrite elem_of_cons. repeat split.
      - intros n Hn. destruct (H1 n Hn) as [[-> | ?] | ?]; auto.
      - auto.
      - intros u Hu n [-> | Hn]; [apply H2; by left | eauto]. }
    destruct (if truthy data then get data alias JNull else Returned JNull)
      as [repo_obj | e]; [| apply Hstop].
    destruct (negb (truthy repo_obj)); [apply Hgo |].
    destruct (get repo_obj "object" JNull) as [obj | e]; [| apply Hstop].
    destruct (if truthy obj then _ else _) as [[|] | e]; [| apply Hgo | apply Hstop].
    destruct (try_except _ _) as [v | e]; [apply Hgo | apply Hstop].
Qed.

(** After the turn of a block, the keys of the map are those it had and
    the names of the block. *)
Lemma fetch_block_keys (graphql : string -> transport value)
    (parse : string -> outcome value) (block : list string) (out : manifests)
    (n : string) :
  n ∈ dict_keys (fetch_block graphql parse block out).1
  <-> n ∈ dict_keys out \/ n ∈ block.
Proof.
  unfold fetch_block.
  pose proof (number_block_spec block 0 [] [] out) as Hnumber.
  destruct (number_block 0 block [] [] out) as [[parts alias_map] out1].
  destruct Hnumber as (H1 & H2 & H3 & _ & H5); [by intros a ?%elem_of_nil |].
  assert (Hblank : forall out2,
            (forall n, n ∈ dict_keys out2 -> n ∈ dict_keys out1 \/ n ∈ map snd alias_map) ->
            (forall n, n ∈ dict_keys out1 -> n ∈ dict_keys out2) ->
            n ∈ dict_keys (blank_block block out2) <-> n ∈ dict_keys out \/ n ∈ block).
  { intros out2 Hsub Hsup. rewrite blank_block_keys.
    split; [| intros [Hn | Hn]; [left; by apply Hsup, H2 | by right]].
    intros [Hn | Hn]; [| by right].
    destruct (Hsub n Hn) as [Hn1 | Hn1]; [by apply H1 |].
    destruct (H3 n Hn1) as [?%elem_of_nil | ?]; [done | by right]. }
  destruct (block_data graphql (query_of parts)) as [data | e]; cbn [fst];
    [| apply Hblank; auto].
  pose proof (read_answers_spec parse data alias_map out1) as Hread.
  destruct (read_answers parse data alias_map out1) as [out2 [u | e]];
    destruct Hread as (R1 & R2 & R3); cbn [fst]; [| by apply Hblank].
  split.
  - intros Hn. destruct (R1 n Hn) as [Hn1 | Hn1]; [by apply H1 |].
    destruct (H3 n Hn1) as [?%elem_of_nil | ?]; [done | by right].
  - intros [Hn | Hn]; [by apply R2, H2 |].
    destruct (H5 n Hn) as [Hn1 | Hn1]; [by apply R2 | by eapply R3].
Qed.

Lemma blocks_keys (graphql : string -> transport value)
    (parse : string -> outcome value) (names : list string) (size : Z)
    (starts : list Z) :
  forall out queries,
    let step := fun '(out, queries) i =>
      let '(out, query) := fetch_block graphql parse (slice names i (i + size)) out in
      (out, queries ++ [query]) in
    (forall n, n ∈ dict_keys (fold_left step starts (out, queries)).1
               <-> n ∈ dict_keys out
                   \/ exists i, i ∈ starts /\ n ∈ slice names i (i + size))
    /\ length (fold_left step starts (out, queries)).2
       = (length queries + length starts)%nat.
Proof.
  cbn zeta. induction starts as [| i starts IH]; intros out queries.
  - cbn. split; [| lia]. intros n. split; [by left |].
    by intros [? | (i & ?%elem_of_nil & _)].
  - cbn [fold_left].
    pose proof (fetch_block_keys graphql parse (slice names i (i + size)) out) as Hblock.
    destruct (fetch_block graphql parse (slice names i (i + size)) out) as [out' query].
    cbn [fst] in Hblock. destruct (IH out' (queries ++ [query])) as [Hkeys Hlen].
    split; [| rewrite Hlen, length_app; cbn; lia].
    intros n. rewrite Hkeys, Hblock. setoid_rewrite elem_of_cons. split.
    + intros [[Hn | Hn] | (j & Hj & Hn)];
        [by left | right; exists i; auto | right; exists j; auto].
    + intros [Hn | (j & [-> | Hj] & Hn)];
        [by left; left | by left; right | right; by exists j].
Qed.

(** The blocks of a positive size cover the list. *)
Lemma blocks_cover {A} (l : list A) (size : Z) (x : A) :
  0 < size ->
  x ∈ l
  <-> exists i,
        i ∈ map (fun k => 0 + Z.of_nat k * size)
              (seq 0 (Z.to_nat ((Z.of_nat (length l) - 0 + size - 1) / size)))
        /\ x ∈ slice l i (i + size).
Proof.
  intros Hsize. unfold slice. split.
  - intros (j & Hj)%list_elem_of_lookup_1.
    pose proof (lookup_lt_Some _ _ _ Hj) as Hlen.
    exists (Z.of_nat j / size * size). split.
    + apply list_elem_of_fmap. exists (Z.to_nat (Z.of_nat j / size)).
      split; [rewrite Z2Nat.id by (apply Z.div_pos; lia); lia |].
      apply elem_of_seq. split; [lia |]. cbn.
      apply Z2Nat.inj_lt; [apply Z.div_pos; lia | apply Z.div_pos; lia |].
      apply Z.div_lt_upper_bound; [lia |].
      pose proof (Z.mul_div_le (Z.of_nat (length l) - 0 + size - 1) size Hsize).
      pose proof (Z.mod_pos_bound (Z.of_nat (length l) - 0 + size - 1) size Hsize).
      pose proof (Z.div_mod (Z.of_nat (length l) - 0 + size - 1) size ltac:(lia)).
      nia.
    + pose proof (Z.div_mod (Z.of_nat j) size ltac:(lia)).
      pose proof (Z.mod_pos_bound (Z.of_nat j) size Hsize).
      pose proof (Z.div_pos (Z.of_nat j) size ltac:(lia) Hsize).
      apply list_elem_of_lookup_2 with (Z.to_nat (Z.of_nat j mod size)).
      rewrite lookup_take_lt by lia. rewrite lookup_drop.
      replace (Z.to_nat (Z.of_nat j / size * size) + Z.to_nat (Z.of_nat j mod size))%nat
        with j by nia.
      done.
  - intros (i & _ & Hx). by apply subseteq_take, subseteq_drop in Hx.
Qed.


(** X25.  With a positive batch size, [graphql_fetch_package_json_batch]
    returns, the keys of the map it answers are exactly the names it was
    given (a name maps to [None] when nothing could be read for it), and it
    posts one query per block: the number of names over the batch size,
    rounded up. *)
Theorem batch_covers_every_name (graphql : string -> transport value)
    (parse : string -> outcome value) (names : list string) (batch_size : Z) :
  0 < batch_size ->
  exists out queries,
    graphql_fetch_package_json_batch graphql parse names batch_size
      = Returned (out, queries)
    /\ (forall n, n ∈ dict_keys out <-> n ∈ names)
    /\ Z.of_nat (length queries)
       = (Z.of_nat (length names) + batch_size - 1) / batch_size.
Proof.
  intros Hsize. unfold graphql_fetch_package_json_batch, range.
  destruct (Z.eqb_spec batch_size 0); [lia |].
  destruct (Z.ltb_spec 0 batch_size); [| lia]. cbn [bind].
  eexists _, _. split; [apply f_equal, surjective_pairing |].
  match goal with
  | |- context [fold_left ?f ?starts (?o, ?q)] =>
      destruct (blocks_keys graphql parse names batch_size starts o q) as [Hkeys Hlen]
  end.
  split.
  - intros name. etrans; [exact (Hkeys name) |].
    rewrite (blocks_cover names batch_size name Hsize).
    cbn. rewrite elem_of_nil. tauto.
  - etrans; [exact (f_equal Z.of_nat Hlen) |].
    rewrite length_map, length_seq. cbn [length Nat.add].
    rewrite Z2Nat.id; [f_equal; lia |].
    apply Z.div_pos; lia.
Qed.

Lemma batch_covers_every_name_sample :
  exists out queries,
    graphql_fetch_package_json_batch first_alias_only parse_empty_object
      ["a/b"; "left-pad"; "c/d"]%string 2
      = Returned (out, queries)
    /\ (forall n, n ∈ dict_keys out <-> n ∈ ["a/b"; "left-pad"; "c/d"]%string)
    /\ Z.of_nat (length queries) = 2.
Proof.
  apply (batch_covers_every_name first_alias_only parse_empty_object
           ["a/b"; "left-pad"; "c/d"]%string 2).
  lia.
Defined.

(** X26.  A batch size that is not positive never reaches the server: zero
    makes [graphql_fetch_package_json_batch] raise the [ValueError] of
    [range], before any name is looked at, and a negative one makes it
    answer the empty map, so that every repository counts as having no
    manifest. *)
Theorem batch_size_not_positive (graphql : string -> transport value)
    (parse : string -> outcome value) (names : list string) (batch_size : Z) :
  batch_size <= 0 ->
  graphql_fetch_package_json_batch graphql parse names batch_size
  = if batch_size =? 0
    then Raised (ValueError "range() arg 3 must not be zero")
    else Returned ([], []).
Proof.
  intros Hsize. unfold graphql_fetch_package_json_batch, range.
  destruct (Z.eqb_spec batch_size 0); [done |].
  destruct (Z.ltb_spec 0 batch_size); [lia |]. cbn [bind].
  replace (Z.to_nat ((0 - Z.of_nat (length names) - batch_size - 1) / - batch_size))
    with 0%nat; [done |].
  assert ((0 - Z.of_nat (length names) - batch_size - 1) / - batch_size < 1); [| lia].
  apply Z.div_lt_upper_bound; lia.
Qed.

Lemma batch_size_not_positive_sample :
  graphql_fetch_package_json_batch first_alias_only parse_empty_object
    ["a/b"; "c/d"]%string (-40)
  = Returned ([], []).
Proof.
  apply (batch_size_not_positive first_alias_only parse_empty_object
           ["a/b"; "c/d"]%string (-40)).
  lia.
Defined.

(** X27.  A block is read to its end or blanked as a whole: when its
    request fails, or the body or any answer in it has not the expected
    shape, every repository of the block maps to [None], also those whose
    manifest had been read before the failure. *)
Theorem block_is_read_or_blanked (graphql : string -> transport value)
    (parse : string -> outcome value) (block : list string) (out : manifests) :
  let '(parts, alias_map, numbered) := number_block 0 block [] [] out in
  (exists data,
     block_data graphql (query_of parts) = Returned data
     /\ read_answers parse data alias_map numbered
        = ((fetch_block graphql parse block out).1, Returned tt))
  \/ (forall n, n ∈ block ->
        dict_get n (fetch_block graphql parse block out).1 = Some JNull).
Proof.
  unfold fetch_block.
  destruct (number_block 0 block [] [] out) as [[parts alias_map] numbered].
  assert (Hblank : forall out2 n, n ∈ block ->
            dict_get n (blank_block block out2) = Some JNull).
  { intros out2 n Hn. rewrite blank_block_get. by rewrite decide_True. }
  destruct (block_data graphql (query_of parts)) as [data | e]; [| right; apply Hblank].
  destruct (read_answers parse data alias_map numbered) as [out2 [[] | e]] eqn:Hread;
    cbn [fst]; [left; by exists data | right; apply Hblank].
Qed.

Lemma one_garbled_answer_blanks_the_block :
  (fetch_block second_alias_garbled parse_empty_object ["a/b"; "c/d"]%string []).1
    = [("a/b", JNull); ("c/d", JNull)]%string
  /\ (read_answers parse_empty_object
        (JDict [("r0", JDict [("object", JDict [("text", JStr "{}")])]);
                ("r1", JInt 5)]%string)
        [("r0", "a/b"); ("r1", "c/d")]%string []).1
     = [("a/b", JDict [])]%string
  /\ forall n, n ∈ ["a/b"; "c/d"]%string ->
       dict_get n (fetch_block second_alias_garbled parse_empty_object
                     ["a/b"; "c/d"]%string []).1 = Some JNull.
Proof.
  split; [reflexivity |]. split; [reflexivity |].
  destruct (block_is_read_or_blanked second_alias_garbled parse_empty_object
              ["a/b"; "c/d"]%string []) as [(data & Hdata & Hread) | Hblank];
    [| exact Hblank].
  injection Hdata as <-. discriminate Hread.
Defined.

End GraphqlProperties.

(* ===================================================================== *)
(** ** The audit of a repository                                         *)
(* ===================================================================== *)

Module RepoMetricsProperties.

Import Json Metrics RepoMetrics Samples RepoMetricsSamples.

Lemma filter_ext_elem {A} (P Q : A -> Prop) `{!forall x, Decision (P x)}
    `{!forall x, Decision (Q x)} (l : list A) :
  (forall x, x ∈ l -> P x <-> Q x) -> filter P l = filter Q l.
Proof.
  induction l as [| x l IH]; intros Hext; [done |].
  rewrite !filter_cons.
  assert (Hx : P x <-> Q x) by (apply Hext; by left).
  rewrite IH by (intros y Hy; apply Hext; by right).
  destruct (decide (P x)), (decide (Q x)); tauto || done.
Qed.

Lemma add_missing_keys (agg : list (string * value)) (kv : string * value) :
  (forall n, n ∈ dict_keys (add_missing agg kv) <-> n = kv.1 \/ n ∈ dict_keys agg)
  /\ (NoDup (dict_keys agg) -> NoDup (dict_keys (add_missing agg kv))).
Proof.
  unfold add_missing. destruct (dict_get kv.1 agg) as [v |] eqn:Hget.
  - split; [| done]. intros n. split; [by right |]. intros [-> | Hn]; [| done].
    destruct (decide (kv.1 ∈ dict_keys agg)) as [Hin | Hout]; [done |].
    apply DependencyDiff.dict_get_None in Hout. congruence.
  - apply DependencyDiff.dict_get_None in Hget.
    rewrite (GraphqlProperties.set_fresh _ _ _ Hget). unfold dict_keys in *.
    rewrite map_app. cbn. split.
    + intros n. rewrite elem_of_app, list_elem_of_singleton. tauto.
    + intros Hnodup. apply NoDup_app. split; [done |]. split; [| apply NoDup_singleton].
      intros n Hn ->%list_elem_of_singleton. done.
Qed.

Lemma add_all_NoDup (kvs : list (string * value)) :
  forall agg, NoDup (dict_keys agg) -> NoDup (dict_keys (fold_left add_missing kvs agg)).
Proof.
  induction kvs as [| kv kvs IH]; intros agg Hagg; [done |].
  cbn. by apply IH, add_missing_keys.
Qed.

Lemma aggregate_NoDup (pkg_jsons : list (string * value)) :
  forall deps_agg dev_deps_agg deps_agg' dev_deps_agg',
    NoDup (dict_keys deps_agg) ->
    aggregate pkg_jsons deps_agg dev_deps_agg = Returned (deps_agg', dev_deps_agg') ->
    NoDup (dict_keys deps_agg').
Proof.
  induction pkg_jsons as [| [path pkg] pkg_jsons IH];
    intros deps_agg dev_deps_agg deps_agg' dev_deps_agg' Hnodup Hrun.
  - by injection Hrun as <- <-.
  - cbn [aggregate] in Hrun.
    destruct (get pkg "dependencies" (JDict [])) as [deps |]; [| done].
    cbn [bind] in Hrun.
    destruct (get pkg "devDependencies" (JDict [])) as [dev |]; [| done].
    cbn [bind] in Hrun.
    destruct (items (or_else deps (JDict []))) as [deps_items |]; [| done].
    cbn [bind] in Hrun.
    destruct (items (or_else dev (JDict []))) as [dev_items |]; [| done].
    cbn [bind] in Hrun.
    eapply IH; [| exact Hrun]. by apply add_all_NoDup.
Qed.

Lemma lookup_posts (post : string -> outcome osv_response) (n : string)
    (cache : gmap string cve_entry) :
  (get_cve_for_package post n cache).2
  = match cache !! n with Some _ => [] | None => [n] end.
Proof.
  unfold get_cve_for_package. destruct (cache !! n); [done |].
  by destruct (osv_try post n) as [[result |] | e].
Qed.

Lemma lookup_others (post : string -> outcome osv_response) (n k : string)
    (cache : gmap string cve_entry) :
  k <> n -> (get_cve_for_package post n cache).1.2 !! k = cache !! k.
Proof.
  intros Hk. unfold get_cve_for_package. destruct (cache !! n); [done |].
  destruct (osv_try post n) as [[result |] | e]; cbn; by rewrite lookup_insert_ne.
Qed.

Lemma audit_step_eq (post : string -> outcome osv_response) (st : audit_state)
    (dep : string) :
  audit_step post st dep
  = let out := get_cve_for_package post dep (RepoMetrics.cache st) in
    mkAudit out.1.2 (total_vulns st + out.1.1.1)
      (match out.1.1.2 with [] => cve_list st | _ => cve_list st ++ out.1.1.2 end)
      (posted st ++ out.2).
Proof.
  unfold audit_step.
  by destruct (get_cve_for_package post dep (RepoMetrics.cache st))
    as [[[count ids] cache1] names].
Qed.

(** The loop over the runtime dependencies, with distinct names. *)
Lemma audit_run (post : string -> outcome osv_response) (deps : list string) :
  NoDup deps ->
  forall st,
    let st' := fold_left (audit_step post) deps st in
    posted st' = posted st ++ filter (fun n => RepoMetrics.cache st !! n = None) deps
    /\ (forall n, n ∈ deps -> is_Some (RepoMetrics.cache st' !! n))
    /\ (forall k v, RepoMetrics.cache st !! k = Some v -> RepoMetrics.cache st' !! k = Some v)
    /\ (forall k, k ∉ deps -> RepoMetrics.cache st' !! k = RepoMetrics.cache st !! k)
    /\ total_vulns st'
       = total_vulns st + Zsum (map (cached_count (RepoMetrics.cache st')) deps)
    /\ (forall id, id ∈ cve_list st'
                   <-> id ∈ cve_list st
                       \/ exists n, n ∈ deps /\ id ∈ cached_ids (RepoMetrics.cache st') n).
Proof.
  induction 1 as [| dep deps Hdep Hdeps IH]; intros st.
  - cbn. rewrite app_nil_r. unfold Zsum. cbn. repeat split; auto; try lia.
    + by intros n ?%elem_of_nil.
    + intros [? | (n & ?%elem_of_nil & _)]; done.
  - cbn [fold_left]. specialize (IH (audit_step post st dep)).
    cbv zeta in IH. destruct IH as (Hposted & Hall & Hkeep & Hother & Htotal & Hids).
    pose proof (VulnerabilityCacheMore.lookup_is_stored post dep (RepoMetrics.cache st))
      as Hstored.
    pose proof (lookup_posts post dep (RepoMetrics.cache st)) as Hnames.
    pose proof (fun k v => VulnerabilityCache.lookup_keeps_entries post dep k v
                             (RepoMetrics.cache st)) as Hkept.
    pose proof (fun k => lookup_others post dep k (RepoMetrics.cache st)) as Hrest.
    rewrite (audit_step_eq post st dep) in *. cbv zeta in *.
    destruct (get_cve_for_package post dep (RepoMetrics.cache st))
      as [[[count ids] cache1] names].
    cbn [fst snd RepoMetrics.cache posted total_vulns cve_list] in *.
    set (st' := fold_left (audit_step post) deps _) in *.
    assert (Hdep' : RepoMetrics.cache st' !! dep = Some (count, ids))
      by (by apply Hkeep).
    split; [| split; [| split; [| split; [| split]]]].
    + rewrite Hposted, Hnames, <- app_assoc. f_equal. rewrite filter_cons.
      rewrite (filter_ext_elem (fun n => cache1 !! n = None)
                 (fun n => RepoMetrics.cache st !! n = None)).
      * by destruct (RepoMetrics.cache st !! dep) eqn:Hc; [rewrite decide_False | rewrite decide_True].
      * intros n Hn. rewrite Hrest; [done |]. by intros ->.
    + intros n [-> | Hn]%elem_of_cons; [by eexists | by apply Hall].
    + intros k v Hk. by apply Hkeep, Hkept.
    + intros k [Hne Hk]%not_elem_of_cons. by rewrite Hother, Hrest.
    + rewrite Htotal. unfold Zsum. cbn [map fold_right].
      unfold cached_count at 2. rewrite Hdep'. cbn. lia.
    + intros id. rewrite Hids. setoid_rewrite elem_of_cons.
      assert (Hnow : id ∈ match ids with [] => cve_list st | _ => cve_list st ++ ids end
                     <-> id ∈ cve_list st \/ id ∈ ids).
      { destruct ids; [rewrite elem_of_nil; tauto | by rewrite elem_of_app]. }
      rewrite Hnow. split.
      * intros [[Hid | Hid] | (n & Hn & Hid)]; [by left | | right; exists n; auto].
        right. exists dep. split; [by left |]. unfold cached_ids. by rewrite Hdep'.
      * intros [Hid | (n & [-> | Hn] & Hid)]; [by left; left | | right; exists n; auto].
        unfold cached_ids in Hid. rewrite Hdep' in Hid. by left; right.
Qed.

(** X28.  [compute_metrics_for_repo] posts one lookup for each distinct
    runtime dependency of the manifests that the cache does not hold, in
    the order of their first occurrence, and none for a package that is
    only a development dependency; afterwards the cache holds every
    runtime dependency, and what it held before is unchanged.  This is so
    also when the function raises at the end. *)
Theorem audit_posts_uncached_runtime_dependencies
    (post : string -> outcome osv_response) (file : cache_file)
    (pkg_jsons : list (string * value)) (repo_name : string)
    (osv_cache : option (gmap string cve_entry))
    (deps_agg dev_deps_agg : list (string * value)) :
  pkg_jsons <> [] ->
  aggregate pkg_jsons [] [] = Returned (deps_agg, dev_deps_agg) ->
  let start := working_cache file osv_cache in
  exists result cache,
    compute_metrics_for_repo post file pkg_jsons repo_name osv_cache
      = (result, Some cache,
         filter (fun n => start !! n = None) (dict_keys deps_agg))
    /\ NoDup (dict_keys deps_agg)
    /\ (forall n, n ∈ dict_keys deps_agg -> is_Some (cache !! n))
    /\ (forall k v, start !! k = Some v -> cache !! k = Some v)
    /\ (forall k, k ∉ dict_keys deps_agg -> cache !! k = start !! k).
Proof.
  intros Hsome Hagg start. unfold compute_metrics_for_repo.
  destruct pkg_jsons as [| pkg pkg_jsons]; [done |]. rewrite Hagg.
  assert (Hnodup : NoDup (dict_keys deps_agg)).
  { eapply aggregate_NoDup; [| exact Hagg]. apply NoDup_nil_2. }
  destruct (audit_run post (dict_keys deps_agg) Hnodup (mkAudit start 0 [] []))
    as (Hposted & Hall & Hkeep & Hother & _ & _).
  cbn [posted RepoMetrics.cache app] in *.
  eexists _, _. split; [| done].
  f_equal. exact Hposted.
Qed.

Lemma audit_posts_uncached_runtime_dependencies_sample :
  aggregate two_manifests [] []
    = Returned ([("lodash", JStr "^4.17.21"); ("left-pad", JStr "1.3.0")]%string,
                [("jest", JStr "^29.0.0")]%string)
  /\ exists result cache,
       compute_metrics_for_repo lodash_advisories None two_manifests "o/r" (Some ∅)
         = (result, Some cache, ["lodash"; "left-pad"]%string)
       /\ is_Some (cache !! "lodash"%string).
Proof.
  assert (Hagg : aggregate two_manifests [] []
                 = Returned ([("lodash", JStr "^4.17.21"); ("left-pad", JStr "1.3.0")]%string,
                             [("jest", JStr "^29.0.0")]%string))
    by reflexivity.
  split; [exact Hagg |].
  destruct (audit_posts_uncached_runtime_dependencies lodash_advisories None
              two_manifests "o/r" (Some ∅) _ _ ltac:(done) Hagg)
    as (result & cache & Hrun & _ & Hall & _).
  exists result, cache. split; [exact Hrun |].
  apply Hall. apply list_elem_of_here.
Defined.

#[local] Instance str_le_trans : Transitive str_le.
Proof. intros a b c. apply AccessorProperties.leb_trans. Qed.

#[local] Instance str_le_total : Total str_le.
Proof. intros a b. apply String.leb_total. Qed.

Lemma texts_length (l : list (option string)) :
  (length (omap id l) <= length l)%nat.
Proof.
  induction l as [| [s |] l IH]; cbn; lia.
Qed.

Lemma all_texts (l : list (option string)) :
  length (omap id l) = length l -> l = map Some (omap id l).
Proof.
  induction l as [| [s |] l IH]; cbn; [done | |].
  - intros [= Hlen]. by rewrite <- IH.
  - intros Hlen. pose proof (texts_length l). lia.
Qed.

Lemma no_texts (l : list (option string)) :
  omap id l = [] -> NoDup l -> l = [] \/ l = [None].
Proof.
  destruct l as [| [s |] l]; cbn; [by left | done |].
  intros Hl [Hhead _]%NoDup_cons. right. f_equal.
  destruct l as [| [s |] l]; [done | done |]. exfalso. apply Hhead. by left.
Qed.

Lemma sorted_ids_spec (cve_list cves : list (option string)) :
  sorted_ids cve_list = Returned cves ->
  (forall id, id ∈ cves <-> id ∈ cve_list)
  /\ NoDup cves
  /\ (cves = [None] \/ exists texts, cves = map Some texts /\ StronglySorted str_le texts).
Proof.
  unfold sorted_ids.
  pose proof (NoDup_remove_dups cve_list) as Hnodup.
  pose proof (elem_of_remove_dups cve_list) as Hsame.
  destruct (Nat.eqb_spec (length (omap id (remove_dups cve_list)))
              (length (remove_dups cve_list))) as [Hlen | Hlen].
  - intros [= <-]. apply all_texts in Hlen.
    remember (omap id (remove_dups cve_list)) as texts eqn:Htexts. clear Htexts.
    pose proof (merge_sort_Permutation str_le texts) as Hperm.
    split; [| split].
    + intros id. by rewrite <- Hsame, Hlen, Hperm.
    + rewrite Hlen in Hnodup. by rewrite Hperm.
    + right. eexists. split; [done |]. apply StronglySorted_merge_sort; apply _.
  - destruct (omap id (remove_dups cve_list)) eqn:Htexts; [| done].
    intros [= <-]. destruct (no_texts _ Htexts Hnodup) as [Hnil | Hone].
    + rewrite Hnil in Hlen. done.
    + split; [| split; [apply NoDup_singleton | by left]].
      intros id. by rewrite <- Hsame, Hone.
Qed.

(** X29.  When [compute_metrics_for_repo] returns for a non-empty list of
    manifests, [dependencies] is the number of distinct runtime
    dependencies over all of them, [vulnerable_deps] is the sum of the
    advisory counts the cache holds for them (advisories, not vulnerable
    packages), and [cves] lists the identifiers the cache holds for them,
    each once: the one value [None], or texts in the order of their code
    points. *)
Theorem audit_totals (post : string -> outcome osv_response) (file : cache_file)
    (pkg_jsons : list (string * value)) (repo_name : string)
    (osv_cache : option (gmap string cve_entry)) (m : repo_metrics)
    (cache : gmap string cve_entry) (names : list string) :
  pkg_jsons <> [] ->
  compute_metrics_for_repo post file pkg_jsons repo_name osv_cache
    = (Returned m, Some cache, names) ->
  exists deps_agg dev_deps_agg,
    aggregate pkg_jsons [] [] = Returned (deps_agg, dev_deps_agg)
    /\ NoDup (dict_keys deps_agg)
    /\ dependencies m = Z.of_nat (length (dict_keys deps_agg))
    /\ vulnerable_deps m = Zsum (map (cached_count cache) (dict_keys deps_agg))
    /\ (forall id, id ∈ cves m
                   <-> exists n, n ∈ dict_keys deps_agg /\ id ∈ cached_ids cache n)
    /\ NoDup (cves m)
    /\ (cves m = [None]
        \/ exists texts, cves m = map Some texts /\ StronglySorted str_le texts).
Proof.
  intros Hsome. unfold compute_metrics_for_repo.
  destruct pkg_jsons as [| pkg pkg_jsons]; [done |].
  destruct (aggregate (pkg :: pkg_jsons) [] []) as [[deps_agg dev_deps_agg] | e] eqn:Hagg;
    [| done].
  assert (Hnodup : NoDup (dict_keys deps_agg)).
  { eapply aggregate_NoDup; [| exact Hagg]. apply NoDup_nil_2. }
  destruct (audit_run post (dict_keys deps_agg) Hnodup
              (mkAudit (working_cache file osv_cache) 0 [] []))
    as (_ & _ & _ & _ & Htotal & Hids).
  fold (working_cache file osv_cache).
  set (st := fold_left (audit_step post) (dict_keys deps_agg) _) in *.
  destruct (sorted_ids (cve_list st)) as [cves |] eqn:Hsorted; [| done].
  cbn [bind]. intros [= <- <- <-].
  destruct (sorted_ids_spec _ _ Hsorted) as (Hmem & Hdistinct & Hshape).
  exists deps_agg, dev_deps_agg. cbn [dependencies vulnerable_deps RepoMetrics.cves].
  split; [done |]. split; [done |].
  split; [unfold dict_keys; by rewrite length_map |].
  split; [cbn in Htotal; lia |]. split; [| done].
  intros id. rewrite Hmem, Hids. cbn. rewrite elem_of_nil. tauto.
Qed.

Lemma audit_totals_sample :
  exists m cache,
    compute_metrics_for_repo lodash_advisories None two_manifests "o/r" (Some ∅)
      = (Returned m, Some cache, ["lodash"; "left-pad"]%string)
    /\ m = mkRepoMetrics "o/r" 2 1 2 [Some "GHSA-1"; Some "GHSA-2"]%string
             "package.json,packages/a/package.json"
    /\ vulnerable_deps m
       = Zsum (map (cached_count cache) ["lodash"; "left-pad"]%string).
Proof.
  assert (Hrun :
    compute_metrics_for_repo lodash_advisories None two_manifests "o/r" (Some ∅)
    = (Returned (mkRepoMetrics "o/r" 2 1 2 [Some "GHSA-1"; Some "GHSA-2"]%string
                   "package.json,packages/a/package.json"),
       Some (RepoMetrics.cache
               (fold_left (audit_step lodash_advisories) ["lodash"; "left-pad"]%string
                  (mkAudit ∅ 0 [] []))),
       ["lodash"; "left-pad"]%string))
    by reflexivity.
  eexists _, _. split; [exact Hrun |]. split; [reflexivity |].
  destruct (audit_totals lodash_advisories None two_manifests "o/r" (Some ∅) _ _ _
              ltac:(done) Hrun)
    as (deps_agg & dev_deps_agg & Hagg & _ & _ & Htotal & _).
  injection Hagg as <- <-. exact Htotal.
Defined.

End RepoMetricsProperties.

(* ===================================================================== *)
(** ** The file listing                                                  *)
(* ===================================================================== *)

Module CheckoutListingProperties.

Import CheckoutListing FindDependencyReplacements.

Lemma js_ext_is_src_ext (f : string) :
  existsb (endswith f) JS_EXTS = true -> existsb (endswith f) SRC_EXTS = true.
Proof.
  unfold JS_EXTS, SRC_EXTS. cbn [existsb]. rewrite !orb_true_iff. tauto.
Qed.

(** X30.  Every file [list_js_files_at_commit] lists has a name that is not
    empty and passes the suffix test of the blob analyzer; the converse
    fails: a module file main.mjs passes the test of the blob analyzer and
    is never listed, so the two analyzers do not count the same files. *)
Theorem listed_files_are_sources (out f : string) :
  (f ∈ list_js_files_at_commit out ->
   f <> EmptyString
   /\ existsb (endswith (lower f)) JS_EXTS = true
   /\ existsb (endswith (lower f)) SRC_EXTS = true)
  /\ existsb (endswith (lower "main.mjs")) SRC_EXTS = true
  /\ "main.mjs"%string ∉ list_js_files_at_commit out.
Proof.
  assert (Hlisted : forall g, g ∈ list_js_files_at_commit out ->
            g <> EmptyString /\ existsb (endswith (lower g)) JS_EXTS = true).
  { intros g. unfold list_js_files_at_commit.
    destruct (negb (truthy_str out)); [by intros ?%elem_of_nil |].
    intros (l & -> & [Hl _]%list_elem_of_filter)%list_elem_of_fmap.
    apply Is_true_true in Hl. unfold is_js_line in Hl.
    apply andb_true_iff in Hl as [Hfull Hext]. split; [| done].
    intros Hempty. by rewrite Hempty in Hfull. }
  split; [| split; [reflexivity |]].
  - intros Hf. destruct (Hlisted f Hf) as [Hfull Hext].
    split; [done |]. split; [done | by apply js_ext_is_src_ext].
  - intros Hf. by destruct (Hlisted _ Hf) as [_ Hext].
Qed.

Lemma listed_files_are_sources_sample :
  list_js_files_at_commit ("src/a.js" +:+ Samples.line_feed +:+ "README.md"
                           +:+ Samples.line_feed +:+ " lib/B.TSX ")
    = ["src/a.js"; "lib/B.TSX"]%string
  /\ existsb (endswith (lower "lib/B.TSX")) SRC_EXTS = true.
Proof.
  assert (Hlist : list_js_files_at_commit
                    ("src/a.js" +:+ Samples.line_feed +:+ "README.md"
                     +:+ Samples.line_feed +:+ " lib/B.TSX ")
                  = ["src/a.js"; "lib/B.TSX"]%string) by reflexivity.
  split; [exact Hlist |].
  apply (proj1 (listed_files_are_sources
                  ("src/a.js" +:+ Samples.line_feed +:+ "README.md"
                   +:+ Samples.line_feed +:+ " lib/B.TSX ") "lib/B.TSX")).
  rewrite Hlist. apply list_elem_of_further, list_elem_of_here.
Defined.

End CheckoutListingProperties.
